(* ===== verification/_CoqProject ===== *)
-Q . S2P
Prelude.v
Vault.v
Async.v
Progress.v
FetchHelper.v
Idempotence.v
FreshInstall.v
Dispatch.v
Plugin.v
PluginInvariants.v
DispatchRefinement.v
SettingTab.v
