(* ===== verification/Prelude.v ===== *)
(** * Click-clack: a verification development of the resource pipeline and
      the keystroke dispatch of the obsidian "click clack" plugin

    The program (TypeScript, under src/) has three parts.

    - [src/src/fetchHelper.ts], class [FetchHelper]: the resource
      acquisition pipeline.  [checkOrDownload] ensures the resource folder,
      and either extracts the cached archive [resources.zip] ([unzip]) or
      first downloads it ([download] -> [fetchAsset], which resolves the
      GitHub release asset by exact name and writes its bytes).  [unzip]
      reads the archive, creates the directory entries and writes every
      file entry whose destination does not exist yet
      ([checkOrCreateFolder] is the idempotent mkdir).  Several calls are
      asynchronous and NOT awaited ([this.unzip(..)],
      [this.checkOrCreateFolder(..)], the [forEach(async ..)] bodies): they
      run as detached tasks that interleave with each other at every
      file-system or network call.
    - [src/src/main.ts], class [ClickClackPlugin]: the keydown listener
      that maps a key code to one of five sound channels and plays it, the
      enable/disable commands, settings load and save, and the sound life
      cycle ([onload], [refreshSounds], [stopSounds], [unloadSounds],
      [onunload]).
    - [src/src/SettingTab.ts], class [ClickClackSettingTab]: the handlers
      of the settings UI, which toggle the sound, set the volume of every
      channel, swap the active scheme and call [checkOrDownload].

    The host interfaces come from [src/typings/obsidian.d.ts] (the vault
    [DataAdapter], [requestUrl], [Notice], [Plugin], howler's [Howl]) and
    [src/typings/zip.d.ts] ([ZipEntry]).  The key table [DEFAULT_MAP], the
    default sounds and settings and the scheme catalogue [SchemeHelper] are
    imported by main.ts but their files are not in the repository: they are
    modelled from the spec (sections 3, 4.4 and 6).

    * Files of the development

    - [Prelude] (this file): the notation scope [cc_scope] with [a </> b]
      for [[a, b].join('/')], the helper [js_join], generic lemmas on
      [find] and folds, the hint database [cc] and the tactic [invc].
    - [Vault]: the host file interface [DataAdapter] as a type class, the
      laws the pipeline relies on ([DataAdapterLaws]), and an executable
      in-memory vault [MemVault] (a [gmap] from paths to folders and files,
      a set of paths whose writes fail, and a strict mode in which a write
      needs its parent folder) that satisfies them.
    - [Async]: the asynchronous code as first-order trees of effects
      ([prog]: exists, mkdir, readBinary, writeBinary, requestUrl, Notice,
      and [Spawn] for an un-awaited call) with [then_] for [await] and
      [try_catch]; the world they act on (store, notices, requests,
      unhandled rejections); the awaited reading [run] (structural: every
      spawned task runs to completion at once); the small-step semantics
      [step] over a main call and a pool of detached tasks, one effect per
      step (the cooperative interleaving of section 5 of the spec), of
      which [run] is one schedule ([run_main]); its termination ([step_wf],
      by the list extension of the subterm order) and progress; the
      per-task predicate [safe] ("every write is guarded by an exists check
      that protects the files present at the start") and the invariant
      [safe_inv] it gives over every schedule; the per-task predicate
      [inert] ("on this store, only checks, reads, folders already there
      and failing writes") and the invariant [inert_inv] it gives; the
      executable schedulers [sched], [drive] and [replay] for concrete
      interleavings.
    - [Progress]: a rely-guarantee argument over the thread pool: tasks
      that [guar]antee their writes and folders keep the store in a shape
      [Good] that only changes by [Rely]; a task under an [obl]igation
      establishes a stable goal or hands it to a task it spawns ([fin] is
      the Hoare triple of normal completion under interference); at a final
      configuration the goal holds ([steps_final_goal]).
    - [FetchHelper]: [checkOrCreateFolder], [unzip] and its per-file task
      [extractFile], [fetchAsset] and its resolver [find_asset],
      [download], [checkOrDownload]; the extraction algorithm of section
      4.1 as a function on worlds ([extract_spec]); the theorems of the
      pipeline; the scenarios of Module [Scenarios].
    - [Idempotence]: section 8's idempotence of [checkOrDownload] on
      [MemVault] (extraction only adds files; after one extraction every
      file entry is settled, so the store is [extracted] and every later
      call is [inert] on it).
    - [FreshInstall]: the instance of [Progress] for the pipeline on
      [MemVault]: the archive's allowed writes and folders
      ([archive_write], [archive_folder]), the vault holding only them
      ([only_archive]), the executable layout check of the archive
      ([archive_layout_ok]) and what the network serves
      ([served_archive]); and, for any archive and network, the nodes a
      vault may gain ([confined]).
    - [Dispatch]: the channels, [Sounds], the keyboard event, the keydown
      listener [onKeydown] and its guard-free specification.
    - [Plugin]: the plugin state [Plugin] (settings, sound set, the map of
      howler handles, the next load generation, the data file); every
      handler of main.ts and SettingTab.ts as a function on it; the event
      relation [pstep] (any handler, the slider's values limited to
      0..100, [onload] and the scheme dropdown split at their
      [await loadScheme]) from [start_state]; the invariant
      [one_generation].
    - [PluginInvariants]: more invariants of [pstep]: volumes in range
      ([plugin_bounded]); the event loop when the scheme loads finish in the order they
      started ([pstep_fifo], [finish_loads]) and its invariant
      [follows_scheme] (the load installed last is of the active scheme);
      the data file against the settings ([restart_settings],
      [data_consistent]).
    - [DispatchRefinement]: the state machine of section 4.4 as a labelled
      relation on the current sound set ([dispatch_step]: replace the whole
      set by one load's handles, invoke one channel, or skip); what a
      transition does to the handles ([audio_effect], by the playbacks in
      progress [playing_at]); the simulation of [pstep] by it, from the
      invariant that every pending load is a whole set ([pending_whole]);
      repeated keydowns ([Nat.iter]).
    - [SettingTab]: [display] of SettingTab.ts as the rows it shows (a
      [row] of [control]s, the dropdown as a [DropdownState]), the object
      spread that fills the dropdown ([obj_set], [obj_spread]; an object is
      its properties in creation order), the order in which [for .. in]
      enumerates an object ([own_entries]: ECMAScript array-index keys
      ([array_index]) first, ascending, then the others in creation order),
      obsidian's [addOptions]/[setValue], and the refresh and download
      buttons.

    * What the theorems show (C1..C35 name the main theorems, by their
      doc comments)

    - Pipeline, every interleaving: no file present before the calls is
      ever modified, whatever the schedule and the number of concurrent
      [checkOrDownload] calls (C1).
    - Pipeline, awaited reading (the schedule that runs every detached
      task to its end when it is spawned, one real schedule of the event
      loop by [run_main]): the fresh install downloads, persists and
      extracts (C2); with a cached archive it is exactly the extraction
      algorithm of the spec (C3) and makes no request and no notice (C11);
      a second successful call changes nothing (C8), and so do any number
      of further calls running concurrently, under every schedule (C30).
    - Pipeline, every schedule run to the end: any number of concurrent
      fresh installs store the archive and extract every file with its
      bytes, except the files whose writes the vault refuses, which do not
      stop the others (C32), though they may download the archive several
      times (C17); the vault gains only the archive and what the archive's
      entry names point to, joined to the resource folder as they are,
      [..] segments included (C33).
    - Error paths of [fetchAsset], [download] and [checkOrDownload]: the
      missing asset (C12), every rejection of [download] wrapped after a
      failure notice carrying the error [fetchAsset] rejected with (C13),
      the unreachable endpoint (C14).
    - Resolver: the first asset of exactly the target name (C6).
    - Dispatch and plugin: the listener refines section 4.4 (C5); in every
      reachable state a keydown plays a handle of the one generation
      installed (C4); a qualifying keydown plays once, others change
      nothing (C9, C10); the volume reaches all five handles (C7);
      settings round trip (C22), commands (C23), unload (C24); in every
      reachable state volumes stay in [0, 1] (C25); when the loads finish
      in the order they started, finishing them always brings the sounds
      back to the active scheme (C29), which an out-of-order completion
      does not (C28); a restart on the data file comes back with the
      settings, the active scheme apart while a scheme change still loads
      (C31); every handler step of a reachable state is one transition of
      section 4.4's machine (the whole set replaced, one channel invoked
      with its handle playing once more, or nothing), and no step but an
      invocation starts a playback (C34); rapid keydowns on a channel
      overlap, each adding one playback (C35).
    - Setting tab: it shows the settings, and the dropdown lists "default"
      and every installed scheme once, "default" first unless a scheme id
      is an array index, which [for .. in] lists before it (C26).
    - Findings, each a theorem: the two failure kinds merged (C15); a
      corrupt archive unreported (C16); two clicks of the download button
      download twice (C17); directory-before-file order not guaranteed and
      failing writes not surfaced (C18); replaced sounds never released
      (C19); rapid scheme changes install stale sounds (C20); the saved
      volume not applied at startup (C21); every click of the refresh
      button lists every scheme once more (C27); a scheme picked while
      [onload] still loads is overridden by [onload]'s own load (C28).

    * Bounds and fuel

    No fuel bounds a theorem: [run] is structural on the program tree, and
    the concurrent semantics is proved terminating for every program
    ([step_wf], [eventually_final] in Async; a fact of the effect language,
    not of [checkOrDownload], so it is a library lemma, not a claim).  The schedulers [drive]
    and [replay] take fuel only to compute concrete counterexample
    executions (300 steps; each scenario theorem checks that the
    configuration reached is [final], so the fuel was enough, and their
    soundness lemmas hold for any fuel).  Volumes are the
    slider's integers 0..100, passed to howler as the rational [v / 100].

    * Not modelled

    The DOM of the setting tab (what [display] builds is modelled as data,
    not its elements and styling), the i18n strings (a parameter [t]), the zip decoder (the function [getEntries] of the
    environment), [normalizePath] (a function of the environment), audio
    playback itself (a counter of overlapping playbacks per handle), and
    the extra yields inside [getData] and [getEntries], which touch no
    shared state.  [saveData] and [loadData] are a stored copy of the
    settings.  The order in which the file reads of two scheme loads
    complete is the environment's: [pstep] allows every order and
    [pstep_fifo] only the order of start.  The completion of concurrent
    installs (C32) is proved on a vault whose writes need no parent
    folder: on a strict file system a schedule can write a file before its
    folder exists (C18).  The refinement of section 4.4 (C34) takes
    [refreshSounds] as one step, as [pstep] does: the repository has no
    caller that could interleave with its [await].  That the sound set
    always has its five handles rests on the scheme catalogue, which is
    not in the repository ([loadScheme] is modelled from section 6 of the
    spec), so no claim is made of it on its own.
*)

From stdpp Require Export base list gmap strings.
From Stdlib Require Ascii String.

Declare Scope cc_scope.
Delimit Scope cc_scope with cc.

(** ** JavaScript helpers *)

(** [Array.prototype.join(sep)] on an array of strings. *)
Definition js_join (sep : string) (parts : list string) : string :=
  String.concat sep parts.

(** [[a, b].join('/')], the path concatenation used throughout fetchHelper.ts. *)
Notation "a </> b" := (js_join "/"%string [a; b]) (at level 40, left associativity) : cc_scope.

(** [Array.prototype.find] with a boolean predicate is Stdlib's [find]. *)

(** ** Tactics *)

Ltac invc H := inversion H; subst; clear H.

Create HintDb cc.

(** ** Generic lemmas on [find] *)

Section Find.
Context {A : Type} (f : A -> bool).

(** [find] returns the first element satisfying [f]: everything before it
    fails the test. *)
Lemma find_first (l : list A) (x : A) :
  find f l = Some x ->
  exists pre post, l = pre ++ x :: post /\ f x = true /\
                   Forall (fun y => f y = false) pre.
Proof.
  induction l as [|y l IH]; simpl; [discriminate|].
  destruct (f y) eqn:Hy.
  - intros [= ->]. exists [], l. auto.
  - intros Hf. destruct (IH Hf) as (pre & post & -> & Hx & Hpre).
    exists (y :: pre), post. simpl. auto.
Qed.

Lemma find_None_iff (l : list A) :
  find f l = None <-> Forall (fun y => f y = false) l.
Proof.
  induction l as [|y l IH]; simpl; [split; auto|].
  destruct (f y) eqn:Hy; split.
  - discriminate.
  - intros Hall. invc Hall. congruence.
  - intros H. constructor; [done|]. by apply IH.
  - intros Hall. invc Hall. by apply IH.
Qed.
End Find.

(** ** Folds *)

Lemma fold_left_map_ext {A B C} (g : A -> B -> A) (f : C -> B) (h : A -> C -> A)
    (l : list C) (a : A) :
  (forall a c, g a (f c) = h a c) -> fold_left g (map f l) a = fold_left h l a.
Proof. intros Hgh. revert a. induction l as [|c l IH]; intros a; simpl; [done|]. by rewrite Hgh. Qed.

(** An invariant of every step of a fold holds of its result. *)
Lemma fold_left_inv {A B} (P : A -> Prop) (f : A -> B -> A) (l : list B) (a : A) :
  P a -> (forall a b, In b l -> P a -> P (f a b)) -> P (fold_left f l a).
Proof.
  revert a. induction l as [|b l IH]; intros a Ha Hf; simpl; [done|].
  apply IH; [apply Hf; [left|]; done|]. intros a' b' Hb. apply Hf. by right.
Qed.

(** Membership in [arr.filter(f)] of JavaScript ([List.filter]). *)
Lemma elem_of_List_filter {A} (f : A -> bool) (l : list A) x :
  x ∈ List.filter f l <-> x ∈ l /\ f x = true.
Proof. rewrite !list_elem_of_In. apply List.filter_In. Qed.

(** Distinct images identify the elements. *)
Lemma NoDup_map_inj {A B} (f : A -> B) (l : list A) x y :
  NoDup (map f l) -> x ∈ l -> y ∈ l -> f x = f y -> x = y.
Proof.
  induction l as [|a l IH]; intros Hnd Hx Hy Hf; [by apply elem_of_nil in Hx|].
  simpl in Hnd. apply NoDup_cons in Hnd as [Ha Hnd].
  apply elem_of_cons in Hx as [->|Hx], Hy as [->|Hy]; [done| | |auto].
  - exfalso. apply Ha. rewrite Hf. by apply list_elem_of_fmap_2.
  - exfalso. apply Ha. rewrite <- Hf. by apply list_elem_of_fmap_2.
Qed.

(** ** Finite maps *)

(** [alter] keeps a property of every value when [f] does. *)
Lemma map_Forall_alter_pres {K A} `{Countable K} (P : A -> Prop) (f : A -> A) (i : K)
    (m : gmap K A) :
  (forall x, P x -> P (f x)) -> map_Forall (fun _ => P) m -> map_Forall (fun _ => P) (alter f i m).
Proof.
  intros Hf Hm j x. destruct (decide (i = j)) as [->|Hne].
  - rewrite lookup_alter_eq. destruct (m !! j) eqn:Hj; simpl; [|done].
    intros [= <-]. apply Hf. by eapply Hm.
  - rewrite lookup_alter_ne by done. apply Hm.
Qed.

#[export] Hint Resolve map_Forall_alter_pres map_Forall_insert_2 : cc.
