(* ===== verification/Vault.v ===== *)
(** * The vault file-system interface of the host

    [src/typings/obsidian.d.ts] declares [DataAdapter] (lines 38-46), the
    asynchronous file interface of the host that fetchHelper.ts uses:
    [exists], [mkdir], [readBinary], [writeBinary].  This file states it as a
    type class [DataAdapter] over an abstract store [S], the laws the
    pipeline relies on as [DataAdapterLaws], and an executable in-memory
    store [MemVault] that implements both.  The pipeline of FetchHelper.v is
    proved against the laws; its concrete runs use [MemVault]. *)

From S2P Require Import Prelude.

(** An [ArrayBuffer] of bytes. *)
Definition bytes := list Byte.byte.

#[export] Instance byte_eq_dec : EqDecision Byte.byte := Byte.byte_eq_dec.

(** [readBinary] returns [None] for a missing file; [writeBinary] returns
    the new store ([inr]) or the text of its rejection ([inl]). *)
Class DataAdapter (S : Type) := {
  exists_ : S -> string -> bool;
  mkdir : string -> S -> S;
  readBinary : S -> string -> option bytes;
  writeBinary : string -> bytes -> S -> string + S;
}.

(** What the pipeline assumes of the host: reads see the last successful
    write, writes and mkdirs touch only their own path, and mkdir never
    destroys file content. *)
Class DataAdapterLaws (S : Type) `{DataAdapter S} := {
  read_exists s p d : readBinary s p = Some d -> exists_ s p = true;
  write_read s s' p d : writeBinary p d s = inr s' -> readBinary s' p = Some d;
  write_read_other s s' p q d :
    writeBinary p d s = inr s' -> q <> p -> readBinary s' q = readBinary s q;
  write_exists_other s s' p q d :
    writeBinary p d s = inr s' -> q <> p -> exists_ s' q = exists_ s q;
  mkdir_exists s p : exists_ (mkdir p s) p = true;
  mkdir_read s p q : readBinary (mkdir p s) q = readBinary s q;
  mkdir_exists_other s p q : q <> p -> exists_ (mkdir p s) q = exists_ s q;
}.

Section Derived.
Context {Store : Type} `{DataAdapterLaws Store}.

Lemma write_exists s s' p d : writeBinary p d s = inr s' -> exists_ s' p = true.
Proof. intros Hw. eapply read_exists, write_read, Hw. Qed.

(** A path that held a file still holds it after a write to another path
    or a mkdir: the frame property of the protected files. *)
Lemma write_preserves_file s s' p q d dq :
  writeBinary p d s = inr s' -> q <> p ->
  readBinary s q = Some dq -> readBinary s' q = Some dq.
Proof. intros Hw Hne Hq. by rewrite (write_read_other _ _ _ _ _ Hw Hne). Qed.
End Derived.

#[export] Hint Resolve write_exists write_preserves_file read_exists : cc.

(** ** The in-memory vault *)

(** A directory or a file of the vault. *)
Inductive node := Folder | File (d : bytes).

(** Path prefix before the last ["/"], or [None] for a top-level name. *)
Fixpoint last_slash_aux (s : string) (i : nat) (acc : option nat) : option nat :=
  match s with
  | EmptyString => acc
  | String c s' =>
      last_slash_aux s' (S i) (if Ascii.eqb c (Ascii.ascii_of_nat 47) then Some i else acc)
  end.

Definition dirname (p : string) : option string :=
  match last_slash_aux p 0 None with
  | Some i => Some (String.substring 0 i p)
  | None => None
  end.

(** [mv_strict]: whether a write into a folder that does not exist fails
    (as [fs.writeFile] does with ENOENT); [mv_denied]: paths whose write
    fails (permission denied, disk full). *)
Record MemVault := {
  mv_nodes : gmap string node;
  mv_denied : gset string;
  mv_strict : bool;
}.

Definition mv_set (p : string) (n : node) (v : MemVault) : MemVault :=
  {| mv_nodes := <[p := n]> (mv_nodes v); mv_denied := mv_denied v;
     mv_strict := mv_strict v |}.

(** The parent folder of [p] exists (a folder created from a zip directory
    entry carries a trailing slash). *)
Definition is_folder (v : MemVault) (d : string) : bool :=
  match mv_nodes v !! d with Some Folder => true | _ => false end.

Definition parent_ok (v : MemVault) (p : string) : bool :=
  negb (mv_strict v) ||
  match dirname p with
  | None => true
  | Some d => is_folder v d || is_folder v (d +:+ "/")
  end.

#[export] Instance MemVault_adapter : DataAdapter MemVault := {
  exists_ v p := match mv_nodes v !! p with Some _ => true | None => false end;
  mkdir p v := match mv_nodes v !! p with
               | Some _ => v
               | None => mv_set p Folder v
               end;
  readBinary v p := match mv_nodes v !! p with Some (File d) => Some d | _ => None end;
  writeBinary p d v :=
    if bool_decide (p ∈ mv_denied v) then inl ("Error: EACCES: permission denied, open '" +:+ p +:+ "'")
    else match mv_nodes v !! p with
         | Some Folder => inl ("Error: EISDIR: illegal operation on a directory, open '" +:+ p +:+ "'")
         | _ => if parent_ok v p then inr (mv_set p (File d) v)
                else inl ("Error: ENOENT: no such file or directory, open '" +:+ p +:+ "'")
         end;
}.

#[export] Instance MemVault_laws : DataAdapterLaws MemVault.
Proof.
  split; intros *; cbn.
  - by destruct (mv_nodes s !! p).
  - case_bool_decide; [discriminate|].
    destruct (mv_nodes s !! p) as [[]|]; try destruct (parent_ok s p);
      intros; simplify_eq; cbn; by rewrite lookup_insert_eq.
  - case_bool_decide; [discriminate|].
    destruct (mv_nodes s !! p) as [[]|]; try destruct (parent_ok s p);
      intros; simplify_eq; cbn; by rewrite lookup_insert_ne.
  - case_bool_decide; [discriminate|].
    destruct (mv_nodes s !! p) as [[]|]; try destruct (parent_ok s p);
      intros; simplify_eq; cbn; by rewrite lookup_insert_ne.
  - destruct (mv_nodes s !! p) eqn:E; [by rewrite E|]. cbn. by rewrite lookup_insert_eq.
  - destruct (mv_nodes s !! p) eqn:E; [done|].
    destruct (decide (q = p)) as [->|]; [cbn; by rewrite lookup_insert_eq, E|].
    cbn. by rewrite lookup_insert_ne.
  - destruct (mv_nodes s !! p); [done|]. intros. cbn. by rewrite lookup_insert_ne.
Qed.

(** A vault built from a list of (path, node) pairs, for concrete runs. *)
Definition mk_vault (strict : bool) (denied : list string)
    (l : list (string * node)) : MemVault :=
  {| mv_nodes := list_to_map l; mv_denied := list_to_set denied;
     mv_strict := strict |}.
