(* ===== verification/Async.v ===== *)
(** * Asynchronous programs over the vault and the network

    The pipeline of fetchHelper.ts is written with [async]/[await], and
    several of its calls are not awaited.  A program is modelled as a finite
    tree of effects ([prog]): each node is one host call at which the
    JavaScript code suspends ([adapter.exists], [mkdir], [readBinary],
    [writeBinary], [requestUrl]), a user notice ([new Notice]), or the spawn
    of an un-awaited call ([Spawn t k]: [t] runs detached, the caller goes on
    with [k]).  A call that can reject hands a sum to its continuation; the
    smart constructors [await_read], [await_write], [await_request] rethrow
    the rejection, as [await] does.

    Two semantics are given:
    - [run]: every spawned task runs to completion before its spawner goes
      on (the reading of the code "as if every call were awaited");
    - [step]: a thread pool in which any task may take its next effect
      (the cooperative interleaving of section 5 of the spec), with [sched]
      replaying a chosen schedule.
    [run_main] shows that [run] is one schedule of [step]; [step_wf] that
    every schedule is finite, [eventually_final] that each can be
    completed; [safe_inv_steps] is the invariant of the "never overwrites"
    theorem of FetchHelper.v, [inert_inv_steps] the one of the concurrent
    idempotence theorem of Idempotence.v. *)

From S2P Require Import Prelude Vault.
From Stdlib Require Import List_Extension.

(** ** Network data *)

(** An element of the [assets] array of a GitHub release (the file
    typings/githubAsset is not in the repository: name and url). *)
Record githubAsset := { asset_name : string; asset_url : string }.

(** The argument of [requestUrl]. *)
Record request := { req_url : string; req_headers : list (string * string) }.

(** What [requestUrl] resolves to: the [assets] field of the JSON body, if
    present ([response.json.assets]), and the body bytes
    ([response.arrayBuffer]). *)
Record response := { resp_assets : option (list githubAsset); resp_body : bytes }.

(** ** Programs *)

Inductive prog : Type :=
| Done
| Throw (e : string)
| Exists (p : string) (k : bool -> prog)
| Mkdir (p : string) (k : prog)
| ReadBinary (p : string) (k : string + bytes -> prog)
| WriteBinary (p : string) (d : bytes) (k : string + unit -> prog)
| RequestUrl (r : request) (k : string + response -> prog)
| ShowNotice (msg : string) (timeout : option nat) (k : prog)
| Spawn (t : prog) (k : prog).

(** [await] on a call that may reject: a rejection propagates. *)
Definition await_read (p : string) (k : bytes -> prog) : prog :=
  ReadBinary p (fun r => match r with inl e => Throw e | inr d => k d end).
Definition await_write (p : string) (d : bytes) (k : prog) : prog :=
  WriteBinary p d (fun r => match r with inl e => Throw e | inr _ => k end).
Definition await_request (r : request) (k : response -> prog) : prog :=
  RequestUrl r (fun x => match x with inl e => Throw e | inr resp => k resp end).

(** [await p; q]: run [q] after [p] completes; a rejection skips [q].
    A task spawned inside [p] is not waited for. *)
Fixpoint then_ (p q : prog) : prog :=
  match p with
  | Done => q
  | Throw e => Throw e
  | Exists a k => Exists a (fun b => then_ (k b) q)
  | Mkdir a k => Mkdir a (then_ k q)
  | ReadBinary a k => ReadBinary a (fun r => then_ (k r) q)
  | WriteBinary a d k => WriteBinary a d (fun r => then_ (k r) q)
  | RequestUrl r k => RequestUrl r (fun x => then_ (k x) q)
  | ShowNotice m t k => ShowNotice m t (then_ k q)
  | Spawn t k => Spawn t (then_ k q)
  end.

(** [try { p } catch (e) { h e }]: the rejections of [p] itself are caught,
    not those of the tasks [p] spawned. *)
Fixpoint try_catch (p : prog) (h : string -> prog) : prog :=
  match p with
  | Done => Done
  | Throw e => h e
  | Exists a k => Exists a (fun b => try_catch (k b) h)
  | Mkdir a k => Mkdir a (try_catch k h)
  | ReadBinary a k => ReadBinary a (fun r => try_catch (k r) h)
  | WriteBinary a d k => WriteBinary a d (fun r => try_catch (k r) h)
  | RequestUrl r k => RequestUrl r (fun x => try_catch (k x) h)
  | ShowNotice m t k => ShowNotice m t (try_catch k h)
  | Spawn t k => Spawn t (try_catch k h)
  end.

(** [arr.forEach(async e => f(e))] without awaiting: one detached task per
    element, then continue. *)
Fixpoint spawn_all (ts : list prog) (k : prog) : prog :=
  match ts with
  | [] => k
  | t :: ts' => Spawn t (spawn_all ts' k)
  end.

(** ** Worlds *)

(** A rejection carries the text [`${error}`] of the thrown object
    ("Error: ..." for an [Error], "TypeError: ..." for a [TypeError]). *)
Inductive outcome := Finished | Rejected (e : string).

Record world (Store : Type) := {
  w_store : Store;
  w_notices : list (string * option nat);
  w_requests : list request;
  w_rejections : list string;   (** unhandled rejections of detached tasks *)
}.
Arguments w_store {_}. Arguments w_notices {_}.
Arguments w_requests {_}. Arguments w_rejections {_}.

Definition init_world {Store} (s : Store) : world Store :=
  {| w_store := s; w_notices := []; w_requests := []; w_rejections := [] |}.

Section Semantics.
Context {Store : Type} `{DataAdapter Store}.
(** The network: the response of each request, or the rejection message. *)
Variable server : request -> string + response.

Definition set_store (s : Store) (w : world Store) : world Store :=
  {| w_store := s; w_notices := w_notices w; w_requests := w_requests w;
     w_rejections := w_rejections w |}.
Definition add_notice (m : string) (t : option nat) (w : world Store) : world Store :=
  {| w_store := w_store w; w_notices := w_notices w ++ [(m, t)];
     w_requests := w_requests w; w_rejections := w_rejections w |}.
Definition add_request (r : request) (w : world Store) : world Store :=
  {| w_store := w_store w; w_notices := w_notices w;
     w_requests := w_requests w ++ [r]; w_rejections := w_rejections w |}.
(** A finished detached task: its rejection, if any, is unhandled. *)
Definition reap (o : outcome) (w : world Store) : world Store :=
  match o with
  | Finished => w
  | Rejected e =>
      {| w_store := w_store w; w_notices := w_notices w;
         w_requests := w_requests w; w_rejections := w_rejections w ++ [e] |}
  end.

(** The host calls. *)
Definition write_result (p : string) (d : bytes) (w : world Store)
    : world Store * (string + unit) :=
  match writeBinary p d (w_store w) with
  | inr s' => (set_store s' w, inr tt)
  | inl e => (w, inl e)
  end.
Definition read_result (p : string) (w : world Store) : string + bytes :=
  match readBinary (w_store w) p with
  | Some d => inr d
  | None => inl ("Error: ENOENT: no such file or directory, open '" +:+ p +:+ "'")
  end.

(** One effect of one task: the new world, the continuation and the
    spawned tasks; [None] for a finished task. *)
Definition step1 (w : world Store) (p : prog) : option (world Store * prog * list prog) :=
  match p with
  | Done | Throw _ => None
  | Exists a k => Some (w, k (exists_ (w_store w) a), [])
  | Mkdir a k => Some (set_store (mkdir a (w_store w)) w, k, [])
  | ReadBinary a k => Some (w, k (read_result a w), [])
  | WriteBinary a d k => let '(w', r) := write_result a d w in Some (w', k r, [])
  | RequestUrl r k => Some (add_request r w, k (server r), [])
  | ShowNotice m t k => Some (add_notice m t w, k, [])
  | Spawn t k => Some (w, k, [t])
  end.

(** The awaited reading: a spawned task runs to completion first. *)
Fixpoint run (p : prog) (w : world Store) : world Store * outcome :=
  match p with
  | Done => (w, Finished)
  | Throw e => (w, Rejected e)
  | Exists a k => run (k (exists_ (w_store w) a)) w
  | Mkdir a k => run k (set_store (mkdir a (w_store w)) w)
  | ReadBinary a k => run (k (read_result a w)) w
  | WriteBinary a d k => let '(w', r) := write_result a d w in run (k r) w'
  | RequestUrl r k => run (k (server r)) (add_request r w)
  | ShowNotice m t k => run k (add_notice m t w)
  | Spawn t k => let '(w1, o) := run t w in run k (reap o w1)
  end.

Lemma run_then p q w :
  run (then_ p q) w =
  let '(w1, o) := run p w in
  match o with Finished => run q w1 | Rejected e => (w1, Rejected e) end.
Proof.
  revert w; induction p; intros w; simpl; auto.
  - destruct (write_result p d w). auto.
  - destruct (run p1 w). auto.
Qed.

Lemma run_try_catch p h w :
  run (try_catch p h) w =
  let '(w1, o) := run p w in
  match o with Finished => (w1, Finished) | Rejected e => run (h e) w1 end.
Proof.
  revert w; induction p; intros w; simpl; auto.
  - destruct (write_result p d w). auto.
  - destruct (run p1 w). auto.
Qed.

Lemma run_notice m t k w : run (ShowNotice m t k) w = run k (add_notice m t w).
Proof. reflexivity. Qed.

Lemma run_spawn_all ts k w :
  run (spawn_all ts k) w =
  run k (fold_left (fun w t => let '(w1, o) := run t w in reap o w1) ts w).
Proof.
  revert w; induction ts as [|t ts IH]; intros w; simpl; [done|].
  destruct (run t w). apply IH.
Qed.

(** Programs that neither talk to the network nor show a notice. *)
Inductive offline : prog -> Prop :=
| offline_done : offline Done
| offline_throw e : offline (Throw e)
| offline_exists a k : (forall b, offline (k b)) -> offline (Exists a k)
| offline_mkdir a k : offline k -> offline (Mkdir a k)
| offline_read a k : (forall r, offline (k r)) -> offline (ReadBinary a k)
| offline_write a d k : (forall r, offline (k r)) -> offline (WriteBinary a d k)
| offline_spawn t k : offline t -> offline k -> offline (Spawn t k).

Lemma offline_spawn_all ts k : Forall offline ts -> offline k -> offline (spawn_all ts k).
Proof. induction 1; simpl; auto using offline. Qed.

Lemma run_offline p w :
  offline p ->
  w_requests (fst (run p w)) = w_requests w /\ w_notices (fst (run p w)) = w_notices w.
Proof.
  intros Hp. revert w. induction Hp as [| | | a k _ IH | | a d k _ IH | t k _ IHt _ IHk];
    intros w; simpl; eauto.
  - by destruct (IH (set_store (mkdir a (w_store w)) w)) as [-> ->].
  - unfold write_result. destruct (writeBinary a d (w_store w)) as [e|s']; [apply IH|].
    by destruct (IH (inr tt) (set_store s' w)) as [-> ->].
  - destruct (run t w) as [w1 o] eqn:E. specialize (IHt w). rewrite E in IHt.
    destruct (IHk (reap o w1)) as [-> ->]. destruct o; simpl; tauto.
Qed.
End Semantics.

#[export] Hint Constructors offline : cc.
#[export] Hint Resolve offline_spawn_all : cc.

(** ** The thread pool *)

(** The running call, the detached tasks, and the world they share. *)
Record config (Store : Type) := Cfg {
  c_world : world Store;
  c_main : prog;
  c_pool : list prog;
}.
Arguments Cfg {_}. Arguments c_world {_}. Arguments c_main {_}. Arguments c_pool {_}.

Definition terminal (p : prog) : option outcome :=
  match p with Done => Some Finished | Throw e => Some (Rejected e) | _ => None end.

Definition of_outcome (o : outcome) : prog :=
  match o with Finished => Done | Rejected e => Throw e end.

(** All tasks of a configuration, the running call first. *)
Definition threads {Store} (c : config Store) : list prog := c_main c :: c_pool c.

(** The running call has finished and no detached task is left. *)
Definition final {Store} (c : config Store) : Prop :=
  terminal (c_main c) <> None /\ c_pool c = [].

Section Pool.
Context {Store : Type} `{DataAdapter Store}.
Variable server : request -> string + response.

(** Any task takes its next effect; a spawned task is placed right after
    its spawner; a finished detached task is removed and its rejection, if
    any, recorded as unhandled. *)
Inductive step : config Store -> config Store -> Prop :=
| step_main w m pool w' m' sp :
    step1 server w m = Some (w', m', sp) ->
    step (Cfg w m pool) (Cfg w' m' (sp ++ pool))
| step_task w m l1 t l2 w' t' sp :
    step1 server w t = Some (w', t', sp) ->
    step (Cfg w m (l1 ++ t :: l2)) (Cfg w' m (l1 ++ t' :: sp ++ l2))
| step_reap w m l1 t l2 o :
    terminal t = Some o ->
    step (Cfg w m (l1 ++ t :: l2)) (Cfg (reap o w) m (l1 ++ l2)).

Definition steps : config Store -> config Store -> Prop := rtc step.

(** *** The awaited reading is one schedule *)

Lemma run_task t : forall w w' o m l1 l2,
  run server t w = (w', o) ->
  steps (Cfg w m (l1 ++ t :: l2)) (Cfg (reap o w') m (l1 ++ l2)).
Proof.
  induction t as [| e | a k IH | a k IH | a k IH | a d k IH | r k IH | s tm k IH
                  | t IHt k IHk]; intros w w' o m l1 l2 Hrun; simpl in Hrun.
  - simplify_eq. apply rtc_once. by apply step_reap.
  - simplify_eq. apply rtc_once. by apply step_reap.
  - eapply rtc_l; [by apply step_task|]. simpl. by eapply IH.
  - eapply rtc_l; [by apply step_task|]. simpl. by eapply IH.
  - eapply rtc_l; [by apply step_task|]. simpl. by eapply IH.
  - destruct (write_result a d w) as [w1 r] eqn:Ew.
    eapply rtc_l; [apply step_task; simpl; by rewrite Ew|]. simpl. by eapply IH.
  - eapply rtc_l; [by apply step_task|]. simpl. by eapply IH.
  - eapply rtc_l; [by apply step_task|]. simpl. by eapply IH.
  - destruct (run server t w) as [w1 o1] eqn:Et.
    eapply rtc_l; [by apply step_task|]. simpl.
    pose proof (IHt w w1 o1 m (l1 ++ [k]) l2 Et) as Ht.
    rewrite <- !app_assoc in Ht.
    eapply rtc_trans; [exact Ht|]. by eapply IHk.
Qed.

Lemma run_main p : forall w w' o pool,
  run server p w = (w', o) -> steps (Cfg w p pool) (Cfg w' (of_outcome o) pool).
Proof.
  induction p as [| e | a k IH | a k IH | a k IH | a d k IH | r k IH | s tm k IH
                  | t IHt k IHk]; intros w w' o pool Hrun; simpl in Hrun.
  - simplify_eq. apply rtc_refl.
  - simplify_eq. apply rtc_refl.
  - eapply rtc_l; [by apply step_main|]. by eapply IH.
  - eapply rtc_l; [by apply step_main|]. by eapply IH.
  - eapply rtc_l; [by apply step_main|]. by eapply IH.
  - destruct (write_result a d w) as [w1 r] eqn:Ew.
    eapply rtc_l; [apply step_main; simpl; by rewrite Ew|]. by eapply IH.
  - eapply rtc_l; [by apply step_main|]. by eapply IH.
  - eapply rtc_l; [by apply step_main|]. by eapply IH.
  - destruct (run server t w) as [w1 o1] eqn:Et.
    eapply rtc_l; [by apply step_main|]. simpl.
    eapply rtc_trans; [by apply (run_task t w w1 o1 k [] pool)|]. by eapply IHk.
Qed.

(** *** Replaying a schedule *)

Inductive choice := Main | Task (i : nat) | Reap (i : nat).

Definition sched1 (c : config Store) (ch : choice) : option (config Store) :=
  match ch with
  | Main =>
      match step1 server (c_world c) (c_main c) with
      | Some (w', m', sp) => Some (Cfg w' m' (sp ++ c_pool c))
      | None => None
      end
  | Task i =>
      match c_pool c !! i with
      | Some t =>
          match step1 server (c_world c) t with
          | Some (w', t', sp) =>
              Some (Cfg w' (c_main c) (take i (c_pool c) ++ t' :: sp ++ drop (S i) (c_pool c)))
          | None => None
          end
      | None => None
      end
  | Reap i =>
      match c_pool c !! i with
      | Some t =>
          match terminal t with
          | Some o => Some (Cfg (reap o (c_world c)) (c_main c)
                                (take i (c_pool c) ++ drop (S i) (c_pool c)))
          | None => None
          end
      | None => None
      end
  end.

Fixpoint sched (chs : list choice) (c : config Store) : option (config Store) :=
  match chs with
  | [] => Some c
  | ch :: chs' => match sched1 c ch with Some c' => sched chs' c' | None => None end
  end.

Lemma sched1_sound c ch c' : sched1 c ch = Some c' -> step c c'.
Proof.
  destruct c as [w m pool]; destruct ch as [|i|i]; simpl.
  - destruct (step1 server w m) as [[[w' m'] sp]|] eqn:E; intros; simplify_eq.
    by constructor.
  - destruct (pool !! i) as [t|] eqn:Ei; [|done].
    destruct (step1 server w t) as [[[w' t'] sp]|] eqn:E; intros; simplify_eq.
    rewrite <- (take_drop_middle pool i t Ei) at 1. by constructor.
  - destruct (pool !! i) as [t|] eqn:Ei; [|done].
    destruct (terminal t) eqn:E; intros; simplify_eq.
    rewrite <- (take_drop_middle pool i t Ei) at 1. by constructor.
Qed.

Lemma sched_sound chs : forall c c', sched chs c = Some c' -> steps c c'.
Proof.
  induction chs as [|ch chs IH]; simpl; intros c c' Hs.
  - simplify_eq. apply rtc_refl.
  - destruct (sched1 c ch) eqn:E; [|done].
    eapply rtc_l; [by eapply sched1_sound|]. by apply IH.
Qed.

(** The default scheduler: the running call while it can move, then the
    first detached task (reaped once finished). *)
Definition next_choice (c : config Store) : option choice :=
  match terminal (c_main c) with
  | None => Some Main
  | Some _ =>
      match c_pool c with
      | [] => None
      | t :: _ => Some (match terminal t with Some _ => Reap 0 | None => Task 0 end)
      end
  end.

Fixpoint drive (fuel : nat) (c : config Store) : config Store :=
  match fuel with
  | 0 => c
  | S n =>
      match next_choice c with
      | Some ch => match sched1 c ch with Some c' => drive n c' | None => c end
      | None => c
      end
  end.

Lemma drive_sound fuel : forall c, steps c (drive fuel c).
Proof.
  induction fuel as [|n IH]; intros c; simpl; [apply rtc_refl|].
  destruct (next_choice c) as [ch|]; [|apply rtc_refl].
  destruct (sched1 c ch) eqn:E; [|apply rtc_refl].
  eapply rtc_l; [by eapply sched1_sound|]. apply IH.
Qed.

(** A chosen prefix of the schedule, then the default scheduler. *)
Definition replay (chs : list choice) (fuel : nat) (c : config Store) : config Store :=
  match sched chs c with Some c' => drive fuel c' | None => c end.

Lemma replay_sound chs fuel c : steps c (replay chs fuel c).
Proof.
  unfold replay. destruct (sched chs c) eqn:E; [|apply rtc_refl].
  eapply rtc_trans; [by eapply sched_sound|]. apply drive_sound.
Qed.
End Pool.

(** ** Termination *)

(** [sub t' t]: [t'] is an immediate continuation or spawned task of [t]. *)
Inductive sub : prog -> prog -> Prop :=
| sub_exists a k b : sub (k b) (Exists a k)
| sub_mkdir a k : sub k (Mkdir a k)
| sub_read a k r : sub (k r) (ReadBinary a k)
| sub_write a d k r : sub (k r) (WriteBinary a d k)
| sub_request r k x : sub (k x) (RequestUrl r k)
| sub_notice m t k : sub k (ShowNotice m t k)
| sub_spawn_task t k : sub t (Spawn t k)
| sub_spawn_cont t k : sub k (Spawn t k).

Lemma sub_wf : well_founded sub.
Proof. intros p. induction p; constructor; intros q Hq; inversion Hq; subst; auto. Qed.

Section Termination.
Context {Store : Type} `{DataAdapter Store}.
Variable server : request -> string + response.

Lemma step1_sub w t w' t' sp :
  step1 server w t = Some (w', t', sp) -> Forall (fun x => sub x t) (t' :: sp).
Proof.
  destruct t; simpl; intros E; try discriminate;
    try (destruct (write_result p d w)); simplify_eq;
    repeat constructor.
Qed.

Lemma step_list_ext c c' :
  step server c c' -> list_ext _ sub (threads c') (threads c).
Proof.
  destruct 1 as [w m pool w' m' sp E|w m l1 t l2 w' t' sp E|w m l1 t l2 o E];
    unfold threads; simpl.
  - apply (list_ext_intro _ _ m (m' :: sp) [] pool). by eapply step1_sub.
  - apply (list_ext_intro _ _ t (t' :: sp) (m :: l1) l2). by eapply step1_sub.
  - apply (list_ext_intro _ _ t [] (m :: l1) l2). constructor.
Qed.

(** Every schedule of the thread pool is finite. *)
Lemma step_wf : well_founded (fun c' c => step server c c').
Proof.
  intros c.
  assert (Hacc : Acc (list_ext _ sub) (threads c)) by apply (wf_list_ext _ _ sub_wf).
  remember (threads c) as l eqn:El. revert c El.
  induction Hacc as [l _ IH]; intros c ->.
  constructor. intros c' Hs. eapply IH; [by apply step_list_ext|done].
Qed.

Lemma step1_None w t : step1 server w t = None <-> terminal t <> None.
Proof.
  destruct t; simpl; split; try congruence;
    try (destruct (write_result p d w)); congruence.
Qed.

(** A configuration that cannot step is final: no task is ever stuck. *)
Lemma progress c : final c \/ exists c', step server c c'.
Proof.
  destruct c as [w m pool].
  destruct (step1 server w m) as [[[w' m'] sp]|] eqn:Em.
  { right. eexists. by apply step_main. }
  destruct pool as [|t pool].
  - left. split; [by apply (step1_None w)|done].
  - right. destruct (terminal t) as [o|] eqn:Et.
    + eexists. apply (step_reap _ w m [] t pool o Et).
    + destruct (step1 server w t) as [[[w' t'] sp]|] eqn:E.
      * eexists. apply (step_task _ w m [] t pool w' t' sp E).
      * apply step1_None in E. contradiction.
Qed.

Lemma eventually_final c : exists c', steps server c c' /\ final c'.
Proof.
  induction c as [c IH] using (well_founded_induction step_wf).
  destruct (progress c) as [Hf|[c' Hs]].
  - exists c. split; [apply rtc_refl|done].
  - destruct (IH c' Hs) as (c'' & Hss & Hf). exists c''.
    split; [eapply rtc_l; eauto|done].
Qed.
End Termination.

(** ** Safety: writes guarded by an existence check *)

Section Safety.
Context {Store : Type} `{DataAdapterLaws Store}.
(** [P]: the protected paths. *)
Variable P : string -> Prop.

(** A task is safe when every write it can perform targets an
    unprotected path; an existence check that answers [false] proves the
    path unprotected (a protected path always exists). *)
Inductive safe : prog -> Prop :=
| safe_done : safe Done
| safe_throw e : safe (Throw e)
| safe_exists a k : (forall b, (P a -> b = true) -> safe (k b)) -> safe (Exists a k)
| safe_mkdir a k : safe k -> safe (Mkdir a k)
| safe_read a k : (forall r, safe (k r)) -> safe (ReadBinary a k)
| safe_write a d k : ~ P a -> (forall r, safe (k r)) -> safe (WriteBinary a d k)
| safe_request r k : (forall x, safe (k x)) -> safe (RequestUrl r k)
| safe_notice m t k : safe k -> safe (ShowNotice m t k)
| safe_spawn t k : safe t -> safe k -> safe (Spawn t k).

Lemma safe_then p q : safe p -> safe q -> safe (then_ p q).
Proof. induction 1; intros Hq; simpl; try constructor; auto. Qed.

Lemma safe_try_catch p h : safe p -> (forall e, safe (h e)) -> safe (try_catch p h).
Proof. induction 1; intros Hh; simpl; try constructor; auto. Qed.

Lemma safe_spawn_all ts k : Forall safe ts -> safe k -> safe (spawn_all ts k).
Proof. induction 1; simpl; auto using safe. Qed.
End Safety.

#[export] Hint Constructors safe : cc.
#[export] Hint Resolve safe_then safe_try_catch safe_spawn_all : cc.

Section SafetyInvariant.
Context {Store : Type} `{DataAdapterLaws Store}.
Variable server : request -> string + response.
(** The store before the run; its files are the protected paths. *)
Variable s0 : Store.

Definition pre_file (p : string) : Prop := exists d, readBinary s0 p = Some d.

Definition files_kept (s : Store) : Prop :=
  forall p d, readBinary s0 p = Some d -> readBinary s p = Some d.

Definition safe_inv (c : config Store) : Prop :=
  files_kept (w_store (c_world c)) /\ Forall (safe pre_file) (threads c).

Lemma step1_safe w t w' t' sp :
  files_kept (w_store w) -> safe pre_file t ->
  step1 server w t = Some (w', t', sp) ->
  files_kept (w_store w') /\ Forall (safe pre_file) (t' :: sp).
Proof.
  intros Hk Hs E. destruct Hs as [| |a k Hk'|a k Hk'|a k Hk'|a d k Hp Hk'|r k Hk'|m tm k Hk'|t k Ht Hk'];
    simpl in E; simplify_eq.
  - split; [done|]. constructor; [|done]. apply Hk'.
    intros [d Hd]. eapply read_exists, Hk, Hd.
  - split; [|by constructor]. intros q dq Hq. simpl. rewrite mkdir_read. eauto.
  - split; [done|]. by constructor.
  - unfold write_result in E. destruct (writeBinary a d (w_store w)) as [e|s'] eqn:Ew;
      simplify_eq; (split; [|by constructor]); [done|].
    intros q dq Hq. simpl. eapply write_preserves_file; [done| |by apply Hk].
    intros ->. apply Hp. by exists dq.
  - split; [done|]. by constructor.
  - split; [done|]. by constructor.
  - split; [done|]. by repeat constructor.
Qed.

Lemma safe_inv_step c c' : safe_inv c -> step server c c' -> safe_inv c'.
Proof.
  intros [Hk Hs]. unfold threads in *.
  destruct 1 as [w m pool w' m' sp E|w m l1 t l2 w' t' sp E|w m l1 t l2 o E]; simpl in *.
  - apply Forall_cons in Hs as [Hm Hp].
    destruct (step1_safe _ _ _ _ _ Hk Hm E) as [Hk' Hs'].
    apply Forall_cons in Hs' as [Hm' Hsp].
    split; [done|]. constructor; [done|]. by apply Forall_app.
  - apply Forall_cons in Hs as [Hm Hp]. apply Forall_app in Hp as [H1 H2].
    apply Forall_cons in H2 as [Ht Hl2].
    destruct (step1_safe _ _ _ _ _ Hk Ht E) as [Hk' Hs'].
    split; [done|]. constructor; [done|]. apply Forall_app; split; [done|].
    apply Forall_cons in Hs' as [Ht' Hsp]. constructor; [done|]. by apply Forall_app.
  - split; [by destruct o|].
    apply Forall_cons in Hs as [Hm Hp]. apply Forall_app in Hp as [H1 H2].
    apply Forall_cons in H2 as [_ Hl2]. constructor; [done|]. by apply Forall_app.
Qed.

Lemma safe_inv_steps c c' : safe_inv c -> steps server c c' -> safe_inv c'.
Proof. intros Hi Hs. induction Hs; eauto using safe_inv_step. Qed.
End SafetyInvariant.

(** ** Inert tasks: nothing left to do on a given store *)

Section Inert.
Context {Store : Type} `{DataAdapter Store}.
Variable server : request -> string + response.
(** The world when the tasks start. *)
Variable w0 : world Store.

(** A task is inert on the store of [w0] when, run on that store, it only
    checks paths, reads, creates folders that are already there and
    attempts writes that fail: it neither changes the store nor reaches the
    network or the user.  The answers are those of the store of [w0], which
    no inert task changes. *)
Inductive inert : prog -> Prop :=
| inert_done : inert Done
| inert_throw e : inert (Throw e)
| inert_exists a k : inert (k (exists_ (w_store w0) a)) -> inert (Exists a k)
| inert_mkdir a k : mkdir a (w_store w0) = w_store w0 -> inert k -> inert (Mkdir a k)
| inert_read a k : inert (k (read_result a w0)) -> inert (ReadBinary a k)
| inert_write a d k e :
    writeBinary a d (w_store w0) = inl e -> inert (k (inl e)) -> inert (WriteBinary a d k)
| inert_spawn t k : inert t -> inert k -> inert (Spawn t k).

Lemma inert_spawn_all ts k : Forall inert ts -> inert k -> inert (spawn_all ts k).
Proof. induction 1; intros Hk; simpl; [done|]. apply inert_spawn; auto. Qed.

(** The world agrees with [w0] but for the unhandled rejections. *)
Definition same_world (w : world Store) : Prop :=
  w_store w = w_store w0 /\ w_requests w = w_requests w0 /\ w_notices w = w_notices w0.

Lemma read_result_same a w : same_world w -> read_result a w = read_result a w0.
Proof. unfold read_result. by intros [-> _]. Qed.

Lemma step1_inert w t w' t' sp :
  same_world w -> inert t -> step1 server w t = Some (w', t', sp) ->
  same_world w' /\ Forall inert (t' :: sp).
Proof.
  intros Hw Ht E. pose proof Hw as (Hs & _).
  destruct Ht as [| |a k Hk|a k Hm Hk|a k Hk|a d k e Hwr Hk|t k Ht Hk]; simpl in E; try done.
  - simplify_eq. rewrite Hs. auto.
  - simplify_eq. rewrite Hs, Hm. split; [|by repeat constructor]. by destruct Hw as (? & ? & ?).
  - simplify_eq. rewrite read_result_same by done. auto.
  - unfold write_result in E. rewrite Hs, Hwr in E. simplify_eq. auto.
  - simplify_eq. auto.
Qed.

Definition inert_inv (c : config Store) : Prop :=
  same_world (c_world c) /\ Forall inert (threads c).

Lemma inert_inv_step c c' : inert_inv c -> step server c c' -> inert_inv c'.
Proof.
  intros [Hw Hs]. unfold threads in *.
  destruct 1 as [w m pool w' m' sp E|w m l1 t l2 w' t' sp E|w m l1 t l2 o E]; simpl in *.
  - apply Forall_cons in Hs as [Hm Hp].
    destruct (step1_inert _ _ _ _ _ Hw Hm E) as [Hw' Hs'].
    apply Forall_cons in Hs' as [Hm' Hsp].
    split; [done|]. constructor; [done|]. by apply Forall_app.
  - apply Forall_cons in Hs as [Hm Hp]. apply Forall_app in Hp as [H1 H2].
    apply Forall_cons in H2 as [Ht Hl2].
    destruct (step1_inert _ _ _ _ _ Hw Ht E) as [Hw' Hs'].
    split; [done|]. constructor; [done|]. apply Forall_app; split; [done|].
    apply Forall_cons in Hs' as [Ht' Hsp]. constructor; [done|]. by apply Forall_app.
  - split; [by destruct o|].
    apply Forall_cons in Hs as [Hm Hp]. apply Forall_app in Hp as [H1 H2].
    apply Forall_cons in H2 as [_ Hl2]. constructor; [done|]. by apply Forall_app.
Qed.

Lemma inert_inv_steps c c' : inert_inv c -> steps server c c' -> inert_inv c'.
Proof. intros Hi Hs. induction Hs; eauto using inert_inv_step. Qed.
End Inert.

#[export] Hint Constructors inert : cc.
