(* ===== verification/Progress.v ===== *)
(** * Progress of detached tasks under interference

    A rely-guarantee argument over the thread pool [step] of Async.v, for
    properties of the form "once every task has finished, the store has
    [Goal]".  Every task [guar]antees that it writes only pairs of
    [WriteOK] and creates only folders of [FolderOK]; so every store of
    the run keeps the shape [Good], and a store only ever changes by
    [Rely] (the [Rely]-stable facts, such as "this path holds these
    bytes", once true stay true).  A task under an [obl]igation either
    establishes [Goal] itself or hands the duty to a task it spawns; [fin]
    is the Hoare triple of a task that completes normally from a stable
    precondition, whatever the other tasks do in between.  [prog_inv] is
    the invariant of the whole configuration: every task guarantees, and
    [Goal] holds or some task carries the obligation.  At a final
    configuration no task is left, so [Goal] holds ([steps_final_goal]). *)

From S2P Require Import Prelude Vault Async.

Section Progress.
Context {Store : Type} `{DataAdapterLaws Store}.
Variable server : request -> string + response.
Variable Good : Store -> Prop.
Variable Rely : Store -> Store -> Prop.
Variable WriteOK : string -> bytes -> Prop.
Variable FolderOK : string -> Prop.
Context `{!PreOrder Rely}.
Hypothesis write_guar : forall s s' a d,
  Good s -> WriteOK a d -> writeBinary a d s = inr s' -> Good s' /\ Rely s s'.
Hypothesis mkdir_guar : forall s a, Good s -> FolderOK a -> Good (mkdir a s) /\ Rely s (mkdir a s).
Hypothesis exists_stable : forall s s' a, Rely s s' -> exists_ s a = true -> exists_ s' a = true.
Hypothesis read_stable : forall s s' a d,
  Rely s s' -> readBinary s a = Some d -> readBinary s' a = Some d.

Definition stable (P : Store -> Prop) : Prop := forall s s', Rely s s' -> P s -> P s'.

(** The answer of [readBinary] on a store. *)
Definition read_of (s : Store) (a : string) : string + bytes := read_result a (init_world s).

(** The guarantee of a task. *)
Inductive guar : prog -> Prop :=
| guar_done : guar Done
| guar_throw e : guar (Throw e)
| guar_exists a k : (forall b, guar (k b)) -> guar (Exists a k)
| guar_mkdir a k : FolderOK a -> guar k -> guar (Mkdir a k)
| guar_read a k : (forall s, Good s -> guar (k (read_of s a))) -> guar (ReadBinary a k)
| guar_write a d k : WriteOK a d -> (forall r, guar (k r)) -> guar (WriteBinary a d k)
| guar_request r k : guar (k (server r)) -> guar (RequestUrl r k)
| guar_notice m t k : guar k -> guar (ShowNotice m t k)
| guar_spawn t k : guar t -> guar k -> guar (Spawn t k).

Lemma guar_spawn_all ts k : Forall guar ts -> guar k -> guar (spawn_all ts k).
Proof. induction 1; intros Hk; simpl; [done|]. apply guar_spawn; auto. Qed.

Lemma guar_then p q : guar p -> guar q -> guar (then_ p q).
Proof. induction 1; intros Hq; simpl; try constructor; auto. Qed.

Lemma guar_try_catch p h : guar p -> (forall e, guar (h e)) -> guar (try_catch p h).
Proof. induction 1; intros Hh; simpl; try constructor; auto. Qed.

(** The fact an existence check that answered [b] leaves. *)
Definition exists_fact (a : string) (b : bool) (s : Store) : Prop := b = true -> exists_ s a = true.

(** [fin P p Q]: from a store of [P], [p] completes normally, in a store
    of [Q], whatever the other tasks do between its steps. *)
Inductive fin : (Store -> Prop) -> prog -> (Store -> Prop) -> Prop :=
| fin_done (P Q : Store -> Prop) : (forall s, Good s -> P s -> Q s) -> fin P Done Q
| fin_exists P a k Q :
    (forall b, (b = false -> exists s, Good s /\ P s /\ exists_ s a = false) ->
       fin (fun s => P s /\ exists_fact a b s) (k b) Q) ->
    fin P (Exists a k) Q
| fin_mkdir P a k Q : fin (fun s => P s /\ exists_ s a = true) k Q -> fin P (Mkdir a k) Q
| fin_read P a k Q :
    (forall s, Good s -> P s -> fin P (k (read_of s a)) Q) -> fin P (ReadBinary a k) Q
| fin_write P a d k Q :
    (forall s, Good s -> P s -> exists s', writeBinary a d s = inr s') ->
    fin (fun s => P s /\ readBinary s a = Some d) (k (inr tt)) Q -> fin P (WriteBinary a d k) Q
| fin_request P r k Q : fin P (k (server r)) Q -> fin P (RequestUrl r k) Q
| fin_notice P m t k Q : fin P k Q -> fin P (ShowNotice m t k) Q
| fin_spawn P t k Q : fin P k Q -> fin P (Spawn t k) Q.

Lemma fin_weaken P P' p Q :
  (forall s, Good s -> P' s -> P s) -> fin P p Q -> fin P' p Q.
Proof.
  intros HP Hf. revert P' HP.
  induction Hf as [P Q HQ|P a k Q Hk IH|P a k Q Hk IH|P a k Q Hk IH|P a d k Q Hw Hk IH
                  |P r k Q Hk IH|P m t k Q Hk IH|P t k Q Hk IH]; intros P' HP.
  - constructor. eauto.
  - constructor. intros b Hb. apply IH.
    + intros Hf. destruct (Hb Hf) as (s & Hs & HPs & Hx). eauto.
    + intros s Hs [HPs Hf]. eauto.
  - constructor. apply IH. intros s Hs [HPs Hx]. eauto.
  - constructor. intros s Hs HPs. apply IH; eauto.
  - constructor; [eauto|]. apply IH. intros s Hs [HPs Hr]. eauto.
  - constructor. by apply IH.
  - constructor. by apply IH.
  - constructor. by apply IH.
Qed.

Lemma fin_then P p Q q R : fin P p Q -> fin Q q R -> fin P (then_ p q) R.
Proof.
  intros Hp. revert q R.
  induction Hp as [P Q HQ|P a k Q Hk IH|P a k Q Hk IH|P a k Q Hk IH|P a d k Q Hw Hk IH
                  |P r k Q Hk IH|P m t k Q Hk IH|P t k Q Hk IH]; intros q R Hq; simpl.
  - by apply (fin_weaken Q).
  - constructor. auto.
  - constructor. auto.
  - constructor. auto.
  - constructor; auto.
  - constructor. auto.
  - constructor. auto.
  - constructor. auto.
Qed.

Lemma fin_try_catch P p Q h : fin P p Q -> fin P (try_catch p h) Q.
Proof. induction 1; simpl; constructor; auto. Qed.

Section Obligation.
(** The property every task together must establish. *)
Variable Goal : Store -> Prop.

(** [obl P t]: from a store of [P], [t] establishes [Goal] or spawns a
    task that does. *)
Inductive obl : (Store -> Prop) -> prog -> Prop :=
| obl_goal P t : (forall s, Good s -> P s -> Goal s) -> obl P t
| obl_exists P a k :
    (forall b, (b = false -> exists s, Good s /\ P s /\ exists_ s a = false) ->
       obl (fun s => P s /\ exists_fact a b s) (k b)) ->
    obl P (Exists a k)
| obl_mkdir P a k : obl (fun s => P s /\ exists_ s a = true) k -> obl P (Mkdir a k)
| obl_read P a k : (forall s, Good s -> P s -> obl P (k (read_of s a))) -> obl P (ReadBinary a k)
| obl_write P a d k :
    (forall s, Good s -> P s -> exists s', writeBinary a d s = inr s') ->
    obl (fun s => P s /\ readBinary s a = Some d) (k (inr tt)) -> obl P (WriteBinary a d k)
| obl_request P r k : obl P (k (server r)) -> obl P (RequestUrl r k)
| obl_notice P m t k : obl P k -> obl P (ShowNotice m t k)
| obl_spawn_task P t k : obl P t -> obl P (Spawn t k)
| obl_spawn_cont P t k : obl P k -> obl P (Spawn t k).

Lemma obl_weaken P P' t :
  (forall s, Good s -> P' s -> P s) -> obl P t -> obl P' t.
Proof.
  intros HP Ho. revert P' HP.
  induction Ho as [P t HG|P a k Hk IH|P a k Hk IH|P a k Hk IH|P a d k Hw Hk IH
                  |P r k Hk IH|P m t k Hk IH|P t k Hk IH|P t k Hk IH]; intros P' HP.
  - apply obl_goal. eauto.
  - apply obl_exists. intros b Hb. apply IH.
    + intros Hf. destruct (Hb Hf) as (s & Hs & HPs & Hx). eauto.
    + intros s Hs [HPs Hf]. eauto.
  - apply obl_mkdir. apply IH. intros s Hs [HPs Hx]. eauto.
  - apply obl_read. intros s Hs HPs. apply IH; eauto.
  - apply obl_write; [eauto|]. apply IH. intros s Hs [HPs Hr]. eauto.
  - apply obl_request. by apply IH.
  - apply obl_notice. by apply IH.
  - apply obl_spawn_task. by apply IH.
  - apply obl_spawn_cont. by apply IH.
Qed.

Lemma obl_then P p Q q : fin P p Q -> obl Q q -> obl P (then_ p q).
Proof.
  intros Hp. revert q.
  induction Hp as [P Q HQ|P a k Q Hk IH|P a k Q Hk IH|P a k Q Hk IH|P a d k Q Hw Hk IH
                  |P r k Q Hk IH|P m t k Q Hk IH|P t k Q Hk IH]; intros q Hq; simpl.
  - by apply (obl_weaken Q).
  - apply obl_exists. auto.
  - apply obl_mkdir. auto.
  - apply obl_read. auto.
  - apply obl_write; auto.
  - apply obl_request. auto.
  - apply obl_notice. auto.
  - apply obl_spawn_cont. auto.
Qed.

Lemma obl_spawn_all_cont P ts k : obl P k -> obl P (spawn_all ts k).
Proof. intros Hk. induction ts as [|t ts IH]; simpl; [done|]. by apply obl_spawn_cont. Qed.

Lemma obl_spawn_all P ts t k : t ∈ ts -> obl P t -> obl P (spawn_all ts k).
Proof.
  intros Ht Ho. induction ts as [|t' ts IH]; [by apply elem_of_nil in Ht|].
  apply elem_of_cons in Ht as [->|Ht]; simpl; [by apply obl_spawn_task|].
  apply obl_spawn_cont. auto.
Qed.
End Obligation.

Lemma stable_and P Q : stable P -> stable Q -> stable (fun s => P s /\ Q s).
Proof. intros HP HQ s s' Hr [Hp Hq]. split; [exact (HP _ _ Hr Hp)|exact (HQ _ _ Hr Hq)]. Qed.

Lemma exists_fact_stable a b : stable (exists_fact a b).
Proof. intros s s' Hr Hf Hb. by apply (exists_stable s s' a Hr), Hf. Qed.

Lemma exists_true_stable a : stable (fun s => exists_ s a = true).
Proof. intros s s'. apply exists_stable. Qed.

Lemma read_fact_stable a d : stable (fun s => readBinary s a = Some d).
Proof. intros s s'. apply read_stable. Qed.

#[local] Hint Resolve stable_and exists_fact_stable exists_true_stable read_fact_stable : core.

(** One step of a guaranteeing task keeps the shape, changes the store by
    [Rely] and leaves guaranteeing tasks. *)
Lemma step1_guar w t w' t' sp :
  Good (w_store w) -> guar t -> step1 server w t = Some (w', t', sp) ->
  Good (w_store w') /\ Rely (w_store w) (w_store w') /\ Forall guar (t' :: sp).
Proof.
  intros Hg Ht E.
  destruct Ht as [| |a k Hk|a k Ha Hk|a k Hk|a d k Ha Hk|r k Hk|m tm k Hk|t k Ht Hk];
    simpl in E; try done.
  - simplify_eq. split; [done|]. split; [reflexivity|]. by repeat constructor.
  - simplify_eq. destruct (mkdir_guar _ _ Hg Ha). by repeat constructor.
  - simplify_eq. split; [done|]. split; [reflexivity|]. repeat constructor. by apply Hk.
  - unfold write_result in E. destruct (writeBinary a d (w_store w)) as [e|s'] eqn:Hw;
      simplify_eq.
    + split; [done|]. split; [reflexivity|]. by repeat constructor.
    + destruct (write_guar _ _ _ _ Hg Ha Hw). by repeat constructor.
  - simplify_eq. split; [done|]. split; [reflexivity|]. by repeat constructor.
  - simplify_eq. split; [done|]. split; [reflexivity|]. by repeat constructor.
  - simplify_eq. split; [done|]. split; [reflexivity|]. by repeat constructor.
Qed.

(** The shape and the guarantees alone: every schedule keeps them. *)
Definition guar_inv (c : config Store) : Prop :=
  Good (w_store (c_world c)) /\ Forall guar (threads c).

Lemma guar_inv_step c c' : guar_inv c -> step server c c' -> guar_inv c'.
Proof.
  intros [Hg Hs] Hst. unfold guar_inv, threads in *.
  destruct Hst as [w m pool w' m' sp E|w m l1 t l2 w' t' sp E|w m l1 t l2 o E]; simpl in *.
  - apply Forall_cons in Hs as [Hm Hp].
    destruct (step1_guar _ _ _ _ _ Hg Hm E) as (Hg' & _ & Hs').
    apply Forall_cons in Hs' as [Hm' Hsp].
    split; [done|]. constructor; [done|by apply Forall_app].
  - apply Forall_cons in Hs as [Hm Hp]. apply Forall_app in Hp as [H1 H2].
    apply Forall_cons in H2 as [Ht Hl2].
    destruct (step1_guar _ _ _ _ _ Hg Ht E) as (Hg' & _ & Hs').
    apply Forall_cons in Hs' as [Ht' Hsp].
    split; [done|]. constructor; [done|]. apply Forall_app. split; [done|].
    constructor; [done|]. by apply Forall_app.
  - apply Forall_cons in Hs as [Hm Hp]. apply Forall_app in Hp as [H1 H2].
    apply Forall_cons in H2 as [_ Hl2].
    split; [by destruct o|]. constructor; [done|by apply Forall_app].
Qed.

Lemma guar_inv_steps c c' : guar_inv c -> steps server c c' -> guar_inv c'.
Proof. intros Hi Hs. induction Hs; eauto using guar_inv_step. Qed.

Section Configurations.
Variable Goal : Store -> Prop.
Hypothesis goal_stable : stable Goal.

(** One step of the task under the obligation: [Goal] holds, or the task
    or one it spawned carries the obligation on. *)
Lemma obl_step P w t w' t' sp :
  stable P -> P (w_store w) -> Good (w_store w) -> guar t -> obl Goal P t ->
  step1 server w t = Some (w', t', sp) ->
  Goal (w_store w') \/
  exists P', stable P' /\ P' (w_store w') /\ (obl Goal P' t' \/ exists u, u ∈ sp /\ obl Goal P' u).
Proof.
  intros HsP HP Hg Ht Ho E. destruct (step1_guar _ _ _ _ _ Hg Ht E) as (Hg' & Hr & _).
  destruct Ho as [P t HG|P a k Hk|P a k Hk|P a k Hk|P a d k Hw Hk|P r k Hk|P m tm k Hk
                 |P t0 k Hk|P t0 k Hk]; [left; eauto| | | | | | | |]; simpl in E.
  - injection E as <- <- <-. right. exists (fun s => P s /\ exists_fact a (exists_ (w_store w) a) s).
    split; [auto|]. split; [split; [exact HP|intros Hx; exact Hx]|left].
    apply Hk. intros Hb. eauto.
  - injection E as <- <- <-. right. exists (fun s => P s /\ exists_ s a = true).
    split; [auto|]. split; [split; [exact (HsP _ _ Hr HP)|apply mkdir_exists]|left; exact Hk].
  - injection E as <- <- <-. right. exists P. split; [done|]. split; [done|]. left. by apply Hk.
  - destruct (Hw _ Hg HP) as [s' Hs']. unfold write_result in E. rewrite Hs' in E. injection E as <- <- <-.
    right. exists (fun s => P s /\ readBinary s a = Some d).
    split; [auto|]. split; [split; [exact (HsP _ _ Hr HP)|by eapply write_read]|left; exact Hk].
  - injection E as <- <- <-. right. exists P. split; [done|]. split; [done|]. by left.
  - injection E as <- <- <-. right. exists P. split; [done|]. split; [done|]. by left.
  - injection E as <- <- <-. right. exists P. split; [done|]. split; [done|]. right.
    exists t0. split; [apply list_elem_of_singleton|]; done.
  - injection E as <- <- <-. right. exists P. split; [done|]. split; [done|]. by left.
Qed.

Lemma obl_terminal P t o s : obl Goal P t -> terminal t = Some o -> Good s -> P s -> Goal s.
Proof. intros Ho Ht. destruct Ho; simpl in Ht; try discriminate. eauto. Qed.

(** Every task guarantees, and [Goal] holds or a task carries the
    obligation. *)
Definition prog_inv (c : config Store) : Prop :=
  Good (w_store (c_world c)) /\ Forall guar (threads c) /\
  (Goal (w_store (c_world c)) \/
   exists P t, stable P /\ P (w_store (c_world c)) /\ t ∈ threads c /\ obl Goal P t).

(** The task under the obligation took a step: the obligation moves to the
    task or to one it spawned, both in [ts']. *)
Lemma obl_moves P w t w' t' sp (ts' : list prog) :
  stable P -> P (w_store w) -> Good (w_store w) -> guar t -> obl Goal P t ->
  step1 server w t = Some (w', t', sp) -> t' ∈ ts' -> (forall u, u ∈ sp -> u ∈ ts') ->
  Goal (w_store w') \/
  exists P u, stable P /\ P (w_store w') /\ u ∈ ts' /\ obl Goal P u.
Proof.
  intros HsP HP Hg Ht Ho E Ht' Hsp.
  destruct (obl_step P w t w' t' sp HsP HP Hg Ht Ho E)
    as [HG|(P' & HsP' & HP' & [Ho'|(u & Hu & Ho')])]; [by left| |]; right; eauto 10.
Qed.

Lemma prog_inv_step c c' : prog_inv c -> step server c c' -> prog_inv c'.
Proof.
  intros (Hg & Hs & Hgoal) Hst.
  destruct (guar_inv_step c c' (conj Hg Hs) Hst) as [Hg'' Hs''].
  split; [done|]. split; [done|]. unfold threads in *.
  destruct Hst as [w m pool w' m' sp E|w m l1 t l2 w' t' sp E|w m l1 t l2 o E]; simpl in *.
  - apply Forall_cons in Hs as [Hm Hp].
    destruct (step1_guar _ _ _ _ _ Hg Hm E) as (_ & Hr & _).
    destruct Hgoal as [HG|(P & u & HsP & HP & Hu & Ho)]; [left; by eapply goal_stable|].
    apply elem_of_cons in Hu as [->|Hu].
    + apply (obl_moves P w m w' m' sp (m' :: sp ++ pool)); try done; (set_unfold; intuition).
    + right. exists P, u. split; [done|]. split; [by eapply HsP|]. split; [(set_unfold; intuition)|done].
  - apply Forall_cons in Hs as [Hm Hp]. apply Forall_app in Hp as [H1 H2].
    apply Forall_cons in H2 as [Ht Hl2].
    destruct (step1_guar _ _ _ _ _ Hg Ht E) as (_ & Hr & _).
    destruct Hgoal as [HG|(P & u & HsP & HP & Hu & Ho)]; [left; by eapply goal_stable|].
    assert (Hu' : u = t \/ u ∈ m :: l1 ++ l2) by (set_unfold; intuition). destruct Hu' as [->|Hu'].
    + apply (obl_moves P w t w' t' sp (m :: l1 ++ t' :: sp ++ l2)); try done; (set_unfold; intuition).
    + right. exists P, u. split; [done|]. split; [by eapply HsP|]. split; [(set_unfold; intuition)|done].
  - assert (Hw : w_store (reap o w) = w_store w) by (by destruct o). rewrite Hw.
    destruct Hgoal as [HG|(P & u & HsP & HP & Hu & Ho)]; [by left|].
    assert (Hu' : u = t \/ u ∈ m :: l1 ++ l2) by (set_unfold; intuition). destruct Hu' as [->|Hu'].
    + left. by eapply obl_terminal.
    + right. exists P, u. auto.
Qed.

Lemma prog_inv_steps c c' : prog_inv c -> steps server c c' -> prog_inv c'.
Proof. intros Hi Hs. induction Hs; eauto using prog_inv_step. Qed.

(** Once every task has finished, [Goal] holds. *)
Lemma steps_final_goal c c' :
  prog_inv c -> steps server c c' -> final c' -> Goal (w_store (c_world c')).
Proof.
  intros Hi Hs [Hm Hp]. destruct (prog_inv_steps c c' Hi Hs) as (Hg & _ & [HG|(P & t & _ & HP & Ht & Ho)]);
    [done|].
  unfold threads in Ht. rewrite Hp in Ht. apply list_elem_of_singleton in Ht as ->.
  destruct (terminal (c_main c')) eqn:Et; [|done]. by eapply obl_terminal.
Qed.
End Configurations.
End Progress.
