(* ===== verification/FetchHelper.v ===== *)
(** * The resource acquisition pipeline: src/src/fetchHelper.ts

    [FetchHelper] of fetchHelper.ts, method by method, as programs of
    Async.v: [checkOrCreateFolder], [unzip] (with its per-file task
    [extractFile]), [fetchAsset] (with the resolver [find_asset]),
    [download] and [checkOrDownload].  The environment of the class
    ([this.app.vault.configDir], obsidian's [normalizePath], the plugin
    version, the zip.js reader) is the record [env].

    The theorems are of three kinds: the resolver and the awaited reading
    of the pipeline ([run]), functional on every branch; the refinement of
    [unzip] into the extraction algorithm of the spec ([extract_spec]);
    and facts of every interleaving of the un-awaited tasks ([step]). *)

From S2P Require Import Prelude Vault Async.

(** [ZipEntry] of typings/zip.d.ts: [getData] is optional, and its promise
    may reject (a damaged entry). *)
Record ZipEntry := {
  filename : string;
  directory : bool;
  getData : option (string + bytes);
}.

(** What the class reads from its surroundings. *)
Record env := {
  configDir : string;                       (** [this.app.vault.configDir] *)
  normalizePath : string -> string;         (** obsidian's [normalizePath] *)
  plugin_version : option string;           (** [getPlugin('click-clack')?.manifest.version] *)
  getEntries : bytes -> string + list ZipEntry;  (** [new ZipReader(..).getEntries()] *)
}.

Local Open Scope cc_scope.

Section Programs.
Variable E : env.

(** [normalizePath([configDir, 'plugins', 'click-clack', 'resources'].join('/'))] *)
Definition basePath : string :=
  normalizePath E (js_join "/" [configDir E; "plugins"; "click-clack"; "resources"]).

(** [normalizePath([configDir, 'plugins', 'click-clack', 'resources.zip'].join('/'))] *)
Definition zipPath : string :=
  normalizePath E (js_join "/" [configDir E; "plugins"; "click-clack"; "resources.zip"]).

(** [checkOrCreateFolder = async (name) => { if (await exists(name)) return;
    await mkdir(name); }] *)
Definition checkOrCreateFolder (name : string) : prog :=
  Exists name (fun b => if b then Done else Mkdir name Done).

(** The body of [files.forEach(async (e) => {..})] in [unzip]. *)
Definition extractFile (base : string) (e : ZipEntry) : prog :=
  Exists (base </> filename e) (fun b =>
    if b then Done else
    match getData e with
    | None => Done
    | Some (inl err) => Throw err
    | Some (inr d) => await_write (base </> filename e) d Done
    end).

(** [unzip = async (zipFile) => {..}]: read, parse, then detached tasks for
    the root folder, the directory entries and the file entries. *)
Definition unzip (zipFile : string) : prog :=
  await_read zipFile (fun blob =>
    match getEntries E blob with
    | inl err => Throw err
    | inr entries =>
        Spawn (checkOrCreateFolder basePath)
          (spawn_all (map (fun e => checkOrCreateFolder (basePath </> filename e))
                          (List.filter directory entries))
            (spawn_all (map (extractFile basePath)
                            (List.filter (fun e => negb (directory e)) entries))
               Done))
    end).

(** The release tag endpoint of [fetchAsset]. *)
Definition release_url : string :=
  "https://api.github.com/repos/acylation/obsidian-click-clack/releases/tags/" +:+
  default "0.1.0" (plugin_version E).

(** [assetInfo.assets.find((a) => a.name == target)] *)
Definition find_asset (target : string) (assets : list githubAsset) : option githubAsset :=
  find (fun a => String.eqb (asset_name a) target) assets.

(** [undefined.find(..)] when the JSON has no [assets] field. *)
Definition err_no_assets : string :=
  "TypeError: Cannot read properties of undefined (reading 'find')".

Definition asset_request (asset : githubAsset) : request :=
  {| req_url := asset_url asset;
     req_headers := [("Accept", "application/octet-stream")] |}.

Definition release_request : request := {| req_url := release_url; req_headers := [] |}.

Definition fetchAsset (target localPath : string) : prog :=
  await_request release_request (fun response =>
    match resp_assets response with
    | None => Throw err_no_assets
    | Some assets =>
        match find_asset target assets with
        | None => Throw "Error: Could not find the online asset!"
        | Some asset =>
            await_request (asset_request asset) (fun dataResponse =>
              await_write localPath (resp_body dataResponse) Done)
        end
    end).

Definition notice_start (name : string) : string :=
  "Click Clack: Downloading " +:+ name +:+ "!".
Definition notice_success (name : string) : string :=
  "Click Clack: Resource " +:+ name +:+ " successfully downloaded! ✔️".
Definition notice_failure (name error : string) : string :=
  "Click Clack: Failed to fetch " +:+ name +:+ ": " +:+ error +:+ " ❌".
Definition download_error (name : string) : string :=
  "Error: Failed to fetch resource " +:+ name +:+ " from GitHub release.".

Definition download (name localPath : string) : prog :=
  ShowNotice (notice_start name) (Some 5000)
    (try_catch
       (then_ (fetchAsset name localPath)
              (ShowNotice (notice_success name) (Some 5000) Done))
       (fun error =>
          ShowNotice (notice_failure name error) None
            (Throw (download_error name)))).

(** [checkOrDownload]: the folder check and both [unzip] calls are not
    awaited; [download] is. *)
Definition checkOrDownload : prog :=
  Spawn (checkOrCreateFolder basePath)
    (Exists zipPath (fun b =>
       if b then Spawn (unzip zipPath) Done
       else then_ (download "resources.zip" zipPath) (Spawn (unzip zipPath) Done))).
End Programs.

(** ** The resolver *)

(** C6. The resolver returns an asset whose name is exactly the target, and
    it is the first such asset of the manifest: every asset before it has
    another name. *)
Theorem find_asset_first_exact target assets a :
  find_asset target assets = Some a ->
  asset_name a = target /\
  exists pre post, assets = pre ++ a :: post /\
                   Forall (fun b => asset_name b <> target) pre.
Proof.
  intros (pre & post & -> & Ha & Hpre)%find_first.
  split; [by apply String.eqb_eq|].
  exists pre, post. split; [done|].
  eapply Forall_impl; [exact Hpre|]. intros b Hb Heq. simpl in Hb. by rewrite Heq, String.eqb_refl in Hb.
Qed.

Lemma find_asset_None_iff target assets :
  find_asset target assets = None <-> Forall (fun b => asset_name b <> target) assets.
Proof.
  unfold find_asset. rewrite find_None_iff. split; intros H; eapply Forall_impl; eauto.
  - intros b Hb Heq. simpl in Hb. by rewrite Heq, String.eqb_refl in Hb.
  - intros b Hb. by apply String.eqb_neq.
Qed.

(** ** The awaited reading *)

Section AwaitedRuns.
Context {Store : Type} `{DataAdapterLaws Store}.
Variable server : request -> string + response.
Variable E : env.

(** C12. If the manifest has no asset of the target name, [fetchAsset]
    rejects with "Error: Could not find the online asset!" after the single
    metadata request: no download request, no write. *)
Theorem fetchAsset_not_found target localPath w resp assets :
  server (release_request E) = inr resp ->
  resp_assets resp = Some assets ->
  find_asset target assets = None ->
  run server (fetchAsset E target localPath) w =
    (add_request (release_request E) w, Rejected "Error: Could not find the online asset!").
Proof. intros Hs Ha Hf. simpl. by rewrite Hs; simpl; rewrite Ha, Hf. Qed.

(** A successful fetch: two requests, the asset bytes written verbatim. *)
Lemma fetchAsset_ok target localPath w resp assets asset dr s' :
  server (release_request E) = inr resp ->
  resp_assets resp = Some assets ->
  find_asset target assets = Some asset ->
  server (asset_request asset) = inr dr ->
  writeBinary localPath (resp_body dr) (w_store w) = inr s' ->
  run server (fetchAsset E target localPath) w =
    (set_store s' (add_request (asset_request asset) (add_request (release_request E) w)),
     Finished).
Proof.
  intros Hs Ha Hf Hd Hw. simpl. rewrite Hs; simpl. rewrite Ha, Hf; simpl.
  rewrite Hd; simpl. unfold write_result. simpl. by rewrite Hw.
Qed.

(** [download] on both branches: a start notice; then either the
    success notice, or the failure notice carrying the error and the
    wrapped rejection naming the asset. *)
Lemma run_download name localPath w :
  run server (download E name localPath) w =
    let w0 := add_notice (notice_start name) (Some 5000) w in
    match run server (fetchAsset E name localPath) w0 with
    | (w1, Finished) => (add_notice (notice_success name) (Some 5000) w1, Finished)
    | (w1, Rejected e) =>
        (add_notice (notice_failure name e) None w1, Rejected (download_error name))
    end.
Proof.
  unfold download. rewrite run_notice, run_try_catch, run_then.
  by destruct (run server (fetchAsset E name localPath) _) as [w1 []].
Qed.

(** C13. Every rejection of [download] is the wrapped error naming the
    asset, and it comes right after a failure notice that carries the
    original error: [fetchAsset], run after the start notice, rejected
    with exactly the error [e0] the failure notice shows, and nothing
    happened between that rejection and the notice.  No error of
    [fetchAsset] escapes unwrapped or unannounced. *)
Theorem download_rejects_wrapped name localPath (w w' : world Store) (e : string) :
  run server (download E name localPath) w = (w', Rejected e) ->
  e = download_error name /\
  exists e0 w1,
    run server (fetchAsset E name localPath) (add_notice (notice_start name) (Some 5000) w)
      = (w1, Rejected e0) /\
    w' = add_notice (notice_failure name e0) None w1.
Proof.
  rewrite run_download. cbv zeta.
  destruct (run server (fetchAsset E name localPath)
              (add_notice (notice_start name) (Some 5000) w)) as [w1 [|e0]] eqn:Ef; [done|].
  intros [= <- <-]. eauto.
Qed.

(** *** The extraction algorithm of the spec (section 4.1), on worlds *)

(** Idempotent folder creation. *)
Definition ensure_folder (w : world Store) (p : string) : world Store :=
  if exists_ (w_store w) p then w else set_store (mkdir p (w_store w)) w.

(** One file entry: skipped when the destination exists or the entry has
    no data; otherwise its bytes are written; an error is recorded. *)
Definition extract_entry (base : string) (w : world Store) (e : ZipEntry) : world Store :=
  if exists_ (w_store w) (base </> filename e) then w else
  match getData e with
  | None => w
  | Some (inl err) => reap (Rejected err) w
  | Some (inr d) =>
      let '(w', r) := write_result (base </> filename e) d w in
      match r with inl err => reap (Rejected err) w' | inr _ => w' end
  end.

(** Root folder, then every directory entry, then every file entry. *)
Definition extract_spec (base : string) (entries : list ZipEntry) (w : world Store)
    : world Store :=
  fold_left (extract_entry base) (List.filter (fun e => negb (directory e)) entries)
    (fold_left (fun w e => ensure_folder w (base </> filename e))
               (List.filter directory entries) (ensure_folder w base)).

Lemma run_checkOrCreateFolder p w :
  run server (checkOrCreateFolder p) w = (ensure_folder w p, Finished).
Proof. unfold checkOrCreateFolder, ensure_folder. simpl. by destruct (exists_ _ p). Qed.

Lemma run_extractFile base e w :
  (let '(w1, o) := run server (extractFile base e) w in reap o w1) = extract_entry base w e.
Proof.
  unfold extractFile, extract_entry. simpl. destruct (exists_ _ _); [done|].
  destruct (getData e) as [[err|d]|]; simpl; try done.
  by destruct (write_result _ d w) as [w' [err|[]]].
Qed.

(** Read in the awaited way, [unzip] of a readable, well formed archive
    performs exactly the extraction algorithm of the spec, and reports
    success whatever the per-file errors (which end up as unhandled
    rejections). *)
Lemma unzip_refines_extract zipFile w blob entries :
  read_result zipFile w = inr blob ->
  getEntries E blob = inr entries ->
  run server (unzip E zipFile) w = (extract_spec (basePath E) entries w, Finished).
Proof.
  intros Hr He. unfold unzip, await_read. cbn [run]. rewrite Hr, He. cbn [run].
  rewrite run_checkOrCreateFolder. simpl reap. rewrite !run_spawn_all.
  unfold extract_spec. f_equal.
  rewrite (fold_left_map_ext _ _ (extract_entry (basePath E)));
    [|intros; apply run_extractFile].
  rewrite (fold_left_map_ext _ _ (fun w e => ensure_folder w (basePath E </> filename e)));
    [done|]. intros. by rewrite run_checkOrCreateFolder.
Qed.
End AwaitedRuns.

Lemma checkOrCreateFolder_offline p : offline (checkOrCreateFolder p).
Proof. constructor. intros []; auto with cc. Qed.

Lemma extractFile_offline base e : offline (extractFile base e).
Proof.
  constructor. intros b. destruct b, (getData e) as [[]|]; repeat constructor.
  all: intros []; constructor.
Qed.

Lemma unzip_offline E zipFile : offline (unzip E zipFile).
Proof.
  constructor. intros [err|blob]; [constructor|]. simpl.
  destruct (getEntries E blob) as [err|entries]; [constructor|].
  constructor; [apply checkOrCreateFolder_offline|].
  apply offline_spawn_all;
    [apply List.Forall_map, List.Forall_forall; intros e _; apply checkOrCreateFolder_offline|].
  apply offline_spawn_all; [|constructor]. apply List.Forall_map, List.Forall_forall.
  intros e _. apply extractFile_offline.
Qed.

Section PipelineRuns.
Context {Store : Type} `{DataAdapterLaws Store}.
Variable server : request -> string + response.
Variable E : env.
(** The archive and the resource folder are different paths (true of the
    two literal paths whenever [normalizePath] is injective). *)
Hypothesis zip_ne_base : zipPath E <> basePath E.

Lemma ensure_folder_exists_other w p q :
  q <> p -> exists_ (w_store (ensure_folder w p)) q = exists_ (w_store w) q.
Proof.
  intros Hne. unfold ensure_folder. destruct (exists_ _ p); [done|].
  by apply mkdir_exists_other.
Qed.

Lemma ensure_folder_read w p q :
  readBinary (w_store (ensure_folder w p)) q = readBinary (w_store w) q.
Proof. unfold ensure_folder. destruct (exists_ _ p); [done|]. apply mkdir_read. Qed.

(** The two branches of [checkOrDownload], read in the awaited way. *)
Lemma run_checkOrDownload w :
  run server (checkOrDownload E) w =
  let w1 := ensure_folder w (basePath E) in
  if exists_ (w_store w) (zipPath E) then
    let '(w2, o) := run server (unzip E (zipPath E)) w1 in (reap o w2, Finished)
  else
    match run server (download E "resources.zip" (zipPath E)) w1 with
    | (w2, Finished) =>
        let '(w3, o) := run server (unzip E (zipPath E)) w2 in (reap o w3, Finished)
    | (w2, Rejected e) => (w2, Rejected e)
    end.
Proof.
  unfold checkOrDownload. cbn [run]. rewrite run_checkOrCreateFolder. simpl reap.
  rewrite ensure_folder_exists_other by done.
  destruct (exists_ (w_store w) (zipPath E)); cbn [run].
  - by destruct (run server (unzip E (zipPath E)) _).
  - rewrite run_then. destruct (run server (download E _ _) _) as [w2 [|e]]; [|done].
    cbn [run]. by destruct (run server (unzip E (zipPath E)) w2).
Qed.

(** C11. With the archive cached, [checkOrDownload] succeeds without any
    network request and without any notice, whatever happens during the
    extraction. *)
Theorem checkOrDownload_cached_offline w :
  exists_ (w_store w) (zipPath E) = true ->
  let '(w', o) := run server (checkOrDownload E) w in
  o = Finished /\ w_requests w' = w_requests w /\ w_notices w' = w_notices w.
Proof.
  intros Hz. rewrite run_checkOrDownload, Hz. cbv zeta beta iota.
  destruct (run_offline server _ (ensure_folder w (basePath E)) (unzip_offline E (zipPath E)))
    as [Hq Hn].
  destruct (run server (unzip E (zipPath E)) (ensure_folder w (basePath E))) as [w2 o].
  simpl in *. split; [done|].
  unfold ensure_folder in *. destruct (exists_ _ (basePath E)), o; simpl; auto.
Qed.

(** C16. A cached archive that zip.js cannot parse: [checkOrDownload]
    still reports success; the parse error only becomes an unhandled
    rejection of the detached [unzip] task. *)
Theorem checkOrDownload_corrupt_archive_unreported w blob err :
  readBinary (w_store w) (zipPath E) = Some blob ->
  getEntries E blob = inl err ->
  run server (checkOrDownload E) w =
    (reap (Rejected err) (ensure_folder w (basePath E)), Finished).
Proof.
  intros Hb He. rewrite run_checkOrDownload, (read_exists _ _ _ Hb). cbv zeta beta iota.
  unfold unzip, await_read. cbn [run]. unfold read_result.
  by rewrite ensure_folder_read, Hb, He.
Qed.

(** C14. With the archive missing and the release endpoint unreachable,
    [checkOrDownload] rejects with the wrapped error of [download], after
    the start and failure notices, and extracts nothing. *)
Theorem checkOrDownload_network_failure w err :
  exists_ (w_store w) (zipPath E) = false ->
  server (release_request E) = inl err ->
  run server (checkOrDownload E) w =
    (add_notice (notice_failure "resources.zip" err) None
       (add_request (release_request E)
          (add_notice (notice_start "resources.zip") (Some 5000)
             (ensure_folder w (basePath E)))),
     Rejected (download_error "resources.zip")).
Proof.
  intros Hz Hs. rewrite run_checkOrDownload, Hz. cbv zeta beta iota.
  rewrite run_download. cbn [run fetchAsset await_request]. by rewrite Hs.
Qed.

Lemma ensure_folder_idem w p : ensure_folder (ensure_folder w p) p = ensure_folder w p.
Proof.
  unfold ensure_folder at 2. destruct (exists_ (w_store w) p) eqn:Ep.
  - unfold ensure_folder. by rewrite Ep.
  - unfold ensure_folder. rewrite Ep. simpl. by rewrite mkdir_exists.
Qed.

(** C3. Refinement, cached branch: with a readable archive in the store,
    [checkOrDownload] performs exactly the extraction algorithm of
    section 4.1 (root folder, directory entries, then every file entry not
    already present) and reports success. *)
Theorem checkOrDownload_cached_refines_extract w blob entries :
  readBinary (w_store w) (zipPath E) = Some blob ->
  getEntries E blob = inr entries ->
  run server (checkOrDownload E) w = (extract_spec (basePath E) entries w, Finished).
Proof.
  intros Hb He. rewrite run_checkOrDownload, (read_exists _ _ _ Hb). cbv zeta beta iota.
  rewrite (unzip_refines_extract server E _ _ blob entries); [|by unfold read_result;
    rewrite ensure_folder_read, Hb|done].
  unfold extract_spec. by rewrite ensure_folder_idem.
Qed.

(** C2. Fresh install: with the archive missing and the network
    answering, [checkOrDownload] announces the download, requests the
    release metadata then the asset (with the octet-stream header),
    persists the asset bytes verbatim as the archive, announces success,
    extracts the archive by the algorithm of section 4.1 and succeeds. *)
Theorem checkOrDownload_fresh_install w resp assets asset dr s' entries :
  exists_ (w_store w) (zipPath E) = false ->
  server (release_request E) = inr resp ->
  resp_assets resp = Some assets ->
  find_asset "resources.zip" assets = Some asset ->
  server (asset_request asset) = inr dr ->
  writeBinary (zipPath E) (resp_body dr) (w_store (ensure_folder w (basePath E))) = inr s' ->
  getEntries E (resp_body dr) = inr entries ->
  run server (checkOrDownload E) w =
    (extract_spec (basePath E) entries
       (add_notice (notice_success "resources.zip") (Some 5000)
          (set_store s'
             (add_request (asset_request asset)
                (add_request (release_request E)
                   (add_notice (notice_start "resources.zip") (Some 5000)
                      (ensure_folder w (basePath E))))))),
     Finished).
Proof.
  intros Hz Hs Ha Hf Hd Hw He. rewrite run_checkOrDownload, Hz. cbv zeta beta iota.
  rewrite run_download. cbv zeta.
  rewrite (fetchAsset_ok server E _ _ _ resp assets asset dr s'); try done.
  cbv iota. rewrite (unzip_refines_extract server E _ _ (resp_body dr) entries); [done| |done].
  unfold read_result. simpl. by rewrite (write_read _ _ _ _ Hw).
Qed.

(** C15. The two failure kinds of the resolver reach the caller as one
    and the same rejection: an unreachable release endpoint and a
    manifest without the asset both make [checkOrDownload] reject with
    [download_error "resources.zip"]. *)
Theorem checkOrDownload_failure_kinds_merged w err resp assets :
  exists_ (w_store w) (zipPath E) = false ->
  (server (release_request E) = inl err \/
   (server (release_request E) = inr resp /\ resp_assets resp = Some assets /\
    find_asset "resources.zip" assets = None)) ->
  snd (run server (checkOrDownload E) w) = Rejected (download_error "resources.zip").
Proof.
  intros Hz Hfail. rewrite run_checkOrDownload, Hz. cbv zeta beta iota.
  rewrite run_download. cbn [run fetchAsset await_request].
  destruct Hfail as [Hs|(Hs & Ha & Hf)]; rewrite Hs; [done|]. cbn [run].
  by rewrite Ha, Hf.
Qed.
End PipelineRuns.

(** ** Every interleaving of the detached tasks *)

Section Interleavings.
(** [P]: any set of paths that hold files when the run starts. *)
Variable P : string -> Prop.

Lemma checkOrCreateFolder_safe p : safe P (checkOrCreateFolder p).
Proof. constructor. intros [] _; auto with cc. Qed.

Lemma extractFile_safe base e : safe P (extractFile base e).
Proof.
  constructor. intros [] Hb; [constructor|].
  destruct (getData e) as [[err|d]|]; repeat constructor.
  - intros Hp. specialize (Hb Hp). discriminate.
  - intros []; constructor.
Qed.

Lemma unzip_safe E zipFile : safe P (unzip E zipFile).
Proof.
  constructor. intros [err|blob]; [constructor|]. simpl.
  destruct (getEntries E blob) as [err|entries]; [constructor|].
  constructor; [apply checkOrCreateFolder_safe|].
  apply safe_spawn_all;
    [apply List.Forall_map, List.Forall_forall; intros e _; apply checkOrCreateFolder_safe|].
  apply safe_spawn_all; [|constructor].
  apply List.Forall_map, List.Forall_forall. intros e _. apply extractFile_safe.
Qed.

Lemma download_safe E name localPath : ~ P localPath -> safe P (download E name localPath).
Proof.
  intros Hl. constructor. apply safe_try_catch; [|repeat constructor].
  apply safe_then; [|repeat constructor].
  constructor. intros [err|resp]; [constructor|]. simpl.
  destruct (resp_assets resp) as [assets|]; [|constructor].
  destruct (find_asset name assets) as [asset|]; [|constructor].
  constructor. intros [err|dr]; [constructor|]. simpl.
  constructor; [done|]. intros []; constructor.
Qed.

Lemma checkOrDownload_safe E : safe P (checkOrDownload E).
Proof.
  constructor; [apply checkOrCreateFolder_safe|].
  constructor. intros [] Hb.
  - constructor; [apply unzip_safe|constructor].
  - apply safe_then; [|constructor; [apply unzip_safe|constructor]].
    apply download_safe. intros Hp. specialize (Hb Hp). discriminate.
Qed.
End Interleavings.

(** ** Nothing left to do: the pipeline on an extracted store *)

Section Extracted.
Context {Store : Type} `{DataAdapter Store}.
Variable E : env.
(** The world when the calls start. *)
Variable w0 : world Store.

(** A file entry has nothing left to do on the store of [w0]: its
    destination exists, it has no data or unreadable data, or its write
    fails there. *)
Definition entry_done (base : string) (e : ZipEntry) : Prop :=
  exists_ (w_store w0) (base </> filename e) = true \/
  match getData e with
  | Some (inr d) => exists err, writeBinary (base </> filename e) d (w_store w0) = inl err
  | _ => True
  end.

(** The archive at [zipFile] has been extracted into the store of [w0]:
    the resource folder, every directory entry's folder and every file
    entry are in place. *)
Definition extracted (zipFile : string) : Prop :=
  exists_ (w_store w0) (basePath E) = true /\
  forall blob entries, readBinary (w_store w0) zipFile = Some blob ->
    getEntries E blob = inr entries ->
    forall e, e ∈ entries ->
      if directory e then exists_ (w_store w0) (basePath E </> filename e) = true
      else entry_done (basePath E) e.

Lemma checkOrCreateFolder_inert p : exists_ (w_store w0) p = true -> inert w0 (checkOrCreateFolder p).
Proof. intros Hp. constructor. rewrite Hp. constructor. Qed.

Lemma extractFile_inert base e : entry_done base e -> inert w0 (extractFile base e).
Proof.
  intros Hd. constructor. destruct (exists_ (w_store w0) (base </> filename e)) eqn:Hx;
    [constructor|].
  destruct Hd as [Hd|Hd]; [congruence|].
  destruct (getData e) as [[err|d]|]; [constructor| |constructor].
  destruct Hd as [err Hw]. apply (inert_write _ _ _ _ err Hw). constructor.
Qed.

Lemma unzip_inert zipFile : extracted zipFile -> inert w0 (unzip E zipFile).
Proof.
  intros [Hb Hx]. constructor. unfold read_result.
  destruct (readBinary (w_store w0) zipFile) as [blob|] eqn:Hr; [|constructor].
  cbn beta iota. destruct (getEntries E blob) as [err|entries] eqn:He; [constructor|].
  specialize (Hx blob entries eq_refl He).
  constructor; [by apply checkOrCreateFolder_inert|].
  apply inert_spawn_all.
  { apply List.Forall_map, Forall_forall. intros e He'.
    apply elem_of_List_filter in He' as [He' Hd]. apply checkOrCreateFolder_inert.
    specialize (Hx e He'). by rewrite Hd in Hx. }
  apply inert_spawn_all; [|constructor].
  apply List.Forall_map, Forall_forall. intros e He'.
  apply elem_of_List_filter in He' as [He' Hd]. apply extractFile_inert.
  specialize (Hx e He'). by destruct (directory e).
Qed.

Lemma checkOrDownload_inert :
  exists_ (w_store w0) (zipPath E) = true -> extracted (zipPath E) ->
  inert w0 (checkOrDownload E).
Proof.
  intros Hz Hx. constructor; [apply checkOrCreateFolder_inert, Hx|].
  constructor. rewrite Hz. constructor; [by apply unzip_inert|constructor].
Qed.
End Extracted.

Section ConcurrentRuns.
Context {Store : Type} `{DataAdapterLaws Store}.
Variable server : request -> string + response.
Variable E : env.

(** C1. Extraction never overwrites, in the strongest form the code
    allows: whatever the schedule of the detached tasks and however many
    [checkOrDownload] calls run concurrently (clicks of the download
    button), a file present before the calls keeps its content. *)
Theorem checkOrDownload_keeps_existing_files w n c :
  steps server (Cfg w (checkOrDownload E) (replicate n (checkOrDownload E))) c ->
  forall p d, readBinary (w_store w) p = Some d ->
  readBinary (w_store (c_world c)) p = Some d.
Proof.
  intros Hs. apply (safe_inv_steps server (w_store w)) in Hs as [Hk _]; [exact Hk|].
  split; [by intros ??|]. constructor; [apply checkOrDownload_safe|].
  apply Forall_replicate, checkOrDownload_safe.
Qed.

(** On a store where the archive is present and extracted, any number of
    concurrent calls, under any schedule, leave the world as it was but for
    unhandled rejections. *)
Lemma checkOrDownload_extracted_steps w n c :
  exists_ (w_store w) (zipPath E) = true -> extracted E w (zipPath E) ->
  steps server (Cfg w (checkOrDownload E) (replicate n (checkOrDownload E))) c ->
  same_world w (c_world c).
Proof.
  intros Hz Hx Hs. apply (inert_inv_steps server w) in Hs as [Hw _]; [exact Hw|].
  split; [done|]. constructor; [by apply checkOrDownload_inert|].
  apply Forall_replicate. by apply checkOrDownload_inert.
Qed.

End ConcurrentRuns.

(** ** Concrete scenarios *)

Module Scenarios.
Definition key_bytes : bytes := [Byte.x52; Byte.x49; Byte.x46; Byte.x46].
Definition custom_bytes : bytes := [Byte.x00; Byte.x01].
Definition zip_bytes : bytes := [Byte.x50; Byte.x4b; Byte.x03; Byte.x04].

(** The archive: a directory entry, then a sound file under it. *)
Definition entries0 : list ZipEntry :=
  [ {| filename := "sounds/"; directory := true; getData := None |};
    {| filename := "sounds/key.wav"; directory := false; getData := Some (inr key_bytes) |} ].

Definition E0 : env := {|
  configDir := ".obsidian";
  normalizePath := fun p => p;
  plugin_version := Some "0.2.0";
  getEntries := fun b => if decide (b = zip_bytes) then inr entries0
                         else inl "Error: End of central directory record could not be found";
|}.

Definition url_zip := "https://api.github.com/repos/acylation/obsidian-click-clack/releases/assets/1".
Definition url_sig := "https://api.github.com/repos/acylation/obsidian-click-clack/releases/assets/2".
Definition asset_zip : githubAsset := {| asset_name := "resources.zip"; asset_url := url_zip |}.
Definition asset_sig : githubAsset := {| asset_name := "resources.zip.sig"; asset_url := url_sig |}.
Definition manifest0 : response := {| resp_assets := Some [asset_zip; asset_sig]; resp_body := [] |}.
Definition asset_response : response := {| resp_assets := None; resp_body := zip_bytes |}.

(** GitHub reachable: the release manifest and the asset bytes. *)
Definition server0 (r : request) : string + response :=
  if String.eqb (req_url r) (release_url E0) then inr manifest0
  else if String.eqb (req_url r) url_zip then inr asset_response
  else inl "Error: net::ERR_NAME_NOT_RESOLVED".

Definition server_offline (r : request) : string + response :=
  inl "Error: net::ERR_INTERNET_DISCONNECTED".

Definition key_path := ".obsidian/plugins/click-clack/resources/sounds/key.wav".

Definition empty_vault : MemVault := mk_vault false [] [].
(** A custom sound already placed where the archive has one. *)
Definition custom_vault : MemVault := mk_vault false [] [(key_path, File custom_bytes)].
Definition cached_vault : MemVault :=
  mk_vault false [] [(".obsidian/plugins/click-clack/resources.zip", File zip_bytes)].
Definition corrupt_vault : MemVault :=
  mk_vault false [] [(".obsidian/plugins/click-clack/resources.zip", File [Byte.x00])].
(** A file system where a write needs its folder. *)
Definition strict_cached_vault : MemVault :=
  mk_vault true [] [(".obsidian/plugins/click-clack/resources.zip", File zip_bytes)].

Definition asset_downloads (rs : list request) : nat :=
  List.length (List.filter (fun r => String.eqb (req_url r) url_zip) rs).

(** C18. Directory-before-file ordering is not guaranteed.  On a file
    system where a write needs its folder, the awaited reading extracts
    [sounds/key.wav]; but the folder tasks and the file tasks are
    detached, and under a schedule that runs the file task first the write
    fails with ENOENT, the file is missing, and [checkOrDownload] still
    succeeds: the failure is only an unhandled rejection. *)
Theorem extraction_order_not_guaranteed :
  readBinary (w_store (fst (run server0 (checkOrDownload E0) (init_world strict_cached_vault))))
    key_path = Some key_bytes /\
  exists c, steps server0 (Cfg (init_world strict_cached_vault) (checkOrDownload E0) []) c /\
    final c /\ c_main c = Done /\
    readBinary (w_store (c_world c)) key_path = None /\
    w_rejections (c_world c) = ["Error: ENOENT: no such file or directory, open '" +:+ key_path +:+ "'"].
Proof.
  split; [vm_compute; reflexivity|].
  eexists. split; [apply (drive_sound server0 300)|].
  vm_compute. split; [split; [discriminate|reflexivity]|]. repeat split.
Qed.
Lemma zip_ne_base0 : zipPath E0 <> basePath E0.
Proof. vm_compute. discriminate. Qed.

Definition zip0 := ".obsidian/plugins/click-clack/resources.zip".
Definition base0 := ".obsidian/plugins/click-clack/resources".

Lemma find_asset_first_exact_witness :
  asset_name asset_zip = "resources.zip" /\
  exists pre post, [asset_zip; asset_sig] = pre ++ asset_zip :: post /\
                   Forall (fun b => asset_name b <> "resources.zip") pre.
Proof. apply (find_asset_first_exact "resources.zip" [asset_zip; asset_sig] asset_zip). reflexivity. Defined.

Lemma fetchAsset_not_found_witness :
  run server0 (fetchAsset E0 "resources.tar.gz" zip0) (init_world empty_vault) =
    (add_request (release_request E0) (init_world empty_vault),
     Rejected "Error: Could not find the online asset!").
Proof.
  apply (fetchAsset_not_found server0 E0 _ _ _ manifest0 [asset_zip; asset_sig]);
    vm_compute; reflexivity.
Defined.

Lemma download_rejects_wrapped_witness :
  download_error "resources.zip" = download_error "resources.zip" /\
  exists e0 w1,
    run server_offline (fetchAsset E0 "resources.zip" zip0)
      (add_notice (notice_start "resources.zip") (Some 5000) (init_world empty_vault))
      = (w1, Rejected e0) /\
    fst (run server_offline (download E0 "resources.zip" zip0) (init_world empty_vault)) =
    add_notice (notice_failure "resources.zip" e0) None w1.
Proof.
  apply (download_rejects_wrapped server_offline E0 "resources.zip" zip0 (init_world empty_vault)
           (fst (run server_offline (download E0 "resources.zip" zip0) (init_world empty_vault)))).
  vm_compute. reflexivity.
Defined.

Lemma checkOrDownload_cached_refines_extract_witness :
  run server0 (checkOrDownload E0) (init_world cached_vault) =
    (extract_spec (basePath E0) entries0 (init_world cached_vault), Finished).
Proof.
  apply (checkOrDownload_cached_refines_extract server0 E0 zip_ne_base0 _ zip_bytes);
    vm_compute; reflexivity.
Defined.

Lemma checkOrDownload_cached_offline_witness :
  let '(w', o) := run server_offline (checkOrDownload E0) (init_world cached_vault) in
  o = Finished /\ w_requests w' = [] /\ w_notices w' = [].
Proof.
  apply (checkOrDownload_cached_offline server_offline E0 zip_ne_base0
           (init_world cached_vault)).
  vm_compute. reflexivity.
Defined.

Lemma checkOrDownload_corrupt_archive_unreported_witness :
  run server0 (checkOrDownload E0) (init_world corrupt_vault) =
    (reap (Rejected "Error: End of central directory record could not be found")
       (ensure_folder (init_world corrupt_vault) (basePath E0)), Finished).
Proof.
  apply (checkOrDownload_corrupt_archive_unreported server0 E0 zip_ne_base0 _ [Byte.x00]);
    vm_compute; reflexivity.
Defined.

Lemma checkOrDownload_network_failure_witness :
  run server_offline (checkOrDownload E0) (init_world empty_vault) =
    (add_notice (notice_failure "resources.zip" "Error: net::ERR_INTERNET_DISCONNECTED") None
       (add_request (release_request E0)
          (add_notice (notice_start "resources.zip") (Some 5000)
             (ensure_folder (init_world empty_vault) (basePath E0)))),
     Rejected (download_error "resources.zip")).
Proof.
  apply (checkOrDownload_network_failure server_offline E0 zip_ne_base0); vm_compute; reflexivity.
Defined.

Lemma checkOrDownload_keeps_existing_files_witness :
  readBinary (w_store (c_world (drive server0 300
    (Cfg (init_world custom_vault) (checkOrDownload E0) [checkOrDownload E0])))) key_path =
  Some custom_bytes.
Proof.
  apply (checkOrDownload_keeps_existing_files server0 E0 (init_world custom_vault) 1);
    [apply drive_sound | vm_compute; reflexivity].
Defined.

Lemma checkOrDownload_fresh_install_witness :
  run server0 (checkOrDownload E0) (init_world empty_vault) =
    (extract_spec (basePath E0) entries0
       (add_notice (notice_success "resources.zip") (Some 5000)
          (set_store (mv_set zip0 (File zip_bytes) (mv_set base0 Folder empty_vault))
             (add_request (asset_request asset_zip)
                (add_request (release_request E0)
                   (add_notice (notice_start "resources.zip") (Some 5000)
                      (ensure_folder (init_world empty_vault) (basePath E0))))))),
     Finished).
Proof.
  apply (checkOrDownload_fresh_install server0 E0 zip_ne_base0 _ manifest0
           [asset_zip; asset_sig] asset_zip asset_response); vm_compute; reflexivity.
Defined.

Lemma checkOrDownload_failure_kinds_merged_witness :
  snd (run server_offline (checkOrDownload E0) (init_world empty_vault)) =
    Rejected (download_error "resources.zip").
Proof.
  apply (checkOrDownload_failure_kinds_merged server_offline E0 zip_ne_base0 _
           "Error: net::ERR_INTERNET_DISCONNECTED" manifest0 []); [vm_compute; reflexivity|].
  left. reflexivity.
Defined.
End Scenarios.
