(* ===== verification/Idempotence.v ===== *)
(** * Idempotence of the pipeline (section 8 of the spec)

    "Calling ensureResources() twice in a row with network reachable
    produces an identical on-disk tree as calling it once."  This file
    proves it of [checkOrDownload] (src/src/fetchHelper.ts lines 60-85),
    read in the awaited way ([run]), on the in-memory vault [MemVault] of
    Vault.v: whenever a first call succeeds, a second call leaves the store
    unchanged, whatever the archive, the denied paths and the strictness of
    the file system.

    The generic part (any adapter satisfying [DataAdapterLaws]) shows that
    a run never removes a path, that a successful [download] leaves the
    archive in place, and how [unzip] unfolds on its three branches.  The
    part on [MemVault] shows that extraction only adds files ([files_only])
    and that after one extraction every file entry is settled: present,
    without data, or at a path whose write fails for a reason that adding
    files does not change.  So the store after a successful call is
    [extracted], every later call is [inert] on it, and any number of them
    running concurrently change nothing under every schedule. *)

From S2P Require Import Prelude Vault Async FetchHelper.

Local Open Scope cc_scope.

(** ** Any adapter *)

Section Generic.
Context {Store : Type} `{DataAdapterLaws Store}.
Variable server : request -> string + response.
Variable E : env.

Lemma mkdir_exists_mono s a q : exists_ s q = true -> exists_ (mkdir a s) q = true.
Proof.
  intros Hq. destruct (decide (q = a)) as [->|Hne]; [apply mkdir_exists|].
  by rewrite mkdir_exists_other.
Qed.

Lemma write_exists_mono s s' a d q :
  writeBinary a d s = inr s' -> exists_ s q = true -> exists_ s' q = true.
Proof.
  intros Hw Hq. destruct (decide (q = a)) as [->|Hne]; [by eapply write_exists|].
  by erewrite write_exists_other.
Qed.

Lemma reap_store (o : outcome) (w : world Store) : w_store (reap o w) = w_store w.
Proof. by destruct o. Qed.

(** No program removes a path. *)
Lemma run_exists_mono p : forall w q,
  exists_ (w_store w) q = true -> exists_ (w_store (fst (run server p w))) q = true.
Proof.
  induction p as [| |a k IH|a k IH|a k IH|a d k IH|r k IH|m t k IH|t IHt k IHk];
    intros w q Hq; simpl; auto.
  - apply IH. by apply mkdir_exists_mono.
  - unfold write_result. destruct (writeBinary a d (w_store w)) eqn:Hw; [by apply IH|].
    apply IH. by eapply write_exists_mono.
  - specialize (IHt w q Hq). destruct (run server t w) as [w1 o].
    apply IHk. by rewrite reap_store.
Qed.

(** A [fetchAsset] that succeeds has written its destination. *)
Lemma fetchAsset_Finished_exists target lp w :
  snd (run server (fetchAsset E target lp) w) = Finished ->
  exists_ (w_store (fst (run server (fetchAsset E target lp) w))) lp = true.
Proof.
  unfold fetchAsset, await_request. cbn [run].
  destruct (server (release_request E)) as [e|resp]; [done|].
  cbn [run]. destruct (resp_assets resp) as [assets|]; [|done].
  destruct (find_asset target assets) as [asset|]; [|done].
  cbn [run]. destruct (server (asset_request asset)) as [e|dr]; [done|].
  cbn [run await_write]. unfold write_result.
  destruct (writeBinary lp (resp_body dr) _) eqn:Hw; [done|]. intros _. by eapply write_exists.
Qed.

Lemma download_Finished_exists name lp w :
  snd (run server (download E name lp) w) = Finished ->
  exists_ (w_store (fst (run server (download E name lp) w))) lp = true.
Proof.
  rewrite run_download. cbv zeta.
  pose proof (fetchAsset_Finished_exists name lp (add_notice (notice_start name) (Some 5000) w)).
  destruct (run server (fetchAsset E name lp) _) as [w1 []]; simpl in *; [auto|done].
Qed.

(** [unzip] on its three branches: unreadable archive, unparsable archive,
    extraction. *)
Lemma run_unzip zipFile w :
  run server (unzip E zipFile) w =
  match read_result zipFile w with
  | inl e => (w, Rejected e)
  | inr blob =>
      match getEntries E blob with
      | inl e => (w, Rejected e)
      | inr entries => (extract_spec (basePath E) entries w, Finished)
      end
  end.
Proof.
  destruct (read_result zipFile w) as [e|blob] eqn:Hr.
  - unfold unzip, await_read. cbn [run]. by rewrite Hr.
  - destruct (getEntries E blob) as [e|entries] eqn:He.
    + unfold unzip, await_read. cbn [run]. by rewrite Hr, He.
    + by apply (unzip_refines_extract server E zipFile w blob entries).
Qed.

Lemma extract_entry_read base w e q d :
  readBinary (w_store w) q = Some d ->
  readBinary (w_store (extract_entry base w e)) q = Some d.
Proof.
  intros Hq. unfold extract_entry.
  destruct (exists_ (w_store w) (base </> filename e)) eqn:Hx; [done|].
  destruct (getData e) as [[err|dd]|]; [by rewrite reap_store|..|done].
  unfold write_result. destruct (writeBinary _ dd (w_store w)) eqn:Hw; [by rewrite reap_store|].
  simpl. eapply write_preserves_file; [exact Hw| |exact Hq].
  intros ->. apply read_exists in Hq. congruence.
Qed.

(** Extraction keeps every file already in place: the archive itself. *)
Lemma extract_spec_read base entries w q d :
  readBinary (w_store w) q = Some d ->
  readBinary (w_store (extract_spec base entries w)) q = Some d.
Proof.
  intros Hq. unfold extract_spec.
  apply (fold_left_inv (fun w => readBinary (w_store w) q = Some d));
    [|intros; by apply extract_entry_read].
  apply (fold_left_inv (fun w => readBinary (w_store w) q = Some d));
    [|intros; by rewrite ensure_folder_read].
  by rewrite ensure_folder_read.
Qed.
End Generic.

Lemma ensure_folder_exists_mono {Store} `{DataAdapterLaws Store} (w : world Store) p q :
  exists_ (w_store w) q = true -> exists_ (w_store (ensure_folder w p)) q = true.
Proof. intros Hq. unfold ensure_folder. destruct (exists_ (w_store w) p); [done|]. by apply mkdir_exists_mono. Qed.

Lemma ensure_folder_exists {Store} `{DataAdapterLaws Store} (w : world Store) p :
  exists_ (w_store (ensure_folder w p)) p = true.
Proof. unfold ensure_folder. destruct (exists_ (w_store w) p) eqn:Hp; [done|]. apply mkdir_exists. Qed.

Lemma ensure_folder_noop {Store} `{DataAdapter Store} (w : world Store) p :
  exists_ (w_store w) p = true -> ensure_folder w p = w.
Proof. intros Hp. unfold ensure_folder. by rewrite Hp. Qed.

(** ** The in-memory vault *)

(** Why [writeBinary] of [MemVault] rejects a write to [p]: a denied path,
    a folder at [p], or (strict vault) no parent folder. *)
Definition wfail (v : MemVault) (p : string) : bool :=
  bool_decide (p ∈ mv_denied v) || is_folder v p || negb (parent_ok v p).

Lemma writeBinary_inr p d v s :
  writeBinary p d v = inr s -> wfail v p = false /\ s = mv_set p (File d) v.
Proof.
  unfold wfail, is_folder. cbn. case_bool_decide; [done|].
  destruct (mv_nodes v !! p) as [[]|]; [done| |];
    destruct (parent_ok v p); intros; simplify_eq; done.
Qed.

Lemma writeBinary_inl p d v e : writeBinary p d v = inl e -> wfail v p = true.
Proof.
  unfold wfail, is_folder. cbn. case_bool_decide; [done|].
  destruct (mv_nodes v !! p) as [[]|]; [done| |]; by destruct (parent_ok v p).
Qed.

(** The store only gains files: the denied paths, the strictness and the
    folders are those of before, and no node changes. *)
Record files_only (v v' : MemVault) : Prop := {
  fo_denied : mv_denied v' = mv_denied v;
  fo_strict : mv_strict v' = mv_strict v;
  fo_folder p : is_folder v' p = is_folder v p;
  fo_nodes p n : mv_nodes v !! p = Some n -> mv_nodes v' !! p = Some n;
}.

#[export] Instance files_only_preorder : PreOrder files_only.
Proof.
  split.
  - intros v. by split.
  - intros v1 v2 v3 [] []. split; intros; try congruence; auto.
Qed.

Lemma files_only_wfail v v' p : files_only v v' -> wfail v' p = wfail v p.
Proof.
  intros Hfo. unfold wfail, parent_ok.
  rewrite (fo_denied _ _ Hfo), (fo_strict _ _ Hfo), (fo_folder _ _ Hfo).
  destruct (dirname p); [|done]. by rewrite !(fo_folder _ _ Hfo).
Qed.

Lemma files_only_exists v v' p : files_only v v' -> exists_ v p = true -> exists_ v' p = true.
Proof.
  intros Hfo. cbn. destruct (mv_nodes v !! p) as [n|] eqn:Hn; [|done].
  by rewrite (fo_nodes _ _ Hfo _ _ Hn).
Qed.

Lemma mv_set_file_only v p d : mv_nodes v !! p = None -> files_only v (mv_set p (File d) v).
Proof.
  intros Hp. split; try done.
  - intros q. unfold is_folder. cbn. destruct (decide (q = p)) as [->|Hne].
    + by rewrite lookup_insert_eq, Hp.
    + by rewrite lookup_insert_ne.
  - intros q n Hq. cbn. rewrite lookup_insert_ne; [done|]. congruence.
Qed.

(** A file entry extraction will not change: its destination exists, it
    has no data to write, or the write fails. *)
Definition settled (v : MemVault) (base : string) (e : ZipEntry) : Prop :=
  exists_ v (base </> filename e) = true \/
  match getData e with Some (inr _) => wfail v (base </> filename e) = true | _ => True end.

Lemma settled_mono v v' base e : files_only v v' -> settled v base e -> settled v' base e.
Proof.
  intros Hfo [Hx|Hd]; [left; by eapply files_only_exists|right].
  destruct (getData e) as [[]|]; try done. by rewrite (files_only_wfail _ _ _ Hfo).
Qed.
Lemma wfail_write_fails p d v : wfail v p = true -> exists e, writeBinary p d v = inl e.
Proof.
  intros Hf. destruct (writeBinary p d v) as [e|v'] eqn:Hw; [eauto|].
  apply writeBinary_inr in Hw as [Hf' _]. congruence.
Qed.

(** A settled entry has nothing left to do for a concurrent call either. *)
Lemma settled_entry_done (w : world MemVault) base e :
  settled (w_store w) base e -> entry_done w base e.
Proof.
  intros [Hx|Hd]; [by left|right].
  destruct (getData e) as [[]|]; try done. by apply wfail_write_fails.
Qed.


Lemma extract_entry_files_only base (w : world MemVault) e :
  files_only (w_store w) (w_store (extract_entry base w e)).
Proof.
  unfold extract_entry. destruct (exists_ (w_store w) (base </> filename e)) eqn:Hx; [done|].
  destruct (getData e) as [[err|dd]|]; [by rewrite reap_store| |done].
  unfold write_result. destruct (writeBinary _ dd (w_store w)) as [err|s] eqn:Hw;
    [by rewrite reap_store|].
  apply writeBinary_inr in Hw as [_ ->]. apply mv_set_file_only.
  cbn in Hx. by destruct (mv_nodes (w_store w) !! _).
Qed.

Lemma extract_entry_settles base (w : world MemVault) e :
  settled (w_store (extract_entry base w e)) base e.
Proof.
  unfold extract_entry. destruct (exists_ (w_store w) (base </> filename e)) eqn:Hx;
    [by left|].
  destruct (getData e) as [[err|dd]|] eqn:Hd; [by right; rewrite Hd| |by right; rewrite Hd].
  unfold write_result. destruct (writeBinary _ dd (w_store w)) as [err|s] eqn:Hw.
  - right. rewrite Hd, reap_store. by eapply writeBinary_inl.
  - left. apply writeBinary_inr in Hw as [_ ->]. cbn. by rewrite lookup_insert_eq.
Qed.

Lemma extract_entry_noop base (w : world MemVault) e :
  settled (w_store w) base e -> w_store (extract_entry base w e) = w_store w.
Proof.
  unfold extract_entry. intros [Hx|Hd]; [by rewrite Hx|].
  destruct (exists_ (w_store w) (base </> filename e)); [done|].
  destruct (getData e) as [[err|dd]|]; [by rewrite reap_store| |done].
  unfold write_result. destruct (writeBinary _ dd (w_store w)) as [err|s] eqn:Hw;
    [by rewrite reap_store|].
  apply writeBinary_inr in Hw as [Hf _]. congruence.
Qed.

(** *** The file pass and the folder pass of [extract_spec] *)

Lemma files_pass_files_only base es (w : world MemVault) :
  files_only (w_store w) (w_store (fold_left (extract_entry base) es w)).
Proof.
  apply (fold_left_inv (fun w' => files_only (w_store w) (w_store w'))); [done|].
  intros w' e _ Hw'. etransitivity; [exact Hw'|]. apply extract_entry_files_only.
Qed.

Lemma files_pass_settles base es (w : world MemVault) e :
  e ∈ es -> settled (w_store (fold_left (extract_entry base) es w)) base e.
Proof.
  revert w. induction es as [|e' es IH]; intros w He; [by apply elem_of_nil in He|].
  simpl. apply elem_of_cons in He as [->|He]; [|by apply IH].
  eapply settled_mono; [apply files_pass_files_only|apply extract_entry_settles].
Qed.

Lemma files_pass_noop base es (w : world MemVault) :
  (forall e, e ∈ es -> settled (w_store w) base e) ->
  w_store (fold_left (extract_entry base) es w) = w_store w.
Proof.
  revert w. induction es as [|e es IH]; intros w Hs; simpl; [done|].
  rewrite IH; [apply extract_entry_noop; apply Hs; left|].
  intros e' He'. rewrite extract_entry_noop by (apply Hs; left). apply Hs. by right.
Qed.

Lemma folders_pass_exist {Store} `{DataAdapterLaws Store} base dirs (w : world Store) q :
  (exists_ (w_store w) q = true \/ exists e, e ∈ dirs /\ q = base </> filename e) ->
  exists_ (w_store (fold_left (fun w e => ensure_folder w (base </> filename e)) dirs w)) q = true.
Proof.
  revert w. induction dirs as [|e dirs IH]; intros w Hq; simpl.
  - destruct Hq as [Hq|(e & He & _)]; [done|by apply elem_of_nil in He].
  - apply IH. destruct Hq as [Hq|(e' & He' & ->)].
    + left. by apply ensure_folder_exists_mono.
    + apply elem_of_cons in He' as [->|He']; [left; apply ensure_folder_exists|].
      right. eauto.
Qed.

Lemma folders_pass_noop {Store} `{DataAdapter Store} base dirs (w : world Store) :
  (forall e, e ∈ dirs -> exists_ (w_store w) (base </> filename e) = true) ->
  fold_left (fun w e => ensure_folder w (base </> filename e)) dirs w = w.
Proof.
  revert w. induction dirs as [|e dirs IH]; intros w Hx; simpl; [done|].
  rewrite ensure_folder_noop by (apply Hx; left). apply IH. intros e' He'. apply Hx. by right.
Qed.

(** After an extraction the resource folder and the folder of every
    directory entry exist, and every file entry is settled. *)
Lemma extract_spec_settled base entries (w : world MemVault) :
  exists_ (w_store (extract_spec base entries w)) base = true /\
  forall e, e ∈ entries ->
    if directory e then exists_ (w_store (extract_spec base entries w)) (base </> filename e) = true
    else settled (w_store (extract_spec base entries w)) base e.
Proof.
  set (dirs := List.filter directory entries).
  set (files := List.filter (fun e => negb (directory e)) entries).
  set (w0 := fold_left (fun w e => ensure_folder w (base </> filename e)) dirs
               (ensure_folder w base)).
  assert (Hw1 : extract_spec base entries w = fold_left (extract_entry base) files w0) by done.
  assert (Hx : forall q, exists_ (w_store w0) q = true ->
                         exists_ (w_store (extract_spec base entries w)) q = true).
  { intros q Hq. rewrite Hw1. eapply files_only_exists; [apply files_pass_files_only|done]. }
  split; [apply Hx, folders_pass_exist; left; apply ensure_folder_exists|].
  intros e He. destruct (directory e) eqn:Hd.
  - apply Hx, folders_pass_exist. right. exists e. split; [|done].
    by apply elem_of_List_filter.
  - rewrite Hw1. apply files_pass_settles, elem_of_List_filter. by rewrite Hd.
Qed.

(** Extracting the same archive twice leaves the store of the first time. *)
Lemma extract_spec_idem base entries (w : world MemVault) :
  w_store (extract_spec base entries (extract_spec base entries w)) =
  w_store (extract_spec base entries w).
Proof.
  destruct (extract_spec_settled base entries w) as [Hb He].
  unfold extract_spec at 1.
  rewrite ensure_folder_noop by exact Hb.
  rewrite folders_pass_noop.
  - apply files_pass_noop. intros e He'. apply elem_of_List_filter in He' as [He' Hd].
    specialize (He e He'). by destruct (directory e).
  - intros e He'. apply elem_of_List_filter in He' as [He' Hd].
    specialize (He e He'). by rewrite Hd in He.
Qed.

(** *** Two calls of [checkOrDownload] *)

Section TwoCalls.
Variable server : request -> string + response.
Variable E : env.
Hypothesis zip_ne_base : zipPath E <> basePath E.

(** [ensureResources()] of the spec: one call of [checkOrDownload], awaited
    together with the tasks it spawns. *)
Definition ensureResources (w : world MemVault) : world MemVault * outcome :=
  run server (checkOrDownload E) w.

(** The world after the detached [this.unzip(zipPath)] of [checkOrDownload]
    ran to completion. *)
Definition after_unzip (w : world MemVault) : world MemVault :=
  let '(w', o) := run server (unzip E (zipPath E)) w in reap o w'.

Lemma after_unzip_eq w :
  after_unzip w =
  match read_result (zipPath E) w with
  | inr blob =>
      match getEntries E blob with
      | inr entries => extract_spec (basePath E) entries w
      | inl e => reap (Rejected e) w
      end
  | inl e => reap (Rejected e) w
  end.
Proof.
  unfold after_unzip. rewrite run_unzip.
  destruct (read_result (zipPath E) w) as [e|blob]; [done|]. by destruct (getEntries E blob).
Qed.

Lemma read_result_store p (w w' : world MemVault) :
  w_store w' = w_store w -> read_result p w' = read_result p w.
Proof. unfold read_result. by intros ->. Qed.

Lemma after_unzip_idem w : w_store (after_unzip (after_unzip w)) = w_store (after_unzip w).
Proof.
  rewrite (after_unzip_eq w).
  destruct (read_result (zipPath E) w) as [e|blob] eqn:Hr;
    [|destruct (getEntries E blob) as [e|entries] eqn:He].
  - rewrite after_unzip_eq, (read_result_store _ w) by apply reap_store. rewrite Hr.
    by rewrite !reap_store.
  - rewrite after_unzip_eq, (read_result_store _ w) by apply reap_store. rewrite Hr, He.
    by rewrite !reap_store.
  - rewrite after_unzip_eq.
    assert (Hb : read_result (zipPath E) (extract_spec (basePath E) entries w) = inr blob).
    { unfold read_result in *. destruct (readBinary (w_store w) (zipPath E)) eqn:Hz; [|done].
      by rewrite (extract_spec_read _ _ _ _ _ Hz); simplify_eq. }
    rewrite Hb, He. apply extract_spec_idem.
Qed.

Lemma after_unzip_exists w q :
  exists_ (w_store w) q = true -> exists_ (w_store (after_unzip w)) q = true.
Proof.
  intros Hq. unfold after_unzip.
  pose proof (run_exists_mono server (unzip E (zipPath E)) w q Hq).
  destruct (run server (unzip E (zipPath E)) w). by rewrite reap_store.
Qed.

(** An extraction from a world with the resource folder leaves the archive
    extracted, whatever the archive holds. *)
Lemma after_unzip_extracted x :
  exists_ (w_store x) (basePath E) = true -> extracted E (after_unzip x) (zipPath E).
Proof.
  intros Hb. split; [by apply after_unzip_exists|].
  intros blob entries Hr He. rewrite (after_unzip_eq x) in Hr |- *.
  unfold read_result at 1 in Hr. unfold read_result.
  destruct (readBinary (w_store x) (zipPath E)) as [blob0|] eqn:Hr0;
    [|by rewrite reap_store, Hr0 in Hr].
  destruct (getEntries E blob0) as [err|entries0] eqn:He0.
  - rewrite reap_store, Hr0 in Hr. simplify_eq. congruence.
  - rewrite (extract_spec_read _ _ _ _ _ Hr0) in Hr. simplify_eq. rewrite He in He0. simplify_eq.
    intros e Hin. destruct (extract_spec_settled (basePath E) entries0 x) as [_ Hs].
    specialize (Hs e Hin). destruct (directory e); [done|]. by apply settled_entry_done.
Qed.

(** With the archive and the resource folder in place, a call is one
    extraction. *)
Lemma run_checkOrDownload_in_place w :
  exists_ (w_store w) (zipPath E) = true -> exists_ (w_store w) (basePath E) = true ->
  run server (checkOrDownload E) w = (after_unzip w, Finished).
Proof.
  intros Hz Hb. rewrite (run_checkOrDownload server E zip_ne_base), Hz. cbv zeta beta iota.
  rewrite ensure_folder_noop by done. unfold after_unzip.
  by destruct (run server (unzip E (zipPath E)) w).
Qed.

(** A successful call ends with an extraction from a world where the
    archive and the resource folder are in place. *)
Lemma checkOrDownload_Finished w :
  snd (run server (checkOrDownload E) w) = Finished ->
  exists x, fst (run server (checkOrDownload E) w) = after_unzip x /\
            exists_ (w_store x) (zipPath E) = true /\ exists_ (w_store x) (basePath E) = true.
Proof.
  rewrite (run_checkOrDownload server E zip_ne_base).
  destruct (exists_ (w_store w) (zipPath E)) eqn:Hz; cbv zeta beta iota.
  - intros _. exists (ensure_folder w (basePath E)).
    split; [unfold after_unzip; by destruct (run server (unzip E (zipPath E)) _)|].
    split; [by rewrite ensure_folder_exists_other|apply ensure_folder_exists].
  - destruct (run server (download E "resources.zip" (zipPath E)) (ensure_folder w (basePath E)))
      as [w2 [|e]] eqn:Hd; [|done].
    intros _. exists w2. split; [unfold after_unzip; by destruct (run server (unzip E (zipPath E)) w2)|].
    pose proof (download_Finished_exists server E "resources.zip" (zipPath E)
                  (ensure_folder w (basePath E))) as Hz2.
    pose proof (run_exists_mono server (download E "resources.zip" (zipPath E))
                  (ensure_folder w (basePath E)) (basePath E) (ensure_folder_exists _ _)) as Hb2.
    rewrite Hd in Hz2, Hb2. simpl in *. auto.
Qed.

(** C8. Idempotence (section 8 of the spec): after a call of
    [checkOrDownload] that succeeds, a second call leaves the vault exactly
    as the first left it, whatever the archive, the denied paths and the
    strictness of the file system: every file and folder of the archive is
    then either in place or fails again for the same reason. *)
Theorem checkOrDownload_idempotent w :
  snd (ensureResources w) = Finished ->
  w_store (fst (ensureResources (fst (ensureResources w)))) = w_store (fst (ensureResources w)).
Proof.
  unfold ensureResources. intros Hf. destruct (checkOrDownload_Finished w Hf) as (x & Hx & Hz & Hb). rewrite Hx.
  rewrite run_checkOrDownload_in_place by (by apply after_unzip_exists).
  apply after_unzip_idem.
Qed.

(** C30. Idempotence under every interleaving (section 8 of the spec, with
    the re-entrant calls of section 5): after a call of [checkOrDownload]
    that succeeds, any number of further calls running concurrently, under
    any schedule of their detached tasks, leave the vault exactly as it
    was, make no request and show no notice. *)
Theorem concurrent_calls_after_success w n c :
  snd (ensureResources w) = Finished ->
  steps server (Cfg (fst (ensureResources w)) (checkOrDownload E)
                    (replicate n (checkOrDownload E))) c ->
  w_store (c_world c) = w_store (fst (ensureResources w)) /\
  w_requests (c_world c) = w_requests (fst (ensureResources w)) /\
  w_notices (c_world c) = w_notices (fst (ensureResources w)).
Proof.
  unfold ensureResources. intros Hf. destruct (checkOrDownload_Finished w Hf) as (x & Hx & Hz & Hb).
  rewrite Hx. apply checkOrDownload_extracted_steps;
    [by apply after_unzip_exists|by apply after_unzip_extracted].
Qed.
End TwoCalls.

Module IdempotenceScenarios.
Import FetchHelper.Scenarios.

Lemma checkOrDownload_idempotent_witness :
  snd (ensureResources server0 E0 (init_world empty_vault)) = Finished /\
  w_store (fst (ensureResources server0 E0
                  (fst (ensureResources server0 E0 (init_world empty_vault))))) =
  w_store (fst (ensureResources server0 E0 (init_world empty_vault))).
Proof.
  split; [vm_compute; reflexivity|].
  apply (checkOrDownload_idempotent server0 E0 zip_ne_base0). vm_compute. reflexivity.
Defined.

(** The vault after a first successful call, and two calls more run
    concurrently, the other call stepping between the first call's steps. *)
Definition w_first : world MemVault := fst (ensureResources server0 E0 (init_world empty_vault)).
Definition c_again : config MemVault :=
  replay server0 [Main; Task 0; Main] 300
    (Cfg w_first (checkOrDownload E0) [checkOrDownload E0]).

Lemma concurrent_calls_after_success_witness :
  snd (ensureResources server0 E0 (init_world empty_vault)) = Finished /\
  steps server0 (Cfg w_first (checkOrDownload E0) (replicate 1 (checkOrDownload E0))) c_again /\
  final c_again /\
  w_store (c_world c_again) = w_store w_first /\
  w_requests (c_world c_again) = w_requests w_first /\
  w_notices (c_world c_again) = w_notices w_first.
Proof.
  assert (Hf : snd (ensureResources server0 E0 (init_world empty_vault)) = Finished)
    by (vm_compute; reflexivity).
  assert (Hs : steps server0 (Cfg w_first (checkOrDownload E0) (replicate 1 (checkOrDownload E0)))
                 c_again) by apply replay_sound.
  split; [exact Hf|]. split; [exact Hs|].
  split; [vm_compute; split; [discriminate|reflexivity]|].
  exact (concurrent_calls_after_success server0 E0 zip_ne_base0 _ 1 c_again Hf Hs).
Defined.
End IdempotenceScenarios.
