(* ===== verification/FreshInstall.v ===== *)
(** * Concurrent installs complete

    Section 5 of the spec lets several [checkOrDownload] calls run at once
    (clicks of the download button), and fetchHelper.ts spawns the
    extraction tasks without awaiting them.  This file shows that,
    nevertheless, every schedule that runs all the calls and their detached
    tasks to the end has stored the archive and extracted every file entry
    with its bytes, on the in-memory vault of Vault.v, when the network
    serves the archive; a vault that refuses the writes of some paths
    (other than the archive's) still gets every other file: a failed
    extraction does not stop the others (section 4.1, best effort).

    The argument is the rely-guarantee one of Progress.v: every task writes
    only the archive or a file entry's bytes at its path ([archive_write])
    and creates only the resource folder or a directory entry's folder
    ([archive_folder]); so the vault only ever holds those
    ([only_archive]) and nodes once present stay ([grows]); and each call
    carries the obligation of each file until an extraction task of it
    finds the file or writes it.  The archive must be laid out so that
    these writes cannot collide ([archive_layout_ok], a boolean check:
    distinct file paths, none a folder or the archive, every file entry
    readable).  For any archive and any network, the same guarantee shows
    where the pipeline writes ([confined]): the entry names are joined to
    the resource folder as they are. *)

From S2P Require Import Prelude Vault Async FetchHelper Idempotence Progress.

Local Open Scope cc_scope.

(** ** The layout of the archive *)

Section Layout.
Variable E : env.
Variable entries : list ZipEntry.

Definition entry_path (e : ZipEntry) : string := basePath E </> filename e.

Definition file_entries : list ZipEntry := List.filter (fun e => negb (directory e)) entries.

Definition file_paths : list string := map entry_path file_entries.

Definition folder_paths : list string :=
  basePath E :: map entry_path (List.filter directory entries).

(** A file entry whose data the zip reader delivers. *)
Definition entry_readable (e : ZipEntry) : bool :=
  directory e || match getData e with Some (inr _) => true | _ => false end.

Definition archive_layout_ok : bool :=
  forallb entry_readable entries &&
  bool_decide (NoDup file_paths) &&
  bool_decide (zipPath E ∉ file_paths) &&
  bool_decide (zipPath E ∉ folder_paths) &&
  bool_decide (Forall (fun p => p ∉ folder_paths) file_paths).

(** What [fetchAsset] writes when every request answers: the bytes of the
    asset named "resources.zip" of the release manifest. *)
Definition served_archive (server : request -> string + response) : option bytes :=
  match server (release_request E) with
  | inr manifest =>
      match resp_assets manifest with
      | Some assets =>
          match find_asset "resources.zip" assets with
          | Some asset =>
              match server (asset_request asset) with
              | inr dataResponse => Some (resp_body dataResponse)
              | inl _ => None
              end
          | None => None
          end
      | None => None
      end
  | inl _ => None
  end.

Variable blob : bytes.

(** The writes the tasks may perform: the archive, and a file entry's
    bytes at its path. *)
Definition archive_write (p : string) (d : bytes) : Prop :=
  (p = zipPath E /\ d = blob) \/
  exists e, e ∈ entries /\ directory e = false /\ getData e = Some (inr d) /\ p = entry_path e.

(** The folders the tasks may create. *)
Definition archive_folder (p : string) : Prop := p ∈ folder_paths.

(** The vault holds nothing but the archive, its files and its folders;
    the paths of [denied] refuse writes, and writes need no parent
    folder. *)
Definition only_archive (denied : gset string) (v : MemVault) : Prop :=
  mv_denied v = denied /\ mv_strict v = false /\
  forall p n, mv_nodes v !! p = Some n ->
    match n with File d => archive_write p d | Folder => archive_folder p end.

(** The vault only gains nodes. *)
Definition grows (v v' : MemVault) : Prop :=
  mv_denied v' = mv_denied v /\ mv_strict v' = mv_strict v /\
  forall p n, mv_nodes v !! p = Some n -> mv_nodes v' !! p = Some n.

#[export] Instance grows_preorder : PreOrder grows.
Proof.
  split.
  - intros v. by split.
  - intros v1 v2 v3 (H1 & H2 & H3) (H4 & H5 & H6). split; [congruence|]. split; [congruence|].
    auto.
Qed.

Hypothesis layout : archive_layout_ok = true.

Lemma layout_facts :
  (forall e, e ∈ entries -> directory e = false -> exists d, getData e = Some (inr d)) /\
  NoDup file_paths /\ (zipPath E ∉ file_paths) /\ (zipPath E ∉ folder_paths) /\
  Forall (fun p => p ∉ folder_paths) file_paths.
Proof.
  unfold archive_layout_ok in layout. apply andb_prop in layout as [H4 H5].
  apply andb_prop in H4 as [H3 H4]. apply andb_prop in H3 as [H2 H3].
  apply andb_prop in H2 as [H1 H2]. apply bool_decide_eq_true in H2, H3, H4, H5.
  split; [|done]. intros e He Hd.
  pose proof (proj1 (forallb_forall _ _) H1 e (proj1 (list_elem_of_In _ _) He)) as H1e.
  unfold entry_readable in H1e. rewrite Hd in H1e. simpl in H1e.
  destruct (getData e) as [[|d]|]; [done|eauto|done].
Qed.

Lemma file_path_in e : e ∈ entries -> directory e = false -> entry_path e ∈ file_paths.
Proof.
  intros He Hd. apply list_elem_of_fmap_2, elem_of_List_filter. by rewrite Hd.
Qed.

Lemma archive_write_functional p d d' : archive_write p d -> archive_write p d' -> d = d'.
Proof.
  destruct layout_facts as (_ & Hnd & Hz & _).
  intros [[-> ->]|(e & He & Hd & Hg & ->)] [[Hp ->]|(e' & He' & Hd' & Hg' & Hp)]; [done| | |].
  - exfalso. apply Hz. rewrite Hp. by apply file_path_in.
  - exfalso. apply Hz. rewrite <- Hp. by apply file_path_in.
  - assert (e = e') as ->; [|congruence].
    apply (NoDup_map_inj entry_path file_entries); [exact Hnd| | |exact Hp];
      apply elem_of_List_filter; [by rewrite Hd|by rewrite Hd'].
Qed.

Lemma archive_write_not_folder p d : archive_write p d -> ~ archive_folder p.
Proof.
  destruct layout_facts as (_ & _ & _ & Hzf & Hff). unfold archive_folder.
  intros [[-> _]|(e & He & Hd & _ & ->)]; [done|].
  rewrite Forall_forall in Hff. by apply Hff, file_path_in.
Qed.
End Layout.

(** ** The vault under the writes of the pipeline *)

Section Store.
Variable E : env.
Variable entries : list ZipEntry.
Variable blob : bytes.
Hypothesis layout : archive_layout_ok E entries = true.
Variable denied : gset string.

Lemma only_archive_write s s' a d :
  only_archive E entries blob denied s -> archive_write E entries blob a d ->
  writeBinary a d s = inr s' -> only_archive E entries blob denied s' /\ grows s s'.
Proof.
  intros (Hden & Hstr & Hn) Ha Hw. apply writeBinary_inr in Hw as [_ ->].
  split; (split; [done|]); (split; [done|]); intros p n Hp; cbn in *;
    destruct (decide (p = a)) as [->|Hne].
  - rewrite lookup_insert_eq in Hp. by simplify_eq.
  - rewrite lookup_insert_ne in Hp by congruence. by apply Hn.
  - rewrite lookup_insert_eq. specialize (Hn _ _ Hp). destruct n as [|d'].
    + exfalso. by eapply archive_write_not_folder.
    + by rewrite (archive_write_functional E entries blob layout a d d').
  - by rewrite lookup_insert_ne by congruence.
Qed.

Lemma only_archive_mkdir s a :
  only_archive E entries blob denied s -> archive_folder E entries a ->
  only_archive E entries blob denied (mkdir a s) /\ grows s (mkdir a s).
Proof.
  intros (Hden & Hstr & Hn) Ha. cbn. destruct (mv_nodes s !! a) as [n0|] eqn:Ea.
  - split; [by split|reflexivity].
  - split; (split; [done|]); (split; [done|]); intros p n Hp; cbn in *;
      destruct (decide (p = a)) as [->|Hne].
    + rewrite lookup_insert_eq in Hp. by simplify_eq.
    + rewrite lookup_insert_ne in Hp by congruence. by apply Hn.
    + by rewrite Ea in Hp.
    + by rewrite lookup_insert_ne by congruence.
Qed.

Lemma grows_exists s s' a : grows s s' -> exists_ s a = true -> exists_ s' a = true.
Proof.
  intros (_ & _ & Hg). cbn. destruct (mv_nodes s !! a) as [n|] eqn:Ea; [|done].
  by rewrite (Hg _ _ Ea).
Qed.

Lemma grows_read s s' a d : grows s s' -> readBinary s a = Some d -> readBinary s' a = Some d.
Proof.
  intros (_ & _ & Hg). cbn. destruct (mv_nodes s !! a) as [n|] eqn:Ea; [|done].
  by rewrite (Hg _ _ Ea).
Qed.

(** An allowed write to a path that is not denied succeeds. *)
Lemma only_archive_write_ok s a d :
  only_archive E entries blob denied s -> archive_write E entries blob a d -> a ∉ denied ->
  exists s', writeBinary a d s = inr s'.
Proof.
  intros (Hden & Hstr & Hn) Ha Hna. cbn. rewrite Hden, bool_decide_false by done.
  unfold parent_ok. rewrite Hstr. destruct (mv_nodes s !! a) as [[|d']|] eqn:Ea; [|eauto|eauto].
  exfalso. eapply archive_write_not_folder; [done|exact Ha|]. exact (Hn _ _ Ea).
Qed.

(** A path of an allowed write that exists holds the bytes of that write. *)
Lemma only_archive_exists_read s a d :
  only_archive E entries blob denied s -> archive_write E entries blob a d ->
  exists_ s a = true -> readBinary s a = Some d.
Proof.
  intros (_ & _ & Hn) Ha. cbn. destruct (mv_nodes s !! a) as [[|d']|] eqn:Ea; [|intros _|done].
  - exfalso. eapply archive_write_not_folder; [done|exact Ha|]. exact (Hn _ _ Ea).
  - f_equal. eapply archive_write_functional; [done|exact (Hn _ _ Ea)|exact Ha].
Qed.

(** The archive path holds the archive, if anything. *)
Lemma only_archive_read_zip s d :
  only_archive E entries blob denied s -> readBinary s (zipPath E) = Some d -> d = blob.
Proof.
  intros (_ & _ & Hn). cbn. destruct (mv_nodes s !! zipPath E) as [[|d']|] eqn:Ea; [done| |done].
  intros [= <-]. eapply archive_write_functional; [done| |by left]. exact (Hn _ _ Ea).
Qed.
End Store.

(** ** The pipeline guarantees and carries the obligations *)

Section Pipeline.
Variable E : env.
Variable entries : list ZipEntry.
Variable blob : bytes.
Variable server : request -> string + response.
Variable denied : gset string.
Hypothesis layout : archive_layout_ok E entries = true.
Hypothesis serves : served_archive E server = Some blob.
Hypothesis parses : getEntries E blob = inr entries.
Hypothesis zip_allowed : zipPath E ∉ denied.

Local Abbreviation good := (only_archive E entries blob denied).
Local Abbreviation G := (guar server good (archive_write E entries blob) (archive_folder E entries)).

(** With the archive served, [fetchAsset] makes its two requests and
    writes the archive. *)
Lemma fetchAsset_serves lp :
  exists r1 k1, fetchAsset E "resources.zip" lp = RequestUrl r1 k1 /\
    exists r2 k2, k1 (server r1) = RequestUrl r2 k2 /\ k2 (server r2) = await_write lp blob Done.
Proof.
  unfold served_archive in serves. unfold fetchAsset, await_request.
  do 2 eexists. split; [reflexivity|]. cbn beta.
  destruct (server (release_request E)) as [|manifest]; [done|].
  destruct (resp_assets manifest) as [assets|]; [|done].
  destruct (find_asset "resources.zip" assets) as [asset|]; [|done].
  do 2 eexists. split; [reflexivity|]. cbn beta.
  destruct (server (asset_request asset)) as [|dr]; [done|]. by injection serves as <-.
Qed.

Lemma checkOrCreateFolder_guar p : archive_folder E entries p -> G (checkOrCreateFolder p).
Proof. intros Hp. constructor. intros []; [constructor|apply guar_mkdir; [done|constructor]]. Qed.

Lemma extractFile_guar e :
  e ∈ entries -> directory e = false -> G (extractFile (basePath E) e).
Proof.
  intros He Hd. constructor. intros []; [constructor|].
  destruct (getData e) as [[err|d]|] eqn:Hg; [constructor| |constructor].
  apply guar_write; [right; by exists e|]. intros []; constructor.
Qed.

Lemma unzip_guar : G (unzip E (zipPath E)).
Proof.
  apply guar_read. intros s Hs. unfold read_of, read_result. cbn [w_store init_world].
  destruct (readBinary s (zipPath E)) as [d|] eqn:Er; [|constructor].
  rewrite (only_archive_read_zip E entries blob layout denied s d Hs Er). cbn beta iota.
  rewrite parses. constructor; [apply checkOrCreateFolder_guar; by left|].
  apply guar_spawn_all.
  { apply List.Forall_map, Forall_forall. intros e He. apply checkOrCreateFolder_guar.
    right. exact (list_elem_of_fmap_2 (entry_path E) _ e He). }
  apply guar_spawn_all; [|constructor].
  apply List.Forall_map, Forall_forall. intros e He.
  apply elem_of_List_filter in He as [He Hd]. apply extractFile_guar; [done|].
  by destruct (directory e).
Qed.

Lemma download_guar : G (download E "resources.zip" (zipPath E)).
Proof.
  destruct (fetchAsset_serves (zipPath E)) as (r1 & k1 & H1 & r2 & k2 & H2 & H3).
  constructor. apply guar_try_catch; [|repeat constructor].
  apply guar_then; [|repeat constructor]. rewrite H1. constructor. rewrite H2.
  constructor. rewrite H3. apply guar_write; [by left|]. intros []; constructor.
Qed.

Lemma checkOrDownload_guar : G (checkOrDownload E).
Proof.
  constructor; [apply checkOrCreateFolder_guar; by left|].
  constructor. intros [].
  - constructor; [apply unzip_guar|constructor].
  - apply guar_then; [apply download_guar|]. constructor; [apply unzip_guar|constructor].
Qed.

(** [download] completes normally, with the archive stored. *)
Lemma download_fin P :
  fin server good P (download E "resources.zip" (zipPath E))
    (fun s => readBinary s (zipPath E) = Some blob).
Proof.
  destruct (fetchAsset_serves (zipPath E)) as (r1 & k1 & H1 & r2 & k2 & H2 & H3).
  apply fin_notice, fin_try_catch.
  apply (fin_then _ _ _ _ (fun s => readBinary s (zipPath E) = Some blob)).
  - rewrite H1. apply fin_request. rewrite H2. apply fin_request. rewrite H3.
    apply fin_write; [intros s Hs _; apply (only_archive_write_ok E entries blob layout denied); [done|by left|done]|].
    apply fin_done. by intros s _ [_ Hr].
  - apply fin_notice, fin_done. done.
Qed.
Local Abbreviation OBL Goal := (obl server good Goal).

(** An extraction task writes its file or finds it written. *)
Lemma extractFile_obl P e d :
  e ∈ entries -> directory e = false -> getData e = Some (inr d) -> entry_path E e ∉ denied ->
  OBL (fun s => readBinary s (entry_path E e) = Some d) P (extractFile (basePath E) e).
Proof.
  intros He Hd Hg Hna. assert (Hw : archive_write E entries blob (entry_path E e) d) by (right; eauto).
  apply obl_exists. intros [] _.
  - apply obl_goal. intros s Hs [_ Hx]. by apply (only_archive_exists_read E entries blob layout denied), Hx.
  - cbn beta iota. rewrite Hg. apply obl_write.
    + intros s Hs _. by apply (only_archive_write_ok E entries blob layout denied).
    + apply obl_goal. by intros s _ [_ Hr].
Qed.

(** [unzip] of the stored archive spawns the extraction task of every file
    entry. *)
Lemma unzip_obl Goal P e :
  e ∈ entries -> directory e = false ->
  (forall s, good s -> P s -> readBinary s (zipPath E) = Some blob) ->
  OBL Goal P (extractFile (basePath E) e) -> OBL Goal P (unzip E (zipPath E)).
Proof.
  intros He Hd Hz Ho. apply obl_read. intros s Hs HP.
  unfold read_of, read_result. cbn [w_store init_world]. rewrite (Hz s Hs HP).
  cbn beta iota. rewrite parses. apply obl_spawn_cont, obl_spawn_all_cont.
  apply (obl_spawn_all _ _ _ _ _ (extractFile (basePath E) e)); [|done].
  apply list_elem_of_fmap_2, elem_of_List_filter. by rewrite Hd.
Qed.

(** A call stores the archive (it is there, or [download] writes it) and
    then runs [unzip]. *)
Lemma checkOrDownload_obl Goal :
  (forall P, (forall s, good s -> P s -> readBinary s (zipPath E) = Some blob) ->
             OBL Goal P (Spawn (unzip E (zipPath E)) Done)) ->
  OBL Goal (fun _ => True) (checkOrDownload E).
Proof.
  intros Hu. apply obl_spawn_cont, obl_exists. intros [] _; cbn beta iota.
  - apply Hu. intros s Hs [_ Hx].
    apply (only_archive_exists_read E entries blob layout denied); [done|by left|by apply Hx].
  - apply (obl_then _ _ _ _ _ (fun s => readBinary s (zipPath E) = Some blob));
      [apply download_fin|]. apply Hu. auto.
Qed.
End Pipeline.

(** ** Every schedule installs everything *)

Section Install.
Variable E : env.
Variable entries : list ZipEntry.
Variable blob : bytes.
Variable server : request -> string + response.
Variable denied : gset string.
Hypothesis layout : archive_layout_ok E entries = true.
Hypothesis serves : served_archive E server = Some blob.
Hypothesis parses : getEntries E blob = inr entries.
Hypothesis zip_allowed : zipPath E ∉ denied.

Local Abbreviation good := (only_archive E entries blob denied).

(** A stable property every call is obliged to establish holds once all
    the calls and their tasks have finished. *)
Lemma install_goal w n c Goal :
  good (w_store w) -> stable grows Goal ->
  obl server good Goal (fun _ => True) (checkOrDownload E) ->
  steps server (Cfg w (checkOrDownload E) (replicate n (checkOrDownload E))) c -> final c ->
  Goal (w_store (c_world c)).
Proof.
  intros Hw HG Ho Hs Hf.
  apply (steps_final_goal server good grows (archive_write E entries blob)
           (archive_folder E entries) (only_archive_write E entries blob layout denied)
           (only_archive_mkdir E entries blob denied) grows_exists grows_read Goal HG
           (Cfg w (checkOrDownload E) (replicate n (checkOrDownload E))) c);
    [|exact Hs|exact Hf].
  pose proof (checkOrDownload_guar E entries blob server denied layout serves parses) as Hg.
  split; [done|]. split.
  - constructor; [done|]. by apply Forall_replicate.
  - right. exists (fun _ => True), (checkOrDownload E).
    split; [by intros|]. split; [done|]. split; [apply elem_of_cons; by left|done].
Qed.

(** C32. Liveness of concurrent installs, best effort (spec 4.1): from a
    vault holding at most the archive's own files and folders, in which
    the archive path is writable but any set [denied] of other paths may
    refuse writes, with the network serving the archive, every schedule
    that runs any number of concurrent [checkOrDownload] calls and all
    their detached tasks to the end has stored the archive and extracted
    every file entry whose path is not denied with its bytes: a refused
    extraction does not stop the others, however the calls and their
    downloads and extractions interleave. *)
Theorem concurrent_installs_complete w n c :
  only_archive E entries blob denied (w_store w) ->
  steps server (Cfg w (checkOrDownload E) (replicate n (checkOrDownload E))) c -> final c ->
  readBinary (w_store (c_world c)) (zipPath E) = Some blob /\
  forall e d, e ∈ entries -> directory e = false -> getData e = Some (inr d) ->
    entry_path E e ∉ denied ->
    readBinary (w_store (c_world c)) (entry_path E e) = Some d.
Proof.
  intros Hw Hs Hf. split.
  - apply (install_goal w n c (fun s => readBinary s (zipPath E) = Some blob) Hw); [intros ????; by eapply grows_read| |done|done].
    apply (checkOrDownload_obl E entries blob server denied layout serves parses zip_allowed).
    intros P HP. apply obl_goal. exact HP.
  - intros e d He Hd Hgd Hna.
    apply (install_goal w n c (fun s => readBinary s (entry_path E e) = Some d) Hw); [intros ????; by eapply grows_read| |done|done].
    apply (checkOrDownload_obl E entries blob server denied layout serves parses zip_allowed).
    intros P HP. apply obl_spawn_task.
    apply (unzip_obl E entries blob server denied parses _ P e He Hd HP).
    by apply (extractFile_obl E entries blob server denied layout).
Qed.
End Install.

(** ** Where the pipeline writes, whatever the archive holds *)

Section Confinement.
Variable E : env.
Variable server : request -> string + response.
(** The vault when the calls start. *)
Variable v0 : MemVault.

(** [[basePath, e.filename].join('/')] for an entry [e] of some archive
    the zip reader accepts: the name is joined as it is. *)
Definition extraction_target (p : string) : Prop :=
  exists blob entries e, getEntries E blob = inr entries /\ e ∈ entries /\
    directory e = false /\ p = basePath E </> filename e.

Definition folder_target (p : string) : Prop :=
  p = basePath E \/
  exists blob entries e, getEntries E blob = inr entries /\ e ∈ entries /\
    directory e = true /\ p = basePath E </> filename e.

(** Every node the vault gained is the archive, an extracted file or a
    created folder. *)
Definition confined (v : MemVault) : Prop :=
  forall p n, mv_nodes v !! p = Some n ->
    mv_nodes v0 !! p = Some n \/
    match n with File _ => p = zipPath E \/ extraction_target p | Folder => folder_target p end.

Local Abbreviation G :=
  (guar server confined (fun p _ => p = zipPath E \/ extraction_target p) folder_target).

Lemma confined_write s s' a d :
  confined s -> a = zipPath E \/ extraction_target a -> writeBinary a d s = inr s' ->
  confined s' /\ True.
Proof.
  intros Hc Ha Hw. apply writeBinary_inr in Hw as [_ ->]. split; [|done].
  intros p n Hp. cbn in Hp. destruct (decide (p = a)) as [->|Hne].
  - rewrite lookup_insert_eq in Hp. simplify_eq. by right.
  - rewrite lookup_insert_ne in Hp by congruence. by apply Hc.
Qed.

Lemma confined_mkdir s a : confined s -> folder_target a -> confined (mkdir a s) /\ True.
Proof.
  intros Hc Ha. split; [|done]. cbn. destruct (mv_nodes s !! a) eqn:Ea; [done|].
  intros p n Hp. cbn in Hp. destruct (decide (p = a)) as [->|Hne].
  - rewrite lookup_insert_eq in Hp. simplify_eq. by right.
  - rewrite lookup_insert_ne in Hp by congruence. by apply Hc.
Qed.

Lemma checkOrCreateFolder_confined p : folder_target p -> G (checkOrCreateFolder p).
Proof. intros Hp. constructor. intros []; [constructor|apply guar_mkdir; [done|constructor]]. Qed.

Lemma unzip_confined : G (unzip E (zipPath E)).
Proof.
  apply guar_read. intros s _. unfold read_of, read_result. cbn [w_store init_world].
  destruct (readBinary s (zipPath E)) as [blob|]; [|constructor]. cbn beta iota.
  destruct (getEntries E blob) as [err|entries] eqn:He; [constructor|].
  constructor; [apply checkOrCreateFolder_confined; by left|].
  apply guar_spawn_all.
  { apply List.Forall_map, Forall_forall. intros e Hin.
    apply elem_of_List_filter in Hin as [Hin Hd].
    apply checkOrCreateFolder_confined. right. by exists blob, entries, e. }
  apply guar_spawn_all; [|constructor].
  apply List.Forall_map, Forall_forall. intros e Hin.
  apply elem_of_List_filter in Hin as [Hin Hd]. constructor. intros []; [constructor|].
  destruct (getData e) as [[err|d]|]; [constructor| |constructor].
  apply guar_write; [|intros []; constructor].
  right. exists blob, entries, e. split; [done|]. split; [done|]. by destruct (directory e).
Qed.

Lemma download_confined : G (download E "resources.zip" (zipPath E)).
Proof.
  constructor. apply guar_try_catch; [|repeat constructor].
  apply guar_then; [|repeat constructor].
  unfold fetchAsset, await_request. constructor.
  destruct (server (release_request E)) as [err|manifest]; [constructor|]. cbn beta iota.
  destruct (resp_assets manifest) as [assets|]; [|constructor].
  destruct (find_asset "resources.zip" assets) as [asset|]; [|constructor].
  constructor. destruct (server (asset_request asset)) as [err|dr]; [constructor|].
  apply guar_write; [by left|]. intros []; constructor.
Qed.

Lemma checkOrDownload_confined : G (checkOrDownload E).
Proof.
  constructor; [apply checkOrCreateFolder_confined; by left|].
  constructor. intros [].
  - constructor; [apply unzip_confined|constructor].
  - apply guar_then; [apply download_confined|]. constructor; [apply unzip_confined|constructor].
Qed.
End Confinement.

(** No assumption on how the vault changes. *)
Definition any_change (v v' : MemVault) : Prop := True.

#[export] Instance any_change_preorder : PreOrder any_change.
Proof. split; by repeat intro. Qed.

(** C33. Where the pipeline writes: under every schedule of any number of
    concurrent [checkOrDownload] calls, whatever the network and the
    archive hold, every node the vault gains is the archive at [zipPath],
    a file at [[basePath, e.filename].join('/')] for a file entry [e] the
    zip reader returned, or a folder at [basePath] or at that join for a
    directory entry.  The entry name is joined as it is: no check keeps a
    name with [..] segments inside the resource folder. *)
Theorem extraction_writes_confined E server w n c :
  steps server (Cfg w (checkOrDownload E) (replicate n (checkOrDownload E))) c ->
  forall p nd, mv_nodes (w_store (c_world c)) !! p = Some nd ->
    mv_nodes (w_store w) !! p = Some nd \/
    match nd with
    | File _ => p = zipPath E \/ extraction_target E p
    | Folder => folder_target E p
    end.
Proof.
  intros Hs.
  assert (Hi : guar_inv server (confined E (w_store w))
                 (fun p _ => p = zipPath E \/ extraction_target E p) (folder_target E)
                 (Cfg w (checkOrDownload E) (replicate n (checkOrDownload E)))).
  { split; [intros p nd Hp; by left|].
    pose proof (checkOrDownload_confined E server (w_store w)) as Hg.
    constructor; [done|]. by apply Forall_replicate. }
  exact (proj1 (guar_inv_steps server _ any_change _ _ (confined_write E (w_store w))
                  (confined_mkdir E (w_store w)) _ _ Hi Hs)).
Qed.

Module InstallScenarios.
Import FetchHelper.Scenarios.

(** An archive with two sounds, on a vault that refuses writes to the
    first one. *)
Definition typing_bytes : bytes := [Byte.x57; Byte.x41].
Definition typing_path := ".obsidian/plugins/click-clack/resources/sounds/typing.wav".
Definition entries2 : list ZipEntry :=
  entries0 ++ [ {| filename := "sounds/typing.wav"; directory := false; getData := Some (inr typing_bytes) |} ].
Definition E2 : env := {|
  configDir := ".obsidian";
  normalizePath := fun p => p;
  plugin_version := Some "0.2.0";
  getEntries := fun b => if decide (b = zip_bytes) then inr entries2
                         else inl "Error: End of central directory record could not be found";
|}.
Definition denied_vault : MemVault := mk_vault false [key_path] [].

(** Two calls, both downloading the archive. *)
Definition c_two : config MemVault :=
  replay server0 [Main; Main; Task 1; Task 1] 300
    (Cfg (init_world denied_vault) (checkOrDownload E2) [checkOrDownload E2]).

Lemma concurrent_installs_complete_witness :
  archive_layout_ok E2 entries2 = true /\ served_archive E2 server0 = Some zip_bytes /\
  getEntries E2 zip_bytes = inr entries2 /\ (zipPath E2 ∉ mv_denied denied_vault) /\
  only_archive E2 entries2 zip_bytes (mv_denied denied_vault) (w_store (init_world denied_vault)) /\
  steps server0 (Cfg (init_world denied_vault) (checkOrDownload E2)
                     (replicate 1 (checkOrDownload E2))) c_two /\
  final c_two /\ asset_downloads (w_requests (c_world c_two)) = 2 /\
  readBinary (w_store (c_world c_two)) key_path = None /\
  readBinary (w_store (c_world c_two)) typing_path = Some typing_bytes /\
  readBinary (w_store (c_world c_two)) (zipPath E2) = Some zip_bytes /\
  (forall e d, e ∈ entries2 -> directory e = false -> getData e = Some (inr d) ->
     entry_path E2 e ∉ mv_denied denied_vault ->
     readBinary (w_store (c_world c_two)) (entry_path E2 e) = Some d).
Proof.
  assert (Hl : archive_layout_ok E2 entries2 = true) by (vm_compute; reflexivity).
  assert (Hsv : served_archive E2 server0 = Some zip_bytes) by (vm_compute; reflexivity).
  assert (Hp : getEntries E2 zip_bytes = inr entries2) by (vm_compute; reflexivity).
  assert (Hz : zipPath E2 ∉ mv_denied denied_vault) by (vm_compute; set_solver).
  assert (Hw : only_archive E2 entries2 zip_bytes (mv_denied denied_vault) (w_store (init_world denied_vault))).
  { split; [reflexivity|]. split; [reflexivity|]. intros p n Hn. cbn in Hn. by rewrite lookup_empty in Hn. }
  assert (Hs : steps server0 (Cfg (init_world denied_vault) (checkOrDownload E2)
                                  (replicate 1 (checkOrDownload E2))) c_two)
    by apply replay_sound.
  assert (Hf : final c_two) by (vm_compute; split; [discriminate|reflexivity]).
  do 7 (split; [assumption|]). do 3 (split; [vm_compute; reflexivity|]).
  exact (concurrent_installs_complete E2 entries2 zip_bytes server0 _ Hl Hsv Hp Hz _ 1 c_two Hw Hs Hf).
Defined.
(** An archive whose entry name climbs out of the resource folder: the
    joined path [.obsidian/plugins/click-clack/resources/../../../../../evil.js]
    names a file beside the vault. *)
Definition evil_bytes : bytes := [Byte.x65].
Definition slip_entries : list ZipEntry :=
  [ {| filename := "../../../../../evil.js"; directory := false; getData := Some (inr evil_bytes) |} ].
Definition E_slip : env := {|
  configDir := ".obsidian";
  normalizePath := fun p => p;
  plugin_version := Some "0.2.0";
  getEntries := fun _ => inr slip_entries;
|}.
Definition slip_path : string := ".obsidian/plugins/click-clack/resources/../../../../../evil.js".
Definition c_slip : config MemVault :=
  replay server_offline [] 300 (Cfg (init_world cached_vault) (checkOrDownload E_slip) []).

Lemma extraction_writes_confined_witness :
  steps server_offline (Cfg (init_world cached_vault) (checkOrDownload E_slip)
                            (replicate 0 (checkOrDownload E_slip))) c_slip /\
  final c_slip /\
  mv_nodes (w_store (init_world cached_vault)) !! slip_path = None /\
  mv_nodes (w_store (c_world c_slip)) !! slip_path = Some (File evil_bytes) /\
  (mv_nodes (w_store (init_world cached_vault)) !! slip_path = Some (File evil_bytes) \/
   slip_path = zipPath E_slip \/ extraction_target E_slip slip_path).
Proof.
  assert (Hs : steps server_offline (Cfg (init_world cached_vault) (checkOrDownload E_slip)
                                         (replicate 0 (checkOrDownload E_slip))) c_slip)
    by apply replay_sound.
  assert (Hn : mv_nodes (w_store (c_world c_slip)) !! slip_path = Some (File evil_bytes))
    by (vm_compute; reflexivity).
  split; [exact Hs|]. split; [vm_compute; split; [discriminate|reflexivity]|].
  split; [vm_compute; reflexivity|]. split; [exact Hn|].
  exact (extraction_writes_confined E_slip server_offline _ 0 c_slip Hs slip_path _ Hn).
Defined.
End InstallScenarios.
