(* ===== verification/Dispatch.v ===== *)
(** * Channel dispatch: the keydown handler of src/src/main.ts

    The five channels of the [Sounds] interface (main.ts lines 10-16), the
    keyboard event, and the handler registered in [onload] (lines 44-54):
    three modifier guards, the redundant alt guard, the table lookup
    [DEFAULT_MAP[evt.code]] and the truthiness test on the sound.  The
    handler is proved equal to the guard-free specification of section 4.4
    of the spec ([dispatch_spec]).

    The table [DEFAULT_MAP] lives in keySoundMap.ts, which is not in the
    repository; the handler is proved for any table, and [DEFAULT_MAP] below
    is a table built from the requirements of section 4.4. *)

From S2P Require Import Prelude.

(** [keyof Sounds]: the five channels, in the declaration order of the
    interface (the order of [for (const key in this.sounds)]). *)
Inductive channel := Key | Key2 | Enter | Space | Delete.

#[export] Instance channel_eq_dec : EqDecision channel.
Proof. solve_decision. Defined.

Definition channels : list channel := [Key; Key2; Enter; Space; Delete].

(** [interface Sounds { key; key2; enter; space; delete }]: a handle per
    channel; [None] is a sound whose value is [undefined] (falsy for the
    keydown listener, a TypeError for the loops over the set). *)
Record Sounds (H : Type) := {
  s_key : option H; s_key2 : option H; s_enter : option H;
  s_space : option H; s_delete : option H;
}.
Arguments s_key {_}. Arguments s_key2 {_}. Arguments s_enter {_}.
Arguments s_space {_}. Arguments s_delete {_}.

(** [this.sounds[soundKey]] *)
Definition sound_of {H} (s : Sounds H) (c : channel) : option H :=
  match c with
  | Key => s_key s | Key2 => s_key2 s | Enter => s_enter s
  | Space => s_space s | Delete => s_delete s
  end.

(** The fields of [KeyboardEvent] the handler reads. *)
Record KeyboardEvent := {
  code : string; ctrlKey : bool; metaKey : bool; altKey : bool; shiftKey : bool;
}.

Section Handler.
Context {H : Type}.
(** [DEFAULT_MAP[code]]: the channel of a physical key, if any. *)
Variable keymap : string -> option channel.

(** The handler: the handle it plays, or [None] when it returns early. *)
Definition onKeydown (enabled : bool) (sounds : Sounds H) (evt : KeyboardEvent) : option H :=
  if negb enabled then None
  else if ctrlKey evt then None
  else if metaKey evt then None
  else if altKey evt && negb (ctrlKey evt) && negb (metaKey evt) then None
  else match keymap (code evt) with
       | None => None
       | Some soundKey => sound_of sounds soundKey
       end.

(** Section 4.4 of the spec, without the code's redundant guard: enabled,
    no control, command or alt key held, a mapped key, a present sound. *)
Definition dispatch_spec (enabled : bool) (sounds : Sounds H) (evt : KeyboardEvent)
    : option H :=
  if enabled && negb (ctrlKey evt || metaKey evt || altKey evt)
  then keymap (code evt) ≫= sound_of sounds
  else None.
End Handler.

(** ** A key table meeting the requirements of section 4.4 *)

Definition letters_left : list string :=
  ["KeyQ"; "KeyW"; "KeyE"; "KeyR"; "KeyT"; "KeyA"; "KeyS"; "KeyD"; "KeyF"; "KeyG";
   "KeyZ"; "KeyX"; "KeyC"; "KeyV"; "KeyB"].
Definition letters_right : list string :=
  ["KeyY"; "KeyU"; "KeyI"; "KeyO"; "KeyP"; "KeyH"; "KeyJ"; "KeyK"; "KeyL";
   "KeyN"; "KeyM"].
Definition digits : list string :=
  ["Digit0"; "Digit1"; "Digit2"; "Digit3"; "Digit4"; "Digit5"; "Digit6"; "Digit7";
   "Digit8"; "Digit9"].
Definition punctuation : list string :=
  ["Backquote"; "Minus"; "Equal"; "BracketLeft"; "BracketRight"; "Backslash";
   "Semicolon"; "Quote"; "Comma"; "Period"; "Slash"].

Definition DEFAULT_MAP (c : string) : option channel :=
  if bool_decide (c ∈ letters_left ++ digits) then Some Key
  else if bool_decide (c ∈ letters_right ++ punctuation) then Some Key2
  else if bool_decide (c ∈ ["Enter"; "NumpadEnter"]) then Some Enter
  else if String.eqb c "Space" then Some Space
  else if bool_decide (c ∈ ["Backspace"; "Delete"]) then Some Delete
  else None.

(** ** The handler meets section 4.4 *)

(** C5. For every key table, the handler of main.ts returns exactly what
    section 4.4 of the spec prescribes: nothing when disabled or when
    control, command or alt is held (the code's second alt test is implied
    by the first two), otherwise the sound of the mapped channel, if the
    key is mapped and the sound present.  Shift does not matter. *)
Theorem onKeydown_refines_spec {H} (keymap : string -> option channel) enabled
    (sounds : Sounds H) evt :
  onKeydown keymap enabled sounds evt = dispatch_spec keymap enabled sounds evt.
Proof.
  unfold onKeydown, dispatch_spec.
  destruct enabled, (ctrlKey evt), (metaKey evt), (altKey evt); simpl; try done.
Qed.
