(* ===== verification/Plugin.v ===== *)
(** * The plugin: src/src/main.ts and src/src/SettingTab.ts

    [ClickClackPlugin] keeps the settings and the active sound set; the
    setting tab mutates them.  The audio back end (howler) is a map of
    handles ([Howl]: volume, overlapping playbacks, loaded flag).  The
    scheme catalogue [SchemeHelper] and the default sounds and settings are
    not in the repository: [loadScheme], the default sounds ([plugin_new]),
    [DEFAULT_SETTINGS_V1] are modelled from sections 3 and 6 of the spec.

    Every handler is a function on the plugin state [Plugin]; the loops
    [for (const key in this.sounds)] and [Object.keys(sounds).forEach] are
    [each_sound], which throws (TypeError) on a missing sound after the
    updates already made.  The scheme dropdown handler awaits [loadScheme]
    between setting [activeScheme] and installing the sounds, and so does
    [onload] after registering the setting tab: each is split in two
    events, the pending loads are listed with what resumes after them, and
    [pstep] lets keydowns and other handlers run in between (section 5 of
    the spec).  [start_state] is the plugin with [onload]'s load pending;
    [loaded_state] the plugin once [onload] has finished. *)

From S2P Require Import Prelude Dispatch.
From Stdlib Require Import QArith_base.
Local Open Scope nat_scope.

(** ** Data *)

(** A howler sound: the scheme and load generation it was created for, its
    channel, its volume (0..1), the playbacks in progress and whether it is
    loaded. *)
Record Howl := {
  h_scheme : string;
  h_gen : nat;
  h_channel : channel;
  h_volume : Q;
  h_playing : nat;
  h_loaded : bool;
}.

(** A scheme of the catalogue. *)
Record Scheme := { scheme_id : string; scheme_name : string }.

(** [ClickClackSettings]; [volumn] (sic) may be undefined. *)
Record ClickClackSettings := {
  enabled : bool;
  volumn : option Z;
  activeScheme : Scheme;
}.

(** What [saveData] persisted (JSON: an undefined field is dropped) and
    [loadData] returns: each field may be absent. *)
Record StoredSettings := {
  st_enabled : option bool;
  st_volumn : option Z;
  st_activeScheme : option Scheme;
}.

Record Plugin := {
  settings : ClickClackSettings;
  sounds : Sounds nat;
  audio : gmap nat Howl;
  next_gen : nat;
  data : option StoredSettings;
}.

(** ** Modelled from the spec: defaults and the catalogue *)

Definition defaultScheme : Scheme := {| scheme_id := "default"; scheme_name := "Default" |}.

Definition DEFAULT_SETTINGS_V1 : ClickClackSettings :=
  {| enabled := true; volumn := None; activeScheme := defaultScheme |}.

(** The handle of channel [c] in load generation [g]. *)
Definition handle_id (g : nat) (c : channel) : nat :=
  5 * g + match c with Key => 0 | Key2 => 1 | Enter => 2 | Space => 3 | Delete => 4 end.

Definition gen_sounds (g : nat) : Sounds nat :=
  {| s_key := Some (handle_id g Key); s_key2 := Some (handle_id g Key2);
     s_enter := Some (handle_id g Enter); s_space := Some (handle_id g Space);
     s_delete := Some (handle_id g Delete) |}.

Definition new_howl (sid : string) (g : nat) (c : channel) : Howl :=
  {| h_scheme := sid; h_gen := g; h_channel := c; h_volume := 1%Q; h_playing := 0;
     h_loaded := true |}.

Definition alloc_set (sid : string) (g : nat) (a : gmap nat Howl) : gmap nat Howl :=
  foldr (fun c a => <[handle_id g c := new_howl sid g c]> a) a channels.

(** [schemeHelper.loadScheme(scheme)]: five fresh loaded handles of a new
    generation, created for the scheme. *)
Definition loadScheme (scheme : Scheme) (p : Plugin) : Sounds nat * Plugin :=
  (gen_sounds (next_gen p),
   {| settings := settings p; sounds := sounds p;
      audio := alloc_set (scheme_id scheme) (next_gen p) (audio p); next_gen := S (next_gen p);
      data := data p |}).
Arguments loadScheme : simpl never.

(** The catalogue's lookup [getScheme(id)]. *)
Section Catalogue.
Variable getScheme : string -> option Scheme.

(** ** main.ts *)

Definition set_settings (s : ClickClackSettings) (p : Plugin) : Plugin :=
  {| settings := s; sounds := sounds p; audio := audio p; next_gen := next_gen p;
     data := data p |}.
Definition set_sounds (s : Sounds nat) (p : Plugin) : Plugin :=
  {| settings := settings p; sounds := s; audio := audio p; next_gen := next_gen p;
     data := data p |}.
Definition set_audio (a : gmap nat Howl) (p : Plugin) : Plugin :=
  {| settings := settings p; sounds := sounds p; audio := a; next_gen := next_gen p;
     data := data p |}.

(** [constructor]: [this.sounds = defaultSounds] (generation 0, created
    when defaultSound.ts is loaded), with the plugin's data file [stored].
    [this.settings] is still undefined there: every handler runs after
    [onload], whose [loadSettings] assigns it, so any value will do. *)
Definition plugin_new (stored : option StoredSettings) : Plugin :=
  {| settings := DEFAULT_SETTINGS_V1; sounds := gen_sounds 0; audio := alloc_set "default" 0 ∅;
     next_gen := 1; data := stored |}.

(** JSON of the settings, for [saveData]. *)
Definition store_settings (s : ClickClackSettings) : StoredSettings :=
  {| st_enabled := Some (enabled s); st_volumn := volumn s;
     st_activeScheme := Some (activeScheme s) |}.

(** [Object.assign({}, DEFAULT_SETTINGS_V1, await this.loadData())] *)
Definition merge_settings (d : ClickClackSettings) (o : option StoredSettings)
    : ClickClackSettings :=
  match o with
  | None => d
  | Some st =>
      {| enabled := default (enabled d) (st_enabled st);
         volumn := match st_volumn st with Some v => Some v | None => volumn d end;
         activeScheme := default (activeScheme d) (st_activeScheme st) |}
  end.

Definition loadSettings (p : Plugin) : Plugin :=
  set_settings (merge_settings DEFAULT_SETTINGS_V1 (data p)) p.

Definition saveSettings (p : Plugin) : Plugin :=
  {| settings := settings p; sounds := sounds p; audio := audio p;
     next_gen := next_gen p; data := Some (store_settings (settings p)) |}.

(** [onload] up to [await this.schemeHelper.loadScheme(..)]: the settings
    are loaded (the setting tab is registered), and the active scheme's
    sounds are being loaded. *)
Definition onload_begin (p : Plugin) : Sounds nat * Plugin :=
  let p1 := loadSettings p in loadScheme (activeScheme (settings p1)) p1.

(** ... and after it: [this.sounds = ..] (the listener and the commands are
    registered then). *)
Definition onload_end (loaded : Sounds nat) (p : Plugin) : Plugin := set_sounds loaded p.

(** [onload] run to its end. *)
Definition onload (p : Plugin) : Plugin :=
  let r := onload_begin p in onload_end (fst r) (snd r).

(** [h.play()]: one more overlapping playback. *)
Definition play (h : Howl) : Howl :=
  {| h_scheme := h_scheme h; h_gen := h_gen h; h_channel := h_channel h; h_volume := h_volume h;
     h_playing := S (h_playing h); h_loaded := h_loaded h |}.
Definition stop (h : Howl) : Howl :=
  {| h_scheme := h_scheme h; h_gen := h_gen h; h_channel := h_channel h; h_volume := h_volume h;
     h_playing := 0; h_loaded := h_loaded h |}.
Definition unload (h : Howl) : Howl :=
  {| h_scheme := h_scheme h; h_gen := h_gen h; h_channel := h_channel h; h_volume := h_volume h;
     h_playing := 0; h_loaded := false |}.
Definition set_volume (v : Q) (h : Howl) : Howl :=
  {| h_scheme := h_scheme h; h_gen := h_gen h; h_channel := h_channel h; h_volume := v;
     h_playing := h_playing h; h_loaded := h_loaded h |}.

Variable keymap : string -> option channel.

(** The keydown listener registered in [onload]. *)
Definition keydown (evt : KeyboardEvent) (p : Plugin) : Plugin :=
  match onKeydown keymap (enabled (settings p)) (sounds p) evt with
  | Some h => set_audio (alter play h (audio p)) p
  | None => p
  end.

(** [for (const key in this.sounds) this.sounds[key].f()]: the state after
    the updates made, and the TypeError of a missing sound. *)
Fixpoint each_sound (f : Howl -> Howl) (ks : list channel) (p : Plugin)
    : Plugin * option string :=
  match ks with
  | [] => (p, None)
  | k :: ks' =>
      match sound_of (sounds p) k with
      | Some h => each_sound f ks' (set_audio (alter f h (audio p)) p)
      | None => (p, Some "TypeError: Cannot read properties of undefined")
      end
  end.

Definition stopSounds (p : Plugin) : Plugin * option string := each_sound stop channels p.
Definition unloadSounds (p : Plugin) : Plugin * option string := each_sound unload channels p.
Definition onunload (p : Plugin) : Plugin * option string := unloadSounds p.

(** [toggleSound(targetState)] *)
Definition toggleSound (target : bool) (p : Plugin) : Plugin :=
  saveSettings (set_settings {| enabled := target; volumn := volumn (settings p);
                                activeScheme := activeScheme (settings p) |} p).

(** [refreshSounds()] *)
Definition refreshSounds (p : Plugin) : Plugin :=
  let r := loadScheme (activeScheme (settings p)) p in set_sounds (fst r) (snd r).

(** The two commands' [checkCallback(checking)]. *)
Definition enableCommand (checking : bool) (p : Plugin) : bool * Plugin :=
  if checking then (negb (enabled (settings p)), p) else (true, toggleSound true p).
Definition disableCommand (checking : bool) (p : Plugin) : bool * Plugin :=
  if checking then (enabled (settings p), p) else (true, toggleSound false p).

(** ** SettingTab.ts *)

(** The sound toggle's [onChange(value)]. *)
Definition onToggleChange (value : bool) (p : Plugin) : Plugin :=
  saveSettings (set_settings {| enabled := value; volumn := volumn (settings p);
                                activeScheme := activeScheme (settings p) |} p).

(** The volume slider's [onChange(value)]: the setting, then every sound's
    volume [value / 100], then the save (skipped when a sound is missing:
    the handler throws before it). *)
Definition onVolumeChange (value : Z) (p : Plugin) : Plugin * option string :=
  let p1 := set_settings {| enabled := enabled (settings p); volumn := Some value;
                            activeScheme := activeScheme (settings p) |} p in
  match each_sound (set_volume (Qmake value 100)) channels p1 with
  | (p2, None) => (saveSettings p2, None)
  | (p2, Some e) => (p2, Some e)
  end.

(** The slider's initial value: [settings.volumn ?? 100]. *)
Definition slider_value (p : Plugin) : Z := default 100%Z (volumn (settings p)).

(** The scheme dropdown's [onChange(value)], up to [await loadScheme]:
    the scheme is looked up ([?? defaultScheme]), made active, and its
    sounds are being loaded.  The earlier [await getScheme(value)] changes
    no state: another handler running there is the same as this one
    starting later, so the two are one event. *)
Definition onSchemeChange_begin (value : string) (p : Plugin) : Sounds nat * Plugin :=
  let scheme := default defaultScheme (getScheme value) in
  loadScheme scheme (set_settings {| enabled := enabled (settings p);
                                     volumn := volumn (settings p); activeScheme := scheme |} p).

(** ... and after it: the loaded sounds are installed, then saved. *)
Definition onSchemeChange_end (loaded : Sounds nat) (p : Plugin) : Plugin :=
  saveSettings (set_sounds loaded p).
End Catalogue.

(** ** The event loop *)

(** What runs when a scheme load completes: the rest of [onload], or the
    rest of the dropdown's [onChange]. *)
Inductive resume := ResumeOnload | ResumeScheme.

Definition resume_load (r : resume) (loaded : Sounds nat) (p : Plugin) : Plugin :=
  match r with
  | ResumeOnload => onload_end loaded p
  | ResumeScheme => onSchemeChange_end loaded p
  end.

(** The plugin and the scheme loads begun and not yet installed. *)
Record PState := PS { ps_plugin : Plugin; ps_pending : list (Sounds nat * resume) }.

Section Events.
Variable getScheme : string -> option Scheme.
Variable keymap : string -> option channel.

(** One handler runs (to its end, or to the [await] of a scheme load), on
    the single thread of the host.  The keydown listener and the commands
    exist only once [onload] has finished, and [refreshSounds] and
    [stopSounds] are public methods no code of the repository calls; the
    relation allows them all in every state, which only adds states to
    the ones the invariants below are proved for.  [refreshSounds] is one
    event, run to its end: the interleavings at its [await loadScheme]
    belong to a caller the repository does not have. *)
Inductive pstep : PState -> PState -> Prop :=
| pstep_keydown p l evt : pstep (PS p l) (PS (keydown keymap evt p) l)
| pstep_toggle p l b : pstep (PS p l) (PS (onToggleChange b p) l)
| pstep_enable p l : pstep (PS p l) (PS (snd (enableCommand false p)) l)
| pstep_disable p l : pstep (PS p l) (PS (snd (disableCommand false p)) l)
(** The slider only reports values within its limits
    [setLimits(0.0, 100, 1.0)] (SettingTab.ts line 38). *)
| pstep_volume p l v : (0 <= v <= 100)%Z -> pstep (PS p l) (PS (fst (onVolumeChange v p)) l)
| pstep_refresh p l : pstep (PS p l) (PS (refreshSounds p) l)
| pstep_stop p l : pstep (PS p l) (PS (fst (stopSounds p)) l)
| pstep_scheme_begin p l value s p' :
    onSchemeChange_begin getScheme value p = (s, p') ->
    pstep (PS p l) (PS p' (l ++ [(s, ResumeScheme)]))
| pstep_load_end p l1 s r l2 :
    pstep (PS p (l1 ++ (s, r) :: l2)) (PS (resume_load r s p) (l1 ++ l2)).

(** The state after [new ClickClackPlugin(..)] and [onload()] up to its
    scheme load, for a data file [stored]: the setting tab already works. *)
Definition start_state (stored : option StoredSettings) : PState :=
  let r := onload_begin (plugin_new stored) in PS (snd r) [(fst r, ResumeOnload)].

(** The state after [new ClickClackPlugin(..)] and [onload()], for a
    data file [stored]. *)
Definition loaded_state (stored : option StoredSettings) : PState :=
  PS (onload (plugin_new stored)) [].
End Events.

(** ** Invariant: the sound set is one complete load generation *)

(** The five handles of generation [g] exist, each of its own channel. *)
Definition set_allocated (a : gmap nat Howl) (g : nat) : Prop :=
  forall c, exists hw, a !! handle_id g c = Some hw /\ h_gen hw = g /\ h_channel hw = c.

Definition complete_set (p : Plugin) (s : Sounds nat) : Prop :=
  exists g, g < next_gen p /\ s = gen_sounds g /\ set_allocated (audio p) g.

Definition one_generation (st : PState) : Prop :=
  complete_set (ps_plugin st) (sounds (ps_plugin st)) /\
  Forall (fun ld => complete_set (ps_plugin st) ld.1) (ps_pending st).

Lemma handle_id_inj g c g' c' : handle_id g c = handle_id g' c' -> g = g' /\ c = c'.
Proof.
  unfold handle_id. intros Heq.
  destruct c, c'; (split; [lia|]); first [reflexivity | exfalso; lia].
Qed.

Lemma handle_id_ne_gen g c g' c' : g <> g' -> handle_id g c <> handle_id g' c'.
Proof. intros Hne Heq. apply handle_id_inj in Heq as [? _]. done. Qed.

Lemma handle_id_ne_chan g c c' : c <> c' -> handle_id g c <> handle_id g c'.
Proof. intros Hne Heq. apply handle_id_inj in Heq as [_ ?]. done. Qed.

Lemma alloc_set_new sid g a c : alloc_set sid g a !! handle_id g c = Some (new_howl sid g c).
Proof.
  unfold alloc_set, channels. cbn [foldr].
  destruct c; repeat (rewrite lookup_insert_eq || rewrite lookup_insert_ne
    by (apply handle_id_ne_chan; discriminate)); done.
Qed.

Lemma alloc_set_old sid g a h : (forall c, h <> handle_id g c) -> alloc_set sid g a !! h = a !! h.
Proof.
  intros Hh. unfold alloc_set, channels. cbn [foldr].
  by repeat rewrite lookup_insert_ne by (intros Heq; exact (Hh _ (eq_sym Heq))).
Qed.

Lemma set_allocated_alloc_old sid g g' a :
  g' <> g -> set_allocated a g' -> set_allocated (alloc_set sid g a) g'.
Proof.
  intros Hne Ha c. destruct (Ha c) as (hw & Hl & Hg & Hc). exists hw.
  rewrite alloc_set_old; [done|]. intros c' Heq. by eapply handle_id_ne_gen; [|exact Heq].
Qed.

Lemma set_allocated_alloc_new sid g a : set_allocated (alloc_set sid g a) g.
Proof. intros c. eexists. rewrite alloc_set_new. done. Qed.

(** Updates that keep the generation and channel of a handle. *)
Definition keeps_identity (f : Howl -> Howl) : Prop :=
  forall hw, h_gen (f hw) = h_gen hw /\ h_channel (f hw) = h_channel hw.

Lemma play_keeps : keeps_identity play. Proof. done. Qed.
Lemma stop_keeps : keeps_identity stop. Proof. done. Qed.
Lemma unload_keeps : keeps_identity unload. Proof. done. Qed.
Lemma set_volume_keeps v : keeps_identity (set_volume v). Proof. done. Qed.

#[export] Hint Resolve play_keeps stop_keeps unload_keeps set_volume_keeps : cc.

Lemma set_allocated_alter f h a g :
  keeps_identity f -> set_allocated a g -> set_allocated (alter f h a) g.
Proof.
  intros Hf Ha c. destruct (Ha c) as (hw & Hl & Hg & Hc).
  destruct (decide (h = handle_id g c)) as [->|Hne].
  - exists (f hw). rewrite lookup_alter_eq, Hl. destruct (Hf hw). split; [done|]. by split; congruence.
  - exists hw. by rewrite lookup_alter_ne.
Qed.

Lemma complete_set_alter f h p s :
  keeps_identity f -> complete_set p s -> complete_set (set_audio (alter f h (audio p)) p) s.
Proof.
  intros Hf (g & Hlt & -> & Ha). exists g. split; [done|]. split; [done|].
  by apply set_allocated_alter.
Qed.

(** [each_sound] over a complete set: no error, one update of each of the
    five handles, nothing else touched. *)
Lemma each_sound_gen f ks p g :
  sounds p = gen_sounds g -> NoDup ks ->
  each_sound f ks p =
    (set_audio (foldl (fun a c => alter f (handle_id g c) a) (audio p) ks) p, None).
Proof.
  intros Hs Hnd. revert p Hs. induction Hnd as [|k ks Hk Hnd IH]; intros p Hs; simpl.
  - by destruct p.
  - rewrite Hs. destruct k; simpl; rewrite IH by done; done.
Qed.

Lemma foldl_alter_lookup (f : Howl -> Howl) g (ks : list channel) (a : gmap nat Howl) c :
  NoDup ks ->
  foldl (fun a c => alter f (handle_id g c) a) a ks !! handle_id g c =
    if bool_decide (c ∈ ks) then f <$> a !! handle_id g c else a !! handle_id g c.
Proof.
  intros Hnd. revert a. induction Hnd as [|k ks Hk Hnd IH]; intros a; simpl; [done|].
  rewrite IH. destruct (decide (c = k)) as [->|Hne].
  - rewrite (bool_decide_false (k ∈ ks)) by done.
    rewrite bool_decide_true by apply list_elem_of_here. by rewrite lookup_alter_eq.
  - rewrite lookup_alter_ne by (apply handle_id_ne_chan; congruence).
    rewrite (bool_decide_ext (c ∈ k :: ks) (c ∈ ks)); [done|].
    rewrite elem_of_cons. split; [intros [?|?]; [congruence|done]|by right].
Qed.

Lemma foldl_alter_other (f : Howl -> Howl) g (ks : list channel) (a : gmap nat Howl) h :
  (forall c, h <> handle_id g c) ->
  foldl (fun a c => alter f (handle_id g c) a) a ks !! h = a !! h.
Proof.
  intros Hh. revert a. induction ks as [|k ks IH]; intros a; simpl; [done|].
  rewrite IH. by rewrite lookup_alter_ne.
Qed.

Lemma channels_NoDup : NoDup channels.
Proof. apply (bool_decide_unpack _). reflexivity. Qed.

Lemma elem_of_channels c : c ∈ channels.
Proof. apply list_elem_of_In. destruct c; simpl; tauto. Qed.

Lemma complete_set_same p p' s :
  audio p' = audio p -> next_gen p' = next_gen p -> complete_set p s -> complete_set p' s.
Proof. intros Ha Hn (g & Hlt & Hs & Hal). exists g. rewrite Ha, Hn. done. Qed.

Lemma each_sound_complete f ks p s :
  keeps_identity f -> complete_set p s ->
  complete_set (fst (each_sound f ks p)) s /\ sounds (fst (each_sound f ks p)) = sounds p.
Proof.
  intros Hf. revert p. induction ks as [|k ks IH]; intros p Hc; simpl; [done|].
  destruct (sound_of (sounds p) k) as [h|]; [|done].
  destruct (IH (set_audio (alter f h (audio p)) p)) as [H1 H2];
    [by apply complete_set_alter|]. done.
Qed.

Lemma loadScheme_complete sch p :
  complete_set (snd (loadScheme sch p)) (fst (loadScheme sch p)) /\
  (forall s, complete_set p s -> complete_set (snd (loadScheme sch p)) s) /\
  sounds (snd (loadScheme sch p)) = sounds p.
Proof.
  split; [|split; [|done]].
  - exists (next_gen p). split; [simpl; lia|]. split; [done|]. apply set_allocated_alloc_new.
  - intros s (g & Hlt & -> & Ha). exists g. split; [simpl; lia|]. split; [done|].
    apply set_allocated_alloc_old; [lia|done].
Qed.

(** The volume handler keeps every complete set complete, and the sounds. *)
Lemma onVolumeChange_complete v p s :
  complete_set p s ->
  complete_set (fst (onVolumeChange v p)) s /\ sounds (fst (onVolumeChange v p)) = sounds p.
Proof.
  intros Hc. unfold onVolumeChange.
  match goal with |- context [each_sound ?f ?ks ?p1] =>
    destruct (each_sound_complete f ks p1 s (set_volume_keeps _)) as [Hc2 Hs2];
      [by eapply complete_set_same|];
    destruct (each_sound f ks p1) as [p2 [e|]]
  end; simpl in *; [done|]. split; [by eapply complete_set_same|done].
Qed.

Section EventInvariant.
Variable getScheme : string -> option Scheme.
Variable keymap : string -> option channel.

Lemma pstep_one_generation st st' :
  one_generation st -> pstep getScheme keymap st st' -> one_generation st'.
Proof.
  intros [Hc Hl] Hs. destruct Hs as [p l evt|p l b|p l|p l|p l v _|p l|p l|p l value s p' E
                                     |p l1 s r l2]; unfold one_generation; simpl in *.
  - unfold keydown. destruct (onKeydown _ _ _ _); [|done].
    split; [apply complete_set_alter; [exact play_keeps|exact Hc]|].
    eapply Forall_impl; [exact Hl|]. intros s Hs.
    apply complete_set_alter; [exact play_keeps|exact Hs].
  - split; [by eapply complete_set_same|]. eapply Forall_impl; [exact Hl|].
    intros s Hs. by eapply complete_set_same.
  - split; [by eapply complete_set_same|]. eapply Forall_impl; [exact Hl|].
    intros s Hs. by eapply complete_set_same.
  - split; [by eapply complete_set_same|]. eapply Forall_impl; [exact Hl|].
    intros s Hs. by eapply complete_set_same.
  - destruct (onVolumeChange_complete v p _ Hc) as [Hc2 Hs2].
    split; [by rewrite Hs2|].
    eapply Forall_impl; [exact Hl|]. intros s Hs. by apply onVolumeChange_complete.
  - unfold refreshSounds.
    destruct (loadScheme_complete (activeScheme (settings p)) p) as (Hn & Ho & _).
    split; [by eapply complete_set_same|].
    eapply Forall_impl; [exact Hl|]. intros s' Hs'.
    eapply complete_set_same; [done|done|by apply Ho].
  - unfold stopSounds.
    pose proof (each_sound_complete stop channels p (sounds p) stop_keeps Hc) as [Hc2 Hs2].
    split; [rewrite Hs2; exact Hc2|].
    eapply Forall_impl; [exact Hl|]. intros s Hs. by apply each_sound_complete; [apply stop_keeps|].
  - unfold onSchemeChange_begin in E.
    set (p0 := set_settings _ p) in E.
    destruct (loadScheme_complete (default defaultScheme (getScheme value)) p0)
      as (Hn & Ho & Hs).
    rewrite E in Hn, Ho, Hs. simpl in *. rewrite Hs.
    split; [apply Ho; by eapply complete_set_same|].
    apply Forall_app. split; [|by constructor].
    eapply Forall_impl; [exact Hl|]. intros s' Hs'. apply Ho. by eapply complete_set_same.
  - apply Forall_app in Hl as [H1 H2]. apply Forall_cons in H2 as [Hs H2].
    destruct r; simpl in *; (split; [by eapply complete_set_same|]).
    all: 
apply Forall_app; split; eapply Forall_impl; try eassumption;
      intros s' Hs'; by eapply complete_set_same.
Qed.

Lemma start_state_one_generation stored : one_generation (start_state stored).
Proof.
  split; [|repeat constructor].
  - exists 0. split; [simpl; lia|]. split; [done|].
    apply set_allocated_alloc_old; [simpl; lia|]. apply set_allocated_alloc_new.
  - exists 1. split; [simpl; lia|]. split; [done|]. apply set_allocated_alloc_new.
Qed.

(** [onload] finishing is one step from the start. *)
Lemma start_to_loaded stored : pstep getScheme keymap (start_state stored) (loaded_state stored).
Proof.
  exact (pstep_load_end getScheme keymap (snd (onload_begin (plugin_new stored))) []
           (fst (onload_begin (plugin_new stored))) ResumeOnload []).
Qed.

Lemma rtc_one_generation st st' :
  rtc (pstep getScheme keymap) st st' -> one_generation st -> one_generation st'.
Proof. induction 1; eauto using pstep_one_generation. Qed.
End EventInvariant.

Section PluginProperties.
Variable getScheme : string -> option Scheme.
Variable keymap : string -> option channel.

(** C4. Atomic swap: in every state reachable from the plugin's start
    (its [onload] still loading the active scheme), by
    any interleaving of keydowns, setting changes, refreshes and scheme
    changes suspended at their [await], the sound set is the complete set
    of one load generation, and a keydown plays a handle of that
    generation, of the channel it was looked up for: never a mix of an
    old and a new set. *)
Theorem keydown_sees_one_generation stored st evt h :
  rtc (pstep getScheme keymap) (start_state stored) st ->
  onKeydown keymap (enabled (settings (ps_plugin st))) (sounds (ps_plugin st)) evt = Some h ->
  exists g c hw, sounds (ps_plugin st) = gen_sounds g /\ keymap (code evt) = Some c /\
    h = handle_id g c /\ audio (ps_plugin st) !! h = Some hw /\ h_gen hw = g /\
    h_channel hw = c.
Proof.
  intros Hr Hk.
  destruct (rtc_one_generation getScheme keymap _ _ Hr (start_state_one_generation stored))
    as [(g & _ & Hs & Ha) _].
  unfold onKeydown in Hk. rewrite Hs in Hk.
  destruct (enabled (settings (ps_plugin st))), (ctrlKey evt), (metaKey evt), (altKey evt);
    simpl in Hk; try discriminate.
  destruct (keymap (code evt)) as [c|] eqn:Ec; [|discriminate].
  destruct (Ha c) as (hw & Hl & Hg & Hc).
  exists g, c, hw. destruct c; simpl in Hk; simplify_eq; by repeat split.
Qed.

(** C9. A qualifying keydown (enabled, no control, command or alt key, a
    mapped key, a present sound) starts exactly one more playback, on
    the mapped channel's handle, and touches no other handle. *)
Theorem keydown_plays_once p evt c h hw :
  enabled (settings p) = true -> ctrlKey evt = false -> metaKey evt = false ->
  altKey evt = false -> keymap (code evt) = Some c ->
  sound_of (sounds p) c = Some h -> audio p !! h = Some hw ->
  audio (keydown keymap evt p) !! h = Some (play hw) /\
  forall h', h' <> h -> audio (keydown keymap evt p) !! h' = audio p !! h'.
Proof.
  intros He Hc Hm Ha Hk Hs Hl. unfold keydown, onKeydown.
  rewrite He, Hc, Hm, Ha, Hk, Hs. simpl. split.
  - by rewrite lookup_alter_eq, Hl.
  - intros h' Hne. by rewrite lookup_alter_ne.
Qed.

(** C10. With the sound disabled, or with control, command or alt held,
    a keydown changes nothing, whatever the key. *)
Theorem keydown_ignored p evt :
  enabled (settings p) = false \/ ctrlKey evt = true \/ metaKey evt = true \/
  altKey evt = true ->
  keydown keymap evt p = p.
Proof.
  intros Hcase. unfold keydown, onKeydown.
  destruct (enabled (settings p)), (ctrlKey evt), (metaKey evt), (altKey evt);
    simpl; try done; intuition discriminate.
Qed.

(** C7. Volume propagation: on a complete set, the slider's [onChange v]
    sets the volume of all five handles to [v / 100] (not only the first),
    records [v] in the settings and persists them, and raises no error. *)
Theorem onVolumeChange_sets_all_channels p v g :
  sounds p = gen_sounds g -> set_allocated (audio p) g ->
  let '(p', err) := onVolumeChange v p in
  err = None /\ volumn (settings p') = Some v /\
  data p' = Some (store_settings (settings p')) /\
  forall c, exists hw, audio p' !! handle_id g c = Some hw /\ h_volume hw = Qmake v 100.
Proof.
  intros Hs Ha. unfold onVolumeChange.
  rewrite (each_sound_gen _ _ _ g); [|done|apply channels_NoDup]. cbv beta iota zeta.
  split; [done|]. split; [done|]. split; [done|]. intros c.
  destruct (Ha c) as (hw & Hl & _).
  exists (set_volume (Qmake v 100) hw). cbn [audio saveSettings set_audio].
  rewrite foldl_alter_lookup by apply channels_NoDup.
  rewrite bool_decide_true by apply elem_of_channels. cbn [audio set_settings].
  by rewrite Hl.
Qed.

(** C19. Replacing the sound set never releases the previous one:
    [refreshSounds] and a scheme change leave every handle of the
    replaced generation exactly as it was (still loaded if it was), while
    the plugin no longer refers to it. *)
Theorem replaced_sounds_not_released p value g :
  sounds p = gen_sounds g -> g < next_gen p ->
  let p1 := refreshSounds p in
  let p2 := onSchemeChange_end (fst (onSchemeChange_begin getScheme value p))
                               (snd (onSchemeChange_begin getScheme value p)) in
  sounds p1 <> sounds p /\ sounds p2 <> sounds p /\
  forall c, audio p1 !! handle_id g c = audio p !! handle_id g c /\
            audio p2 !! handle_id g c = audio p !! handle_id g c.
Proof.
  intros Hs Hlt. unfold refreshSounds, onSchemeChange_begin, onSchemeChange_end, loadScheme.
  simpl. rewrite Hs.
  assert (Hg : next_gen p <> g) by lia.
  split; [intros [=Heq]; apply handle_id_inj in Heq as [? _]; lia|].
  split; [intros [=Heq]; apply handle_id_inj in Heq as [? _]; lia|].
  intros c. rewrite !alloc_set_old; [done| |];
    intros c' Heq; by eapply (handle_id_ne_gen g c (next_gen p) c').
Qed.

(** C22. The settings survive a save and a load: [loadSettings] after
    [saveSettings] gives back the settings, [volumn] included when it was
    undefined. *)
Theorem settings_roundtrip p : settings (loadSettings (saveSettings p)) = settings p.
Proof. destruct p as [[e [v|] a] s au n d]; done. Qed.

(** C21. The saved volume is not applied at startup: two data files that
    differ only in [volumn] give, after [onload], the same settings but
    for [volumn] and exactly the same sound handles, volumes included:
    [onload] never calls [volume] on the loaded sounds. *)
Theorem onload_ignores_saved_volume en sch v1 v2 :
  let p1 := onload (plugin_new (Some {| st_enabled := en; st_volumn := v1; st_activeScheme := sch |})) in
  let p2 := onload (plugin_new (Some {| st_enabled := en; st_volumn := v2; st_activeScheme := sch |})) in
  volumn (settings p1) = v1 /\ volumn (settings p2) = v2 /\
  sounds p1 = sounds p2 /\ audio p1 = audio p2.
Proof. by destruct v1, v2. Qed.

(** C23. The two commands: each is offered exactly when it would change
    the state, and running it sets [enabled] accordingly and persists the
    settings. *)
Theorem commands_spec p :
  fst (enableCommand true p) = negb (enabled (settings p)) /\
  fst (disableCommand true p) = enabled (settings p) /\
  enabled (settings (snd (enableCommand false p))) = true /\
  enabled (settings (snd (disableCommand false p))) = false /\
  data (snd (enableCommand false p)) = Some (store_settings (settings (snd (enableCommand false p)))) /\
  data (snd (disableCommand false p)) = Some (store_settings (settings (snd (disableCommand false p)))).
Proof. done. Qed.

(** C24. [onunload] on a complete set releases all five handles (unloaded,
    no playback left) without error. *)
Theorem onunload_releases_all p g :
  sounds p = gen_sounds g -> set_allocated (audio p) g ->
  snd (onunload p) = None /\
  forall c, exists hw, audio (fst (onunload p)) !! handle_id g c = Some hw /\
                       h_loaded hw = false /\ h_playing hw = 0.
Proof.
  intros Hs Ha. unfold onunload, unloadSounds.
  rewrite (each_sound_gen _ _ _ g); [|done|apply channels_NoDup].
  split; [done|]. intros c. destruct (Ha c) as (hw & Hl & _).
  exists (unload hw). cbn [fst audio set_audio].
  rewrite foldl_alter_lookup by apply channels_NoDup.
  rewrite bool_decide_true by apply elem_of_channels. by rewrite Hl.
Qed.
End PluginProperties.

(** ** Concrete scenarios *)

Module PluginScenarios.
Definition schemeA : Scheme := {| scheme_id := "a"; scheme_name := "Typewriter" |}.
Definition schemeB : Scheme := {| scheme_id := "b"; scheme_name := "Mechanical" |}.
Definition getScheme0 (id : string) : option Scheme :=
  if String.eqb id "a" then Some schemeA
  else if String.eqb id "b" then Some schemeB else None.

Definition keyA : KeyboardEvent :=
  {| code := "KeyA"; ctrlKey := false; metaKey := false; altKey := false; shiftKey := false |}.
Definition ctrlA : KeyboardEvent :=
  {| code := "KeyA"; ctrlKey := true; metaKey := false; altKey := false; shiftKey := false |}.

Definition p_loaded : Plugin := ps_plugin (loaded_state None).

(** C20. Two quick changes of the scheme dropdown, to "a" then "b", whose
    loads finish in the other order: the settings say "b" is active while
    every installed sound was loaded for "a". *)
Theorem rapid_scheme_changes_install_stale_sounds :
  exists st, rtc (pstep getScheme0 DEFAULT_MAP) (loaded_state None) st /\
    ps_pending st = [] /\
    scheme_id (activeScheme (settings (ps_plugin st))) = "b" /\
    forall c, exists h hw, sound_of (sounds (ps_plugin st)) c = Some h /\
                           audio (ps_plugin st) !! h = Some hw /\ h_scheme hw = "a".
Proof.
  eexists. split.
  { eapply rtc_l; [eapply pstep_scheme_begin with (value := "a"); reflexivity|].
    eapply rtc_l; [eapply pstep_scheme_begin with (value := "b"); reflexivity|].
    eapply rtc_l; [apply (pstep_load_end _ _ _ [_] _ _ [])|].
    eapply rtc_l; [apply (pstep_load_end _ _ _ [] _ _ [])|].
    apply rtc_refl. }
  split; [reflexivity|]. split; [reflexivity|].
  intros []; do 2 eexists; (split; [reflexivity|]); split; reflexivity.
Qed.

(** C28. A scheme chosen while the plugin is still loading is lost: the
    setting tab is registered before [onload] awaits its own scheme load;
    if the user picks "b" and that load finishes first, [onload] then
    installs the sounds of the scheme it started with, so the settings
    (and the data file) say "b" while every sound is of the default
    scheme. *)
Theorem scheme_change_during_onload_overridden :
  exists st, rtc (pstep getScheme0 DEFAULT_MAP) (start_state None) st /\
    ps_pending st = [] /\
    scheme_id (activeScheme (settings (ps_plugin st))) = "b" /\
    data (ps_plugin st) = Some (store_settings (settings (ps_plugin st))) /\
    forall c, exists h hw, sound_of (sounds (ps_plugin st)) c = Some h /\
                           audio (ps_plugin st) !! h = Some hw /\ h_scheme hw = "default".
Proof.
  eexists. split.
  { eapply rtc_l; [eapply pstep_scheme_begin with (value := "b"); reflexivity|].
    eapply rtc_l; [apply (pstep_load_end _ _ _ [_] _ _ [])|].
    eapply rtc_l; [apply (pstep_load_end _ _ _ [] _ _ [])|].
    apply rtc_refl. }
  split; [reflexivity|]. split; [reflexivity|]. split; [reflexivity|].
  intros []; do 2 eexists; (split; [reflexivity|]); split; reflexivity.
Qed.

Lemma keydown_sees_one_generation_witness :
  exists g c hw, sounds p_loaded = gen_sounds g /\ DEFAULT_MAP "KeyA" = Some c /\
    handle_id 1 Key = handle_id g c /\ audio p_loaded !! handle_id 1 Key = Some hw /\
    h_gen hw = g /\ h_channel hw = c.
Proof.
  apply (keydown_sees_one_generation getScheme0 DEFAULT_MAP None (loaded_state None) keyA);
    [apply rtc_once, start_to_loaded | vm_compute; reflexivity].
Defined.

Lemma keydown_plays_once_witness :
  audio (keydown DEFAULT_MAP keyA p_loaded) !! handle_id 1 Key =
    Some (play (new_howl "default" 1 Key)) /\
  forall h', h' <> handle_id 1 Key ->
    audio (keydown DEFAULT_MAP keyA p_loaded) !! h' = audio p_loaded !! h'.
Proof.
  apply (keydown_plays_once DEFAULT_MAP p_loaded keyA Key); vm_compute; reflexivity.
Defined.

Lemma keydown_ignored_witness : keydown DEFAULT_MAP ctrlA p_loaded = p_loaded.
Proof. apply keydown_ignored. right. left. reflexivity. Defined.

Lemma onVolumeChange_sets_all_channels_witness :
  let '(p', err) := onVolumeChange 42 p_loaded in
  err = None /\ volumn (settings p') = Some 42%Z /\
  data p' = Some (store_settings (settings p')) /\
  forall c, exists hw, audio p' !! handle_id 1 c = Some hw /\ h_volume hw = Qmake 42 100.
Proof.
  apply onVolumeChange_sets_all_channels; [reflexivity|].
  intros c. eexists. destruct c; (split; [reflexivity|]); split; reflexivity.
Defined.

Lemma replaced_sounds_not_released_witness :
  let p1 := refreshSounds p_loaded in
  let p2 := onSchemeChange_end (fst (onSchemeChange_begin getScheme0 "a" p_loaded))
                               (snd (onSchemeChange_begin getScheme0 "a" p_loaded)) in
  sounds p1 <> sounds p_loaded /\ sounds p2 <> sounds p_loaded /\
  forall c, audio p1 !! handle_id 1 c = audio p_loaded !! handle_id 1 c /\
            audio p2 !! handle_id 1 c = audio p_loaded !! handle_id 1 c.
Proof. apply replaced_sounds_not_released; vm_compute; [reflexivity|lia]. Defined.

Lemma onunload_releases_all_witness :
  snd (onunload p_loaded) = None /\
  forall c, exists hw, audio (fst (onunload p_loaded)) !! handle_id 1 c = Some hw /\
                       h_loaded hw = false /\ h_playing hw = 0.
Proof.
  apply onunload_releases_all; [reflexivity|].
  intros c. eexists. destruct c; (split; [reflexivity|]); split; reflexivity.
Defined.
End PluginScenarios.
