(* ===== verification/PluginInvariants.v ===== *)
(** * Bounds, settling and persistence of the plugin's reachable states

    Invariants of the event relation [pstep] of Plugin.v, from the
    plugin's start ([start_state]: [onload] still loading its scheme):

    - bounds: every howler handle has a volume in [0, 1] (the slider of
      SettingTab.ts reports integers in [0, 100], divided by 100), and the
      slider's initial value [settings.volumn ?? 100] stays in [0, 100]
      when the data file's volume does;
    - settling: when the scheme loads finish in the order they started
      ([pstep_fifo]), finishing the pending loads ([finish_loads]) always
      ends with the sounds of the active scheme;
    - persistence: the data file holds the settings a restart comes back
      with ([data_consistent]), the active scheme apart while a scheme
      change still loads. *)

From S2P Require Import Prelude Dispatch Plugin.
From Stdlib Require Import QArith_base.
Local Open Scope nat_scope.

(** ** Volumes in range *)

Definition volume_ok (hw : Howl) : Prop := (0 <= h_volume hw <= 1)%Q.

(** The handles have volumes in [0, 1], the slider starts in [0, 100]. *)
Definition plugin_bounded (p : Plugin) : Prop :=
  map_Forall (fun _ => volume_ok) (audio p) /\ (0 <= slider_value p <= 100)%Z.

(** The data file's volume, when there is one, is a slider value. *)
Definition stored_volume_ok (stored : option StoredSettings) : Prop :=
  match stored ≫= st_volumn with Some v => (0 <= v <= 100)%Z | None => True end.

Lemma slider_volume_ok (v : Z) : (0 <= v <= 100)%Z -> (0 <= Qmake v 100 <= 1)%Q.
Proof. unfold Qle. simpl. lia. Qed.

Lemma new_howl_ok sid g c : volume_ok (new_howl sid g c).
Proof. unfold volume_ok. simpl. unfold Qle. simpl. lia. Qed.

Lemma alloc_set_bounded sid g a :
  map_Forall (fun _ => volume_ok) a -> map_Forall (fun _ => volume_ok) (alloc_set sid g a).
Proof.
  intros Ha. unfold alloc_set.
  induction channels as [|c cs IH]; simpl; [done|].
  apply map_Forall_insert_2; [apply new_howl_ok|done].
Qed.

(** An invariant of each handle update of [each_sound] holds after the loop,
    whether it ends normally or with the TypeError. *)
Lemma each_sound_pres (Q : Plugin -> Prop) f ks p :
  Q p -> (forall h p, Q p -> Q (set_audio (alter f h (audio p)) p)) ->
  Q (fst (each_sound f ks p)).
Proof.
  intros Hp Hstep. revert p Hp. induction ks as [|k ks IH]; intros p Hp; simpl; [done|].
  destruct (sound_of (sounds p) k); [by apply IH, Hstep|done].
Qed.

Section Bounds.
Variable getScheme : string -> option Scheme.
Variable keymap : string -> option channel.

Lemma pstep_bounded st st' :
  plugin_bounded (ps_plugin st) -> pstep getScheme keymap st st' ->
  plugin_bounded (ps_plugin st').
Proof.
  intros [Ha Hs] Hst.
  destruct Hst as [p l evt|p l b|p l|p l|p l v Hv|p l|p l|p l value s p' E|p l1 s r l2];
    simpl in *.
  - unfold keydown. destruct (onKeydown _ _ _ _); [|done].
    split; [|done]. apply map_Forall_alter_pres; [by intros|done].
  - done.
  - done.
  - done.
  - unfold onVolumeChange.
    set (p1 := set_settings _ p).
    assert (Hq : map_Forall (fun _ => volume_ok) (audio (fst (each_sound
                   (set_volume (Qmake v 100)) channels p1))) /\
                 volumn (settings (fst (each_sound (set_volume (Qmake v 100)) channels p1)))
                   = Some v).
    { apply (each_sound_pres (fun p => map_Forall (fun _ => volume_ok) (audio p) /\
                                        volumn (settings p) = Some v)); [done|].
      intros h q [Hq1 Hq2]. split; [|done]. apply map_Forall_alter_pres; [|done].
      intros hw _. by apply slider_volume_ok. }
    destruct (each_sound _ channels p1) as [p2 [e|]]; destruct Hq as [Hq1 Hq2];
      unfold plugin_bounded, slider_value; simpl in *; rewrite Hq2; simpl; done.
  - split; [by apply alloc_set_bounded|done].
  - unfold stopSounds.
    apply (each_sound_pres plugin_bounded); [done|].
    intros h q [Hq1 Hq2]. split; [|done]. by apply map_Forall_alter_pres.
  - unfold onSchemeChange_begin, loadScheme in E. simplify_eq. split; [|done].
    simpl. by apply alloc_set_bounded.
  - by destruct r.
Qed.

Lemma start_state_bounded stored :
  stored_volume_ok stored -> plugin_bounded (ps_plugin (start_state stored)).
Proof.
  intros Hst. split.
  - simpl. apply alloc_set_bounded, alloc_set_bounded, map_Forall_empty.
  - unfold stored_volume_ok in Hst. unfold slider_value. simpl.
    destruct stored as [[en [v|] sch]|]; simpl in *; lia.
Qed.

Lemma rtc_bounded st st' :
  rtc (pstep getScheme keymap) st st' -> plugin_bounded (ps_plugin st) ->
  plugin_bounded (ps_plugin st').
Proof. induction 1; eauto using pstep_bounded. Qed.
End Bounds.

(** ** The sounds settle on the active scheme when loads finish in order *)

(** The five handles of generation [g] are of the scheme named [sid]. *)
Definition scheme_set (a : gmap nat Howl) (g : nat) (sid : string) : Prop :=
  forall c, exists hw, a !! handle_id g c = Some hw /\ h_scheme hw = sid.

(** The sound set installed last once the pending loads finish in the order
    they started: the last pending load's, or the current one. *)
Definition load_target (st : PState) : Sounds nat :=
  default (sounds (ps_plugin st)) (fst <$> last (ps_pending st)).

Definition follows_scheme (st : PState) : Prop :=
  exists g, load_target st = gen_sounds g /\ g < next_gen (ps_plugin st) /\
    scheme_set (audio (ps_plugin st)) g (scheme_id (activeScheme (settings (ps_plugin st)))).

(** The continuations of the pending loads run in the order they started. *)
Fixpoint finish_loads (p : Plugin) (l : list (Sounds nat * resume)) : Plugin :=
  match l with
  | [] => p
  | (s, r) :: l' => finish_loads (resume_load r s p) l'
  end.

Definition keeps_scheme (f : Howl -> Howl) : Prop := forall hw, h_scheme (f hw) = h_scheme hw.

(** [p'] keeps the scheme of every generation [p] had allocated. *)
Definition audio_extends (p p' : Plugin) : Prop :=
  next_gen p <= next_gen p' /\
  forall g sid, g < next_gen p -> scheme_set (audio p) g sid -> scheme_set (audio p') g sid.

Lemma audio_extends_same p p' :
  audio p' = audio p -> next_gen p' = next_gen p -> audio_extends p p'.
Proof. intros Ha Hn. split; [lia|]. intros g sid _. by rewrite Ha. Qed.

Lemma audio_extends_trans p1 p2 p3 :
  audio_extends p1 p2 -> audio_extends p2 p3 -> audio_extends p1 p3.
Proof. intros [Hn1 H1] [Hn2 H2]. split; [lia|]. intros g sid Hg Hs. apply H2; [lia|auto]. Qed.

Lemma audio_extends_alter f h p :
  keeps_scheme f -> audio_extends p (set_audio (alter f h (audio p)) p).
Proof.
  intros Hf. split; [done|]. intros g sid _ Hs c. destruct (Hs c) as (hw & Hl & Hsid). simpl.
  destruct (decide (h = handle_id g c)) as [->|Hne].
  - exists (f hw). rewrite lookup_alter_eq, Hl. split; [done|]. by rewrite Hf.
  - exists hw. by rewrite lookup_alter_ne.
Qed.

Lemma each_sound_extends f ks p :
  keeps_scheme f ->
  audio_extends p (fst (each_sound f ks p)) /\ settings (fst (each_sound f ks p)) = settings p /\
  sounds (fst (each_sound f ks p)) = sounds p.
Proof.
  intros Hf.
  apply (each_sound_pres (fun q => audio_extends p q /\ settings q = settings p /\ sounds q = sounds p)).
  - split; [by apply audio_extends_same|done].
  - intros h q (He & Hs & Hsn). split; [|done]. eapply audio_extends_trans; [exact He|].
    by apply audio_extends_alter.
Qed.

(** [loadScheme] allocates generation [next_gen] of its scheme and keeps the rest. *)
Lemma loadScheme_extends sch p :
  audio_extends p (snd (loadScheme sch p)) /\
  scheme_set (audio (snd (loadScheme sch p))) (next_gen p) (scheme_id sch) /\
  fst (loadScheme sch p) = gen_sounds (next_gen p) /\
  next_gen (snd (loadScheme sch p)) = S (next_gen p) /\
  settings (snd (loadScheme sch p)) = settings p.
Proof.
  unfold loadScheme. simpl. split; [split; [simpl; lia|]|split; [|done]].
  - intros g sid Hg Hs c. destruct (Hs c) as (hw & Hl & Hsid). exists hw.
    simpl. rewrite alloc_set_old; [done|]. intros c' Heq. apply handle_id_inj in Heq as [? _]. lia.
  - intros c. eexists. by rewrite alloc_set_new.
Qed.

Lemma follows_scheme_ext st st' :
  audio_extends (ps_plugin st) (ps_plugin st') -> load_target st' = load_target st ->
  activeScheme (settings (ps_plugin st')) = activeScheme (settings (ps_plugin st)) ->
  follows_scheme st -> follows_scheme st'.
Proof.
  intros [Hn He] Ht Ha (g & Hg & Hlt & Hs). exists g. rewrite Ht, Ha.
  split; [done|]. split; [lia|]. by apply He.
Qed.

(** Completing the oldest pending load, which installs its sounds [s],
    keeps the load target. *)
Lemma load_target_pop p p' s r l :
  sounds p' = s -> load_target (PS p' l) = load_target (PS p ((s, r) :: l)).
Proof.
  intros Hs. unfold load_target. cbn [ps_pending ps_plugin].
  destruct l as [|x l]; [by rewrite Hs|]. rewrite last_cons_cons.
  destruct (last (x :: l)) eqn:E; [done|]. by apply last_None in E.
Qed.

Lemma resume_load_facts r s p :
  sounds (resume_load r s p) = s /\ audio (resume_load r s p) = audio p /\
  next_gen (resume_load r s p) = next_gen p /\ settings (resume_load r s p) = settings p.
Proof. by destruct r. Qed.

Lemma play_keeps_scheme : keeps_scheme play. Proof. done. Qed.
Lemma stop_keeps_scheme : keeps_scheme stop. Proof. done. Qed.
Lemma set_volume_keeps_scheme v : keeps_scheme (set_volume v). Proof. done. Qed.
#[export] Hint Resolve play_keeps_scheme stop_keeps_scheme set_volume_keeps_scheme
  audio_extends_same : cc.

Section InOrder.
Variable getScheme : string -> option Scheme.
Variable keymap : string -> option channel.

(** The event loop when the scheme loads finish in the order they started:
    every handler event, and the completion of the oldest pending load. *)
Inductive pstep_fifo : PState -> PState -> Prop :=
| fifo_event st st' :
    pstep getScheme keymap st st' -> length (ps_pending st) <= length (ps_pending st') ->
    pstep_fifo st st'
| fifo_load p s r l : pstep_fifo (PS p ((s, r) :: l)) (PS (resume_load r s p) l).

Lemma pstep_fifo_pstep st st' : pstep_fifo st st' -> pstep getScheme keymap st st'.
Proof. intros [|p s r l]; [done|]. exact (pstep_load_end _ _ p [] s r l). Qed.

Lemma pstep_fifo_follows st st' :
  follows_scheme st -> pstep_fifo st st' -> follows_scheme st'.
Proof.
  intros Hf Hst. revert Hf. destruct Hst as [st0 st0' Hs Hlen|p s r l].
  - destruct Hs as [p l evt|p l b|p l|p l|p l v _|p l|p l|p l value s p' E|p l1 s r l2];
      simpl in Hlen; intros Hf.
    + unfold keydown. destruct (onKeydown _ _ _ _); [|done].
      apply (follows_scheme_ext (PS p l)); [apply audio_extends_alter, play_keeps_scheme| | |]; done.
    + apply (follows_scheme_ext (PS p l)); [apply audio_extends_same| | |]; done.
    + apply (follows_scheme_ext (PS p l)); [apply audio_extends_same| | |]; done.
    + apply (follows_scheme_ext (PS p l)); [apply audio_extends_same| | |]; done.
    + unfold onVolumeChange. set (p1 := set_settings _ p).
      destruct (each_sound_extends (set_volume (Qmake v 100)) channels p1) as (He & Hs & Hsn);
        [auto with cc|].
      assert (Hp1 : audio_extends p p1) by (by apply audio_extends_same).
      destruct (each_sound _ channels p1) as [p2 [e|]]; simpl in *;
        (apply (follows_scheme_ext (PS p l));
           [|unfold load_target; cbn [ps_pending ps_plugin sounds saveSettings]; by rewrite Hsn
            |cbn [ps_plugin settings saveSettings]; by rewrite Hs|done]);
        (eapply audio_extends_trans; [eapply audio_extends_trans; [exact Hp1|exact He]|]);
        by apply audio_extends_same.
    + unfold refreshSounds.
      destruct (loadScheme_extends (activeScheme (settings p)) p) as (He & Hn & Hfst & Hng & Hs).
      destruct (last l) as [x|] eqn:Hl.
      * apply (follows_scheme_ext (PS p l)); [done|unfold load_target; cbn [ps_pending]; by rewrite Hl|done|done].
      * exists (next_gen p). unfold load_target. cbn [ps_pending ps_plugin]. rewrite Hl.
        split; [done|]. split; [simpl; lia|exact Hn].
    + unfold stopSounds. destruct (each_sound_extends stop channels p) as (He & Hs & Hsn);
        [auto with cc|].
      apply (follows_scheme_ext (PS p l)); [done|unfold load_target; cbn [ps_pending ps_plugin];
        by rewrite Hsn|cbn [ps_plugin]; by rewrite Hs|done].
    + unfold onSchemeChange_begin in E.
      match type of E with loadScheme ?sch ?p1 = _ =>
        destruct (loadScheme_extends sch p1) as (He & Hn & Hfst & Hng & Hs); rewrite E in *
      end. simpl in *.
      exists (next_gen p). unfold load_target. simpl. rewrite last_snoc, Hs. simpl.
      split; [done|]. split; [lia|done].
    + rewrite !length_app in Hlen. simpl in Hlen. lia.
  - intros Hf. destruct (resume_load_facts r s p) as (Hs & Ha & Hn & Hset).
    apply (follows_scheme_ext (PS p ((s, r) :: l))); [by apply audio_extends_same| |cbn [ps_plugin]; by rewrite Hset|done].
    by apply load_target_pop.
Qed.

Lemma rtc_follows st st' : rtc pstep_fifo st st' -> follows_scheme st -> follows_scheme st'.
Proof. induction 1; eauto using pstep_fifo_follows. Qed.

Lemma start_state_follows stored : follows_scheme (start_state stored).
Proof.
  unfold start_state, onload_begin. cbv zeta.
  set (p1 := loadSettings (plugin_new stored)).
  destruct (loadScheme_extends (activeScheme (settings p1)) p1) as (_ & Hn & Hfst & Hng & _).
  exists (next_gen p1). split; [exact Hfst|]. split; [cbn [ps_plugin]; rewrite Hng; lia|exact Hn].
Qed.

Lemma finish_loads_reach st : rtc pstep_fifo st (PS (finish_loads (ps_plugin st) (ps_pending st)) []).
Proof.
  destruct st as [p l]. simpl. revert p. induction l as [|[s r] l IH]; intros p; simpl; [done|].
  eapply rtc_l; [apply fifo_load|apply IH].
Qed.
End InOrder.

(** With nothing pending, the sounds are the load target. *)
Lemma follows_quiescent p :
  follows_scheme (PS p []) -> forall c, exists h hw, sound_of (sounds p) c = Some h /\
    audio p !! h = Some hw /\ h_scheme hw = scheme_id (activeScheme (settings p)).
Proof.
  intros (g & Ht & _ & Hset) c. unfold load_target in Ht. simpl in Ht.
  destruct (Hset c) as (hw & Hl & Hs). exists (handle_id g c), hw. rewrite Ht. by destruct c.
Qed.

(** ** The data file and a restart *)

(** The settings a restart comes back with: [onload] of a new plugin on the
    data file. *)
Definition restart_settings (p : Plugin) : ClickClackSettings :=
  settings (onload (plugin_new (data p))).

(** No scheme picked in the dropdown is still loading. *)
Definition no_scheme_loading (st : PState) : Prop :=
  Forall (fun ld => ld.2 = ResumeOnload) (ps_pending st).

(** The data file holds the settings, the active scheme apart while a
    scheme change still loads. *)
Definition data_consistent (st : PState) : Prop :=
  enabled (restart_settings (ps_plugin st)) = enabled (settings (ps_plugin st)) /\
  volumn (restart_settings (ps_plugin st)) = volumn (settings (ps_plugin st)) /\
  (no_scheme_loading st -> restart_settings (ps_plugin st) = settings (ps_plugin st)).

Lemma restart_settings_eq p : restart_settings p = merge_settings DEFAULT_SETTINGS_V1 (data p).
Proof. reflexivity. Qed.

Lemma merge_store s : merge_settings DEFAULT_SETTINGS_V1 (Some (store_settings s)) = s.
Proof. by destruct s as [e [v|] a]. Qed.

Lemma saved_consistent p l :
  data p = Some (store_settings (settings p)) -> data_consistent (PS p l).
Proof. intros Hd. unfold data_consistent. simpl. rewrite restart_settings_eq, Hd, merge_store. done. Qed.

(** A step that keeps the data file and the settings and starts no scheme
    load keeps the invariant. *)
Lemma same_data_consistent p p' l l' :
  data p' = data p -> settings p' = settings p ->
  (no_scheme_loading (PS p' l') -> no_scheme_loading (PS p l)) ->
  data_consistent (PS p l) -> data_consistent (PS p' l').
Proof.
  intros Hd Hs Hn (He & Hv & Ha). unfold data_consistent in *. simpl in *.
  rewrite !restart_settings_eq, Hd, Hs in *. auto.
Qed.

Lemma each_sound_keeps_data f ks p :
  settings (fst (each_sound f ks p)) = settings p /\ data (fst (each_sound f ks p)) = data p.
Proof. by apply (each_sound_pres (fun q => settings q = settings p /\ data q = data p)). Qed.

Section Persistence.
Variable getScheme : string -> option Scheme.
Variable keymap : string -> option channel.

Lemma pstep_data_consistent st st' :
  one_generation st -> data_consistent st -> pstep getScheme keymap st st' -> data_consistent st'.
Proof.
  intros [(g & _ & Hg & _) _] Hc Hst.
  destruct Hst as [p l evt|p l b|p l|p l|p l v _|p l|p l|p l value s p' E|p l1 s r l2];
    simpl in *.
  - unfold keydown. destruct (onKeydown _ _ _ _); [|done].
    by apply (same_data_consistent p _ l).
  - by apply saved_consistent.
  - by apply saved_consistent.
  - by apply saved_consistent.
  - unfold onVolumeChange. rewrite (each_sound_gen _ _ _ g); [|done|apply channels_NoDup].
    by apply saved_consistent.
  - by apply (same_data_consistent p _ l).
  - destruct (each_sound_keeps_data stop channels p) as [Hs Hd].
    by apply (same_data_consistent p _ l).
  - unfold onSchemeChange_begin, loadScheme in E. simplify_eq.
    destruct Hc as (He & Hv & _). unfold data_consistent in *. simpl in *.
    rewrite !restart_settings_eq in *. split; [done|]. split; [done|].
    intros Hn. apply Forall_app in Hn as [_ Hn]. inversion Hn as [|? ? Hx]. simpl in Hx. discriminate.
  - destruct r; [|by apply saved_consistent].
    apply (same_data_consistent p _ (l1 ++ (s, ResumeOnload) :: l2)); [done|done| |done].
    unfold no_scheme_loading. simpl. rewrite !Forall_app, Forall_cons. tauto.
Qed.

Lemma start_state_data_consistent stored : data_consistent (start_state stored).
Proof.
  assert (Heq : restart_settings (ps_plugin (start_state stored)) =
                settings (ps_plugin (start_state stored))) by reflexivity.
  unfold data_consistent. rewrite Heq. auto.
Qed.

Lemma rtc_data_consistent st st' :
  rtc (pstep getScheme keymap) st st' -> one_generation st -> data_consistent st ->
  data_consistent st'.
Proof.
  induction 1 as [|x y z Hxy _ IH]; [done|]. intros Hg Hc.
  apply IH; [by eapply pstep_one_generation|by eapply pstep_data_consistent].
Qed.
End Persistence.

Section Theorems.
Variable getScheme : string -> option Scheme.
Variable keymap : string -> option channel.

(** C25. Bounds: in every state reachable from the plugin's start (any
    interleaving of keydowns, commands, setting changes and scheme loads),
    every howler handle has a volume between 0 and 1, and the volume
    slider's initial value [settings.volumn ?? 100] lies between 0 and 100
    whenever the data file's volume did. *)
Theorem reachable_volumes_bounded stored st :
  stored_volume_ok stored ->
  rtc (pstep getScheme keymap) (start_state stored) st ->
  (forall h hw, audio (ps_plugin st) !! h = Some hw -> 0 <= h_volume hw <= 1)%Q /\
  (0 <= slider_value (ps_plugin st) <= 100)%Z.
Proof.
  intros Hst Hr. destruct (rtc_bounded getScheme keymap _ _ Hr (start_state_bounded _ Hst))
    as [Ha Hs].
  split; [|done]. intros h hw Hh. exact (Ha h hw Hh).
Qed.

(** C29. Liveness when the scheme loads finish in the order they started:
    from every state reachable that way, finishing the pending loads is a
    run of the same event loop that ends with nothing pending and with every
    channel's sound a handle of the active scheme (the settings and the
    sounds agree again). *)
Theorem pending_loads_settle stored st :
  rtc (pstep_fifo getScheme keymap) (start_state stored) st ->
  rtc (pstep_fifo getScheme keymap) st (PS (finish_loads (ps_plugin st) (ps_pending st)) []) /\
  forall c, exists h hw,
    sound_of (sounds (finish_loads (ps_plugin st) (ps_pending st))) c = Some h /\
    audio (finish_loads (ps_plugin st) (ps_pending st)) !! h = Some hw /\
    h_scheme hw = scheme_id (activeScheme (settings (finish_loads (ps_plugin st) (ps_pending st)))).
Proof.
  intros Hr. pose proof (finish_loads_reach getScheme keymap st) as Hf. split; [done|].
  apply follows_quiescent, (rtc_follows getScheme keymap _ _ Hf),
    (rtc_follows getScheme keymap _ _ Hr), start_state_follows.
Qed.
(** C31. Persistence: in every state reachable from the plugin's start, a
    restart (a new plugin on the data file, then [onload]) comes back with
    the current [enabled] and [volumn], and with all the settings unless a
    scheme picked in the dropdown is still loading: the dropdown saves the
    scheme only once its load completes. *)
Theorem restart_restores_settings stored st :
  rtc (pstep getScheme keymap) (start_state stored) st ->
  enabled (restart_settings (ps_plugin st)) = enabled (settings (ps_plugin st)) /\
  volumn (restart_settings (ps_plugin st)) = volumn (settings (ps_plugin st)) /\
  (no_scheme_loading st -> restart_settings (ps_plugin st) = settings (ps_plugin st)).
Proof.
  intros Hr. exact (rtc_data_consistent getScheme keymap _ _ Hr (start_state_one_generation stored)
                      (start_state_data_consistent stored)).
Qed.
End Theorems.

Module InvariantScenarios.
Import PluginScenarios.

Lemma reachable_volumes_bounded_witness :
  (forall h hw, audio p_loaded !! h = Some hw -> 0 <= h_volume hw <= 1)%Q /\
  (0 <= slider_value p_loaded <= 100)%Z.
Proof.
  apply (reachable_volumes_bounded getScheme0 DEFAULT_MAP None (loaded_state None));
    [exact I|apply rtc_once, start_to_loaded].
Defined.

(** The dropdown picks scheme "b" while [onload] still loads the default. *)
Definition st_picked : PState :=
  let r := onSchemeChange_begin getScheme0 "b" (ps_plugin (start_state None)) in
  PS (snd r) (ps_pending (start_state None) ++ [(fst r, ResumeScheme)]).

Lemma pending_loads_settle_witness :
  rtc (pstep_fifo getScheme0 DEFAULT_MAP) (start_state None) st_picked /\
  scheme_id (activeScheme (settings (finish_loads (ps_plugin st_picked) (ps_pending st_picked))))
    = "b" /\
  forall c, exists h hw,
    sound_of (sounds (finish_loads (ps_plugin st_picked) (ps_pending st_picked))) c = Some h /\
    audio (finish_loads (ps_plugin st_picked) (ps_pending st_picked)) !! h = Some hw /\
    h_scheme hw = "b".
Proof.
  assert (Hr : rtc (pstep_fifo getScheme0 DEFAULT_MAP) (start_state None) st_picked).
  { apply rtc_once, fifo_event; [|simpl; lia].
    exact (pstep_scheme_begin getScheme0 DEFAULT_MAP _ _ "b" _ _ eq_refl). }
  split; [exact Hr|]. split; [reflexivity|].
  exact (proj2 (pending_loads_settle getScheme0 DEFAULT_MAP None st_picked Hr)).
Defined.
(** The sound turned off once [onload] has finished. *)
Definition st_toggled : PState := PS (onToggleChange false p_loaded) [].

Lemma restart_restores_settings_witness :
  rtc (pstep getScheme0 DEFAULT_MAP) (start_state None) st_toggled /\
  enabled (settings (ps_plugin st_toggled)) = false /\
  restart_settings (ps_plugin st_toggled) = settings (ps_plugin st_toggled).
Proof.
  assert (Hr : rtc (pstep getScheme0 DEFAULT_MAP) (start_state None) st_toggled).
  { eapply rtc_l; [apply start_to_loaded|]. apply rtc_once, pstep_toggle. }
  split; [exact Hr|]. split; [reflexivity|].
  apply (restart_restores_settings getScheme0 DEFAULT_MAP None st_toggled Hr). constructor.
Defined.
End InvariantScenarios.
