(* ===== verification/DispatchRefinement.v ===== *)
(** * The plugin refines the channel-dispatch state machine

    The spec's channel dispatch (section 4.4) is a machine with a single
    state, the current sound channel set, and two transitions: replace the
    whole set (a scheme activation) and invoke one channel (a keyboard
    event).  [dispatch_step] is that machine, with a third, silent
    transition for the events that leave the set alone.  The plugin's
    event relation [pstep] of Plugin.v refines it: every step of a state
    reachable from the plugin's start is one transition of the machine on
    the current set, and the howler handles change the way the transition
    says (an invocation starts one playback on the handle of the invoked
    channel, every other step starts none): a simulation diagram with
    stuttering, proved from the invariant that every pending scheme load
    is a whole set ([pending_whole]).  Rapid keydowns on one channel
    overlap: each adds a playback. *)

From S2P Require Import Prelude Dispatch Plugin PluginInvariants.
From Stdlib Require Import QArith_base.
Local Open Scope nat_scope.

(** ** The spec's machine *)

Inductive dlabel := DReplace | DInvoke (c : channel) | DSkip.

(** The set a scheme load creates: the five handles of one generation. *)
Definition whole_set (s : Sounds nat) : Prop := exists g, s = gen_sounds g.

Inductive dispatch_step : Sounds nat -> dlabel -> Sounds nat -> Prop :=
| ds_replace s g : dispatch_step s DReplace (gen_sounds g)
| ds_invoke s c h : sound_of s c = Some h -> dispatch_step s (DInvoke c) s
| ds_skip s : dispatch_step s DSkip s.

(** The playbacks in progress on handle [h] (none on a handle not created). *)
Definition playing_at (a : gmap nat Howl) (h : nat) : nat := default 0 (h_playing <$> a !! h).

Definition no_playback_started (p p' : Plugin) : Prop :=
  forall h, playing_at (audio p') h <= playing_at (audio p) h.

(** What a transition does to the handles. *)
Definition audio_effect (l : dlabel) (p p' : Plugin) : Prop :=
  match l with
  | DInvoke c => exists h, sound_of (sounds p) c = Some h /\ audio p' = alter play h (audio p)
  | _ => no_playback_started p p'
  end.

(** The scheme loads begun and not yet installed are whole sets. *)
Definition pending_whole (st : PState) : Prop := Forall (fun ld => whole_set ld.1) (ps_pending st).

(** ** Facts on the handles *)

Definition no_play_increase (f : Howl -> Howl) : Prop := forall hw, h_playing (f hw) <= h_playing hw.

Lemma stop_no_play : no_play_increase stop. Proof. intros hw. cbn. lia. Qed.
Lemma set_volume_no_play v : no_play_increase (set_volume v). Proof. intros hw. cbn. lia. Qed.

Lemma no_playback_refl p p' : audio p' = audio p -> no_playback_started p p'.
Proof. intros Ha h. by rewrite Ha. Qed.

Lemma no_playback_trans p1 p2 p3 :
  no_playback_started p1 p2 -> no_playback_started p2 p3 -> no_playback_started p1 p3.
Proof. intros H1 H2 h. specialize (H1 h). specialize (H2 h). lia. Qed.

Lemma no_playback_alter f h p :
  no_play_increase f -> no_playback_started p (set_audio (alter f h (audio p)) p).
Proof.
  intros Hf h'. unfold playing_at. cbn. destruct (decide (h = h')) as [<-|Hne].
  - rewrite lookup_alter_eq. destruct (audio p !! h); cbn; [apply Hf|lia].
  - by rewrite lookup_alter_ne.
Qed.

Lemma each_sound_no_playback f ks p :
  no_play_increase f -> no_playback_started p (fst (each_sound f ks p)).
Proof.
  intros Hf. apply (each_sound_pres (no_playback_started p)); [by apply no_playback_refl|].
  intros h q Hq. eapply no_playback_trans; [exact Hq|]. by apply no_playback_alter.
Qed.

(** The handles [loadScheme] creates have no playback. *)
Lemma alloc_set_no_playback sid g a h : playing_at (alloc_set sid g a) h <= playing_at a h.
Proof.
  unfold alloc_set. induction channels as [|c cs IH]; cbn; [lia|].
  unfold playing_at in *. destruct (decide (handle_id g c = h)) as [<-|Hne].
  - rewrite lookup_insert_eq. cbn. lia.
  - by rewrite lookup_insert_ne.
Qed.

Lemma loadScheme_no_playback sch p : no_playback_started p (snd (loadScheme sch p)).
Proof. intros h. apply alloc_set_no_playback. Qed.

(** The handle the keydown listener plays is the sound of a channel. *)
Lemma onKeydown_channel (keymap : string -> option channel) en (s : Sounds nat) evt h :
  onKeydown keymap en s evt = Some h -> exists c, sound_of s c = Some h.
Proof.
  unfold onKeydown. repeat case_match; try discriminate. eauto.
Qed.

(** ** The simulation diagram *)

Definition simulates (p p' : Plugin) : Prop :=
  exists l, dispatch_step (sounds p) l (sounds p') /\ audio_effect l p p'.

Lemma simulates_skip p p' :
  sounds p' = sounds p -> no_playback_started p p' -> simulates p p'.
Proof. intros Hs Ha. exists DSkip. rewrite Hs. split; [constructor|done]. Qed.

Lemma simulates_replace p p' g :
  sounds p' = gen_sounds g -> no_playback_started p p' -> simulates p p'.
Proof. intros Hs Ha. exists DReplace. rewrite Hs. split; [constructor|done]. Qed.

(** A step that changes neither the set nor the handles. *)
Ltac simulates_same := apply simulates_skip; [done|by apply no_playback_refl].

Lemma onSchemeChange_begin_facts getScheme value p s p' :
  onSchemeChange_begin getScheme value p = (s, p') ->
  whole_set s /\ sounds p' = sounds p /\ no_playback_started p p'.
Proof.
  unfold onSchemeChange_begin. set (p0 := set_settings _ p). intros E.
  destruct (loadScheme_extends (default defaultScheme (getScheme value)) p0) as (_ & _ & Hs & _).
  pose proof (loadScheme_no_playback (default defaultScheme (getScheme value)) p0) as Hn.
  rewrite E in Hs, Hn. split; [by eexists|]. split; [by unfold loadScheme in E; simplify_eq|].
  intros h. apply Hn.
Qed.

Section Simulation.
Variable getScheme : string -> option Scheme.
Variable keymap : string -> option channel.

Lemma pstep_pending_whole st st' :
  pending_whole st -> pstep getScheme keymap st st' -> pending_whole st'.
Proof.
  unfold pending_whole. intros Hl Hs.
  destruct Hs as [| | | | | | |p l value s p' E|p l1 s r l2]; cbn in *; try done.
  - apply Forall_app. split; [done|]. constructor; [|done].
    exact (proj1 (onSchemeChange_begin_facts _ _ _ _ _ E)).
  - apply Forall_app in Hl as [H1 H2]. apply Forall_cons in H2 as [_ H2]. by apply Forall_app.
Qed.

(** One step of the plugin is one transition of the machine. *)
Lemma pstep_simulates st st' :
  pending_whole st -> pstep getScheme keymap st st' -> simulates (ps_plugin st) (ps_plugin st').
Proof.
  unfold pending_whole. intros Hl Hs.
  destruct Hs as [p l evt|p l b|p l|p l|p l v _|p l|p l|p l value s p' E|p l1 s r l2]; cbn in *.
  - unfold keydown. destruct (onKeydown keymap _ _ evt) as [h|] eqn:Ek.
    2: simulates_same.

    destruct (onKeydown_channel _ _ _ _ _ Ek) as [c Hc].
    exists (DInvoke c). split; [cbn; by eapply ds_invoke|by exists h].
  - simulates_same.
  - simulates_same.
  - simulates_same.
  - unfold onVolumeChange. set (p1 := set_settings _ p).
    destruct (each_sound_extends (set_volume (Qmake v 100)) channels p1
                (set_volume_keeps_scheme _)) as (_ & _ & Hsn).
    pose proof (each_sound_no_playback _ channels p1 (set_volume_no_play (Qmake v 100))) as Hn.
    destruct (each_sound _ _ p1) as [p2 [e|]]; cbn in *; apply simulates_skip; try done.
  - unfold refreshSounds.
    destruct (loadScheme_extends (activeScheme (settings p)) p) as (_ & _ & Hs & _).
    apply (simulates_replace _ _ (next_gen p)); [by rewrite <- Hs|].
    apply loadScheme_no_playback.
  - unfold stopSounds.
    destruct (each_sound_extends stop channels p stop_keeps_scheme) as (_ & _ & Hsn).
    apply simulates_skip; [done|]. exact (each_sound_no_playback stop channels p stop_no_play).
  - destruct (onSchemeChange_begin_facts _ _ _ _ _ E) as (_ & Hs & Hn).
    by apply simulates_skip.
  - apply Forall_app in Hl as [_ H2]. apply Forall_cons in H2 as [[g Hg] _]. cbn in Hg.
    apply (simulates_replace _ _ g); [by destruct r; cbn|].
    apply no_playback_refl. by destruct r.
Qed.
End Simulation.

(** ** From the plugin's start *)

Lemma start_pending_whole stored : pending_whole (start_state stored).
Proof. repeat constructor. eexists. reflexivity. Qed.

Section Reachable.
Variable getScheme : string -> option Scheme.
Variable keymap : string -> option channel.

Lemma rtc_pending_whole st st' :
  rtc (pstep getScheme keymap) st st' -> pending_whole st -> pending_whole st'.
Proof. induction 1; eauto using pstep_pending_whole. Qed.

(** C34. Refinement of the channel dispatch of spec 4.4, one step: in
    every state reachable from the plugin's start, every handler run (a
    keydown, a command, a setting change, a refresh, a scheme change up to
    its await, a scheme load completing) is one transition of the spec's
    machine on the current sound set: the whole set is replaced by the
    five handles of one load, or one channel of the current set is invoked
    and exactly that handle starts one more playback, or the set is left
    as it is; no step other than an invocation starts a playback. *)
Theorem plugin_step_refines_dispatch stored st st' :
  rtc (pstep getScheme keymap) (start_state stored) st -> pstep getScheme keymap st st' ->
  exists l, dispatch_step (sounds (ps_plugin st)) l (sounds (ps_plugin st')) /\
    audio_effect l (ps_plugin st) (ps_plugin st').
Proof.
  intros Hr Hs. apply (pstep_simulates getScheme keymap _ _); [|exact Hs].
  exact (rtc_pending_whole _ _ Hr (start_pending_whole stored)).
Qed.

Lemma keydown_plays_handle evt p h :
  onKeydown keymap (enabled (settings p)) (sounds p) evt = Some h ->
  keydown keymap evt p = set_audio (alter play h (audio p)) p.
Proof. intros Ek. unfold keydown. by rewrite Ek. Qed.

Lemma playing_at_play_eq h a : is_Some (a !! h) -> playing_at (alter play h a) h = S (playing_at a h).
Proof. intros [hw Hh]. unfold playing_at. by rewrite lookup_alter_eq, Hh. Qed.

(** C35. Playback is fire-and-forget (spec 4.4): [n] keydowns in a row
    that the listener dispatches to a handle leave [n] more playbacks in
    progress on it; the triggers overlap, none is queued, merged or
    dropped. *)
Theorem rapid_keydowns_overlap p evt h n :
  onKeydown keymap (enabled (settings p)) (sounds p) evt = Some h -> is_Some (audio p !! h) ->
  playing_at (audio (Nat.iter n (keydown keymap evt) p)) h = playing_at (audio p) h + n.
Proof.
  intros Ek Hh. induction n as [|n IH]; [by rewrite Nat.add_0_r|]. rewrite Nat.iter_succ.
  set (q := Nat.iter n (keydown keymap evt) p) in *.
  assert (Hq : settings q = settings p /\ sounds q = sounds p /\ is_Some (audio q !! h)).
  { subst q. clear IH. induction n as [|n [Hs [Hn Hi]]]; [done|]. rewrite Nat.iter_succ.
    rewrite (keydown_plays_handle _ _ h) by (rewrite Hs, Hn; exact Ek). cbn.
    split; [done|]. split; [done|]. by rewrite lookup_alter_is_Some. }
  destruct Hq as (Hs & Hn & Hi).
  rewrite (keydown_plays_handle _ _ h) by (rewrite Hs, Hn; exact Ek). cbn.
  rewrite playing_at_play_eq by done. lia.
Qed.
End Reachable.

Module RefinementScenarios.
Import PluginScenarios.

Definition st_typed : PState := PS (keydown DEFAULT_MAP keyA p_loaded) [].

Lemma plugin_step_refines_dispatch_witness :
  rtc (pstep getScheme0 DEFAULT_MAP) (start_state None) (loaded_state None) /\
  pstep getScheme0 DEFAULT_MAP (loaded_state None) st_typed /\
  exists l, dispatch_step (sounds p_loaded) l (sounds (ps_plugin st_typed)) /\
    audio_effect l p_loaded (ps_plugin st_typed).
Proof.
  assert (Hr : rtc (pstep getScheme0 DEFAULT_MAP) (start_state None) (loaded_state None))
    by apply rtc_once, start_to_loaded.
  assert (Hs : pstep getScheme0 DEFAULT_MAP (loaded_state None) st_typed) by apply pstep_keydown.
  split; [exact Hr|]. split; [exact Hs|].
  exact (plugin_step_refines_dispatch getScheme0 DEFAULT_MAP None _ _ Hr Hs).
Defined.

Lemma rapid_keydowns_overlap_witness :
  onKeydown DEFAULT_MAP (enabled (settings p_loaded)) (sounds p_loaded) keyA = Some (handle_id 1 Key) /\
  is_Some (audio p_loaded !! handle_id 1 Key) /\
  playing_at (audio (Nat.iter 3 (keydown DEFAULT_MAP keyA) p_loaded)) (handle_id 1 Key) = 3.
Proof.
  assert (Ek : onKeydown DEFAULT_MAP (enabled (settings p_loaded)) (sounds p_loaded) keyA
               = Some (handle_id 1 Key)) by (vm_compute; reflexivity).
  assert (Hh : is_Some (audio p_loaded !! handle_id 1 Key)) by (vm_compute; eauto).
  split; [exact Ek|]. split; [exact Hh|].
  rewrite (rapid_keydowns_overlap DEFAULT_MAP p_loaded keyA _ 3 Ek Hh). vm_compute. reflexivity.
Defined.
End RefinementScenarios.
