(* ===== verification/SettingTab.v ===== *)
(** * The settings tab: [display] of src/src/SettingTab.ts

    [ClickClackSettingTab.display] (lines 17-99) empties the container and
    builds five rows: the sound toggle, the volume slider, the "resource"
    heading, the scheme dropdown with its refresh button, and the download
    button.  This file models what the tab shows as data ([row], [control],
    [DropdownState]), the JavaScript object spread that fills the dropdown
    ([obj_set], [obj_spread]), obsidian's [addOptions] and [setValue], and
    the handlers of the two buttons.  The handlers of the toggle, the slider
    and the dropdown change the plugin and are in Plugin.v.

    The labels are [i18n.t(key)], a parameter [t] (libs/i18n is not in the
    repository).  The dropdown is filled after [await getInstalledSchemes()];
    [display] gives the tab once that await has resolved, with the installed
    schemes [installed] (a JavaScript object, here its entries in order). *)

From S2P Require Import Prelude Vault Async FetchHelper Dispatch Plugin.
From Stdlib Require Import DecimalString NArith.

(** ** JavaScript objects with string keys *)

(** An object as its properties in the order they were created.
    [o[k] = v]: an existing key keeps its place, a new key goes last. *)
Fixpoint obj_set (o : list (string * string)) (k v : string) : list (string * string) :=
  match o with
  | [] => [(k, v)]
  | (k', v') :: o' => if String.eqb k k' then (k, v) :: o' else (k', v') :: obj_set o' k v
  end.

(** [{...o, ...src}]: the entries of [src] assigned in order. *)
Definition obj_spread (o src : list (string * string)) : list (string * string) :=
  fold_left (fun o kv => obj_set o kv.1 kv.2) src o.

(** ECMAScript's array index: the canonical decimal numeral of an integer
    below 2^32 - 1 ("1", not "01" nor ""), with its value. *)
Definition array_index (k : string) : option N :=
  match NilEmpty.uint_of_string k with
  | Some u =>
      let n := N.of_uint u in
      if (String.eqb (NilEmpty.string_of_uint (N.to_uint n)) k && N.ltb n 4294967295)%bool
      then Some n else None
  | None => None
  end.

Definition is_array_index (k : string) : bool :=
  match array_index k with Some _ => true | None => false end.

Definition index_of (kv : string * string) : N := default 0%N (array_index kv.1).

(** Insertion by ascending index value. *)
Fixpoint insert_by_index (kv : string * string) (l : list (string * string))
    : list (string * string) :=
  match l with
  | [] => [kv]
  | kv' :: l' => if N.leb (index_of kv) (index_of kv') then kv :: l else kv' :: insert_by_index kv l'
  end.

(** [for (const key in o)] enumerates [OrdinaryOwnPropertyKeys(o)]: the
    array-index keys in ascending numeric order, then the other string keys
    in the order they were created. *)
Definition own_entries (o : list (string * string)) : list (string * string) :=
  foldr insert_by_index [] (List.filter (fun kv => is_array_index kv.1) o) ++
  List.filter (fun kv => negb (is_array_index kv.1)) o.

(** ** What the tab shows *)

(** A [DropdownComponent]: its [<option>]s (value, label) and its value. *)
Record DropdownState := { dd_options : list (string * string); dd_value : string }.

Inductive control :=
| Toggle (value : bool)
| Slider (min max step : Z) (value : Z) (dynamic_tooltip : bool)
| Dropdown (d : DropdownState)
| ExtraButton (icon : string)
| Button (text icon : string) (cta : bool).

(** A [new Setting(containerEl)]: name, description, heading flag, controls. *)
Record row := {
  row_name : string; row_desc : option string; row_heading : bool; row_controls : list control;
}.

(** [addOptions(options)]: [for (const key in options)
    this.addOption(key, options[key])], each appending an [<option>] to the
    select element, in the enumeration order of the object's keys. *)
Definition addOptions (opts : list (string * string)) (d : DropdownState) : DropdownState :=
  {| dd_options := dd_options d ++ own_entries opts; dd_value := dd_value d |}.

(** [setValue(value)]. *)
Definition setValue (v : string) (d : DropdownState) : DropdownState :=
  {| dd_options := dd_options d; dd_value := v |}.

Definition empty_dropdown : DropdownState := {| dd_options := []; dd_value := "" |}.

Section Tab.
Variable t : string -> string.

(** [{ default: i18n.t('settings.scheme.default'), ...await getInstalledSchemes() }] *)
Definition scheme_options (installed : list (string * string)) : list (string * string) :=
  obj_spread [("default", t "settings.scheme.default")] installed.

(** [comp.addOptions(..).setValue(this.plugin.settings.activeScheme.id)] *)
Definition scheme_dropdown (installed : list (string * string)) (p : Plugin) : DropdownState :=
  setValue (scheme_id (activeScheme (settings p)))
    (addOptions (scheme_options installed) empty_dropdown).

Definition display (installed : list (string * string)) (p : Plugin) : list row :=
  [ {| row_name := t "settings.toggle-sound.name"; row_desc := None; row_heading := false;
       row_controls := [Toggle (enabled (settings p))] |};
    {| row_name := t "settings.volume.name"; row_desc := Some (t "settings.volume.desc");
       row_heading := false; row_controls := [Slider 0 100 1 (slider_value p) true] |};
    {| row_name := t "settings.resource"; row_desc := None; row_heading := true;
       row_controls := [] |};
    {| row_name := t "settings.scheme.name"; row_desc := None; row_heading := false;
       row_controls := [Dropdown (scheme_dropdown installed p); ExtraButton "refresh-cw"] |};
    {| row_name := t "settings.download.name"; row_desc := Some (t "settings.download.desc");
       row_heading := false;
       row_controls := [Button (t "settings.download.button") "download" true] |} ].

(** The refresh button's [onClick]: the installed schemes are added to the
    dropdown again, and its value reset to the active scheme. *)
Definition onRefreshClick (installed : list (string * string)) (p : Plugin)
    (d : DropdownState) : DropdownState :=
  setValue (scheme_id (activeScheme (settings p))) (addOptions (scheme_options installed) d).
End Tab.

(** The download button's [onClick]: [await this.fetchHelper.checkOrDownload()]. *)
Definition onDownloadClick (E : env) : prog := then_ (checkOrDownload E) Done.

(** ** Objects: keys are unique and assignments land *)

Lemma obj_set_keys o k v :
  map fst (obj_set o k v) = if bool_decide (k ∈ map fst o) then map fst o else map fst o ++ [k].
Proof.
  induction o as [|[k' v'] o IH]; simpl; [done|].
  destruct (String.eqb_spec k k') as [->|Hne].
  - rewrite bool_decide_true; [done|]. apply elem_of_cons. by left.
  - simpl. rewrite IH. case_bool_decide as Hin.
    + rewrite bool_decide_true; [done|]. apply elem_of_cons. by right.
    + rewrite bool_decide_false; [done|]. intros [->|?]%elem_of_cons; done.
Qed.

Lemma obj_set_NoDup o k v : NoDup (map fst o) -> NoDup (map fst (obj_set o k v)).
Proof.
  intros Hnd. rewrite obj_set_keys. case_bool_decide as Hin; [done|].
  apply NoDup_app. split; [done|]. split; [|apply NoDup_singleton].
  intros x Hx ->%list_elem_of_singleton. done.
Qed.

Lemma obj_set_has o k v q : q ∈ map fst o \/ q = k -> q ∈ map fst (obj_set o k v).
Proof.
  intros Hq. rewrite obj_set_keys.
  case_bool_decide as Hin; (destruct Hq as [Hq|Hq]; [|subst q]); try done.
  - apply elem_of_app. by left.
  - apply elem_of_app. right. by apply list_elem_of_singleton.
Qed.

Lemma obj_spread_NoDup o src : NoDup (map fst o) -> NoDup (map fst (obj_spread o src)).
Proof.
  intros Hnd. unfold obj_spread.
  apply (fold_left_inv (fun o => NoDup (map fst o))); [done|].
  intros o' kv _. apply obj_set_NoDup.
Qed.

Lemma obj_spread_has o src q :
  q ∈ map fst o \/ q ∈ map fst src -> q ∈ map fst (obj_spread o src).
Proof.
  unfold obj_spread. revert o. induction src as [|[k v] src IH]; intros o Hq; simpl.
  - destruct Hq as [Hq|Hq]; [done|by apply elem_of_nil in Hq].
  - apply IH. simpl in Hq. destruct Hq as [Hq|[->|Hq]%elem_of_cons].
    + left. apply obj_set_has. by left.
    + left. apply obj_set_has. by right.
    + by right.
Qed.

Lemma obj_set_head k0 v0 o k v :
  head (map fst (obj_set ((k0, v0) :: o) k v)) = Some k0.
Proof. simpl. by destruct (String.eqb_spec k k0) as [->|]. Qed.

Lemma obj_spread_head k0 v0 o src :
  head (map fst (obj_spread ((k0, v0) :: o) src)) = Some k0.
Proof.
  unfold obj_spread. revert v0 o. induction src as [|[k v] src IH]; intros v0 o; [done|].
  simpl. destruct (String.eqb_spec k k0) as [->|]; apply IH.
Qed.

Lemma obj_set_keys_sub o k v q : q ∈ map fst (obj_set o k v) -> q ∈ map fst o \/ q = k.
Proof.
  rewrite obj_set_keys. case_bool_decide; [by left|].
  intros Hq. apply elem_of_app in Hq as [Hq|Hq]; [by left|].
  right. by apply list_elem_of_singleton.
Qed.

Lemma obj_spread_keys_sub o src q :
  q ∈ map fst (obj_spread o src) -> q ∈ map fst o \/ q ∈ map fst src.
Proof.
  unfold obj_spread. revert o. induction src as [|[k v] src IH]; intros o Hq; [by left|].
  cbn in *. destruct (IH _ Hq) as [Ho|Hs].
  - apply obj_set_keys_sub in Ho as [Ho | Ho]; [by left|]. subst q. right. by left.
  - right. by right.
Qed.

(** ** Enumeration order *)

Lemma insert_by_index_perm kv l : insert_by_index kv l ≡ₚ kv :: l.
Proof.
  induction l as [|kv' l IH]; cbn; [done|]. case_match; [done|].
  rewrite IH. apply perm_swap.
Qed.

Lemma sort_by_index_perm l : foldr insert_by_index [] l ≡ₚ l.
Proof. induction l as [|kv l IH]; cbn; [done|]. by rewrite insert_by_index_perm, IH. Qed.

Lemma filter_split_perm {A} (f : A -> bool) l :
  List.filter f l ++ List.filter (fun x => negb (f x)) l ≡ₚ l.
Proof.
  induction l as [|x l IH]; cbn; [done|]. destruct (f x); cbn; [by rewrite IH|].
  by rewrite <- Permutation_middle, IH.
Qed.

Lemma filter_none {A} (f : A -> bool) l : Forall (fun x => f x = false) l -> List.filter f l = [].
Proof. induction 1 as [|x l Hx _ IH]; cbn; [done|]. by rewrite Hx. Qed.

Lemma filter_all {A} (f : A -> bool) l : Forall (fun x => f x = true) l -> List.filter f l = l.
Proof. induction 1 as [|x l Hx _ IH]; cbn; [done|]. by rewrite Hx, IH. Qed.

(** The enumeration lists the keys of the object, each once. *)
Lemma own_entries_keys o : map fst (own_entries o) ≡ₚ map fst o.
Proof.
  apply Permutation_map. unfold own_entries. rewrite sort_by_index_perm. apply filter_split_perm.
Qed.

(** With no array-index key, the enumeration is the creation order. *)
Lemma own_entries_plain o :
  Forall (fun kv => is_array_index kv.1 = false) o -> own_entries o = o.
Proof.
  intros Ho. unfold own_entries. rewrite filter_none by done. cbn.
  apply filter_all. eapply Forall_impl; [exact Ho|]. intros kv ->. done.
Qed.

Lemma in_keys_entry (k : string) (o : list (string * string)) :
  k ∈ map fst o -> exists v, In (k, v) o.
Proof.
  intros (kv & <- & Hin)%list_elem_of_In%in_map_iff. exists kv.2. by destruct kv.
Qed.

(** Every array-index key is enumerated before every other key. *)
Lemma own_entries_index_first o k q :
  k ∈ map fst o -> is_array_index k = true -> q ∈ map fst o -> is_array_index q = false ->
  exists i j, map fst (own_entries o) !! i = Some k /\ map fst (own_entries o) !! j = Some q /\ i < j.
Proof.
  intros Hk Hki Hq Hqi. destruct (in_keys_entry k o Hk) as [v Hv], (in_keys_entry q o Hq) as [w Hw].
  unfold own_entries. rewrite map_app.
  set (A := map fst (foldr insert_by_index [] (List.filter (fun kv => is_array_index kv.1) o))).
  set (B := map fst (List.filter (fun kv => negb (is_array_index kv.1)) o)).
  assert (HA : k ∈ A).
  { subst A. rewrite sort_by_index_perm. apply list_elem_of_In, (in_map fst _ (k, v)).
    apply filter_In. by split. }
  assert (HB : q ∈ B).
  { subst B. apply list_elem_of_In, (in_map fst _ (q, w)). apply filter_In. cbn. by rewrite Hqi. }
  destruct (list_elem_of_lookup_1 _ _ HA) as [i Hi], (list_elem_of_lookup_1 _ _ HB) as [j Hj].
  exists i, (length A + j). pose proof (lookup_lt_Some _ _ _ Hi).
  split; [by rewrite lookup_app_l|]. split; [|lia].
  rewrite lookup_app_r by lia. by replace (length A + j - length A) with j by lia.
Qed.

(** A click of the download button, awaited, is a call of [checkOrDownload]. *)
Lemma run_onDownloadClick {Store} `{DataAdapter Store} server E (w : world Store) :
  run server (onDownloadClick E) w = run server (checkOrDownload E) w.
Proof.
  unfold onDownloadClick. rewrite run_then. by destruct (run server (checkOrDownload E) w) as [? []].
Qed.

Lemma refresh_options t installed p d :
  dd_options (onRefreshClick t installed p d) = dd_options d ++ own_entries (scheme_options t installed).
Proof. done. Qed.

(** ** What the tab shows *)

(** The dropdown's options are the enumeration of the options object. *)
Lemma scheme_dropdown_options t installed p :
  dd_options (scheme_dropdown t installed p) = own_entries (scheme_options t installed).
Proof. done. Qed.

Lemma default_not_index : is_array_index "default" = false.
Proof. reflexivity. Qed.

(** C26. The tab reflects the plugin: the toggle shows [enabled]; the
    slider runs from 0 to 100 by 1 and starts at [volumn ?? 100]; the
    dropdown shows the active scheme and lists "default" and every
    installed scheme, each key once (the object spread merges a scheme
    named "default" into the first entry).  "default" is listed first when
    no installed scheme id is an array index; an id that is one ("1",
    "42") is listed before "default", whatever the spread's order, because
    [for .. in] enumerates array-index keys first. *)
Theorem display_reflects_state t installed p :
  exists d,
    map row_controls (display t installed p) =
      [[Toggle (enabled (settings p))]; [Slider 0 100 1 (slider_value p) true]; [];
       [Dropdown d; ExtraButton "refresh-cw"];
       [Button (t "settings.download.button") "download" true]] /\
    dd_value d = scheme_id (activeScheme (settings p)) /\
    NoDup (map fst (dd_options d)) /\
    "default" ∈ map fst (dd_options d) /\
    (forall k, k ∈ map fst installed -> k ∈ map fst (dd_options d)) /\
    (Forall (fun k => is_array_index k = false) (map fst installed) ->
       head (map fst (dd_options d)) = Some "default") /\
    (forall k, k ∈ map fst installed -> is_array_index k = true ->
       exists i j, map fst (dd_options d) !! i = Some k /\
                   map fst (dd_options d) !! j = Some "default" /\ i < j).
Proof.
  exists (scheme_dropdown t installed p). rewrite scheme_dropdown_options.
  assert (Hd : "default" ∈ map fst (scheme_options t installed))
    by (apply obj_spread_has; left; by left).
  split; [done|]. split; [done|].
  split; [rewrite own_entries_keys; apply obj_spread_NoDup; repeat constructor; set_solver|].
  split; [by rewrite own_entries_keys|].
  split; [intros k Hk; rewrite own_entries_keys; apply obj_spread_has; by right|].
  split.
  - intros Hplain. rewrite own_entries_plain; [apply obj_spread_head|].
    apply Forall_forall. intros [k v] Hkv.
    assert (Hk : k ∈ map fst (scheme_options t installed))
      by (apply list_elem_of_In, (in_map fst _ (k, v)), list_elem_of_In, Hkv).
    destruct (obj_spread_keys_sub _ _ _ Hk) as [->%list_elem_of_singleton|Hi];
      [exact default_not_index|].
    by eapply Forall_forall in Hplain.
  - intros k Hk Hki. apply own_entries_index_first; [|done|done|exact default_not_index].
    apply obj_spread_has. by right.
Qed.

(** C27. The refresh button appends: each click adds every option of the
    dropdown again ([addOptions] appends an [<option>] per key), so after
    [n] clicks the dropdown lists each scheme [n + 1] times, and from the
    first click on, the keys are no longer unique. *)
Theorem refresh_clicks_duplicate_options t installed p n :
  dd_options (Nat.iter n (onRefreshClick t installed p) (scheme_dropdown t installed p)) =
    concat (replicate (S n) (own_entries (scheme_options t installed))) /\
  (1 <= n -> ~ NoDup (map fst (dd_options
     (Nat.iter n (onRefreshClick t installed p) (scheme_dropdown t installed p))))).
Proof.
  assert (Hopts : forall n, dd_options (Nat.iter n (onRefreshClick t installed p)
                      (scheme_dropdown t installed p)) =
                    concat (replicate (S n) (own_entries (scheme_options t installed)))).
  { induction n0 as [|n0 IH]; [exact (eq_sym (app_nil_r _))|].
    simpl Nat.iter. rewrite refresh_options, IH.
    rewrite (replicate_S_end (S n0)), concat_app. cbn [concat]. by rewrite app_nil_r. }
  split; [apply Hopts|]. intros Hn. rewrite Hopts.
  destruct n as [|n]; [lia|]. simpl. rewrite !map_app.
  assert (Hd : "default" ∈ map fst (own_entries (scheme_options t installed))).
  { rewrite own_entries_keys. apply obj_spread_has. left. by left. }
  intros Hnd. apply NoDup_app in Hnd as (_ & Hdis & _).
  apply (Hdis "default"); [done|]. apply elem_of_app. by left.
Qed.

(** ** Concrete scenarios *)

Module TabScenarios.
Import FetchHelper.Scenarios PluginScenarios.

(** Labels shown as their translation keys. *)
Definition t0 (key : string) : string := key.
Definition installed0 : list (string * string) :=
  [("typewriter", "Typewriter"); ("mechanical", "Mechanical")].

(** C17. Re-entrant acquisition: the download button stays enabled while
    its handler runs, so two clicks in a row run two [checkOrDownload] calls
    at once; both can see the archive missing and both download it, where
    the same two clicks with the first one finished download it once. *)
Theorem concurrent_download_clicks_download_twice :
  (exists c, steps server0 (Cfg (init_world empty_vault) (onDownloadClick E0)
                                 [onDownloadClick E0]) c /\
             final c /\ asset_downloads (w_requests (c_world c)) = 2) /\
  asset_downloads
    (w_requests (fst (run server0 (onDownloadClick E0)
                        (fst (run server0 (onDownloadClick E0) (init_world empty_vault)))))) = 1.
Proof.
  split; [|vm_compute; reflexivity].
  eexists. split; [apply (replay_sound server0 [Main; Main; Task 1; Task 1] 300)|].
  vm_compute. split; [split; [discriminate|reflexivity]|reflexivity].
Qed.

(** An installed scheme whose id is an array index comes before "default". *)
Lemma numeric_scheme_listed_before_default :
  map fst (dd_options (scheme_dropdown t0 [("typewriter", "Typewriter"); ("1", "Scheme one")] p_loaded))
    = ["1"; "default"; "typewriter"].
Proof. vm_compute. reflexivity. Qed.

Lemma refresh_clicks_duplicate_options_witness :
  dd_options (Nat.iter 2 (onRefreshClick t0 installed0 p_loaded)
                (scheme_dropdown t0 installed0 p_loaded)) =
    concat (replicate 3 (own_entries (scheme_options t0 installed0))) /\
  (1 <= 2 -> ~ NoDup (map fst (dd_options (Nat.iter 2 (onRefreshClick t0 installed0 p_loaded)
                                            (scheme_dropdown t0 installed0 p_loaded))))).
Proof. exact (refresh_clicks_duplicate_options t0 installed0 p_loaded 2). Defined.
End TabScenarios.
